(** * Fingerprint OPC UA interface: service dispatch and deferred completion

    A shallow embedding of [fp_opcua_server.py] (the dispatch layer),
    [fp_mockup_system.py] (the simulated backend) and [fp_echo_system.py]
    (the echo backend), with the properties the specification states about
    them and further properties read off the code. *)

From Stdlib Require Import ZArith QArith Ascii String List Bool Lia.
From stdpp Require Import base tactics option list gmap strings.

Local Open Scope string_scope.
Local Open Scope list_scope.

(** ** Python string primitives (ASCII names)

    Service names and backend method names are identifiers; they are
    modelled as strings of 8-bit characters, and the case predicates and
    mappings are those of the ASCII letters.  On characters of the ASCII
    range they are the ones of Python's [str]; outside of it they are not
    ([str] follows the Unicode database there), and what is proved of names
    is proved of ASCII names.  [Unicode], further down, has the name
    transforms over code points. *)

Module PyStr.

Definition isupper (c : ascii) : bool :=
  (65 <=? nat_of_ascii c)%nat && (nat_of_ascii c <=? 90)%nat.

Definition islower (c : ascii) : bool :=
  (97 <=? nat_of_ascii c)%nat && (nat_of_ascii c <=? 122)%nat.

(** [c.lower()] and [c.upper()] on one character. *)
Definition lower (c : ascii) : ascii :=
  if isupper c then ascii_of_nat (nat_of_ascii c + 32) else c.

Definition upper (c : ascii) : ascii :=
  if islower c then ascii_of_nat (nat_of_ascii c - 32) else c.

Fixpoint str_map (f : ascii -> ascii) (s : string) : string :=
  match s with
  | EmptyString => EmptyString
  | String c s' => String (f c) (str_map f s')
  end.

Definition str_lower : string -> string := str_map lower.

Fixpoint str_forall (p : ascii -> bool) (s : string) : bool :=
  match s with
  | EmptyString => true
  | String c s' => p c && str_forall p s'
  end.

(** [sep.join(parts)] *)
Fixpoint join (sep : string) (parts : list string) : string :=
  match parts with
  | [] => ""
  | [p] => p
  | p :: ps => p +:+ sep +:+ join sep ps
  end.

(** [s.lstrip(ch)] for a one-character argument. *)
Fixpoint lstrip (ch : ascii) (s : string) : string :=
  match s with
  | EmptyString => EmptyString
  | String c s' => if Ascii.eqb c ch then lstrip ch s' else s
  end.

(** [s.split(sep)] for a one-character separator: empty parts are kept and
    the empty string splits into one empty part. *)
Fixpoint split (sep : ascii) (s : string) : list string :=
  match s with
  | EmptyString => [""]
  | String c s' =>
      if Ascii.eqb c sep then "" :: split sep s'
      else match split sep s' with
           | p :: ps => String c p :: ps
           | [] => [String c ""]
           end
  end.

(** [s.capitalize()]: first character upper-cased, the rest lower-cased. *)
Definition capitalize (s : string) : string :=
  match s with
  | EmptyString => EmptyString
  | String c s' => String (upper c) (str_lower s')
  end.

(** [sub in s] for strings: substring test. *)
Fixpoint is_prefix (p s : string) : bool :=
  match p, s with
  | EmptyString, _ => true
  | String a p', String b s' => Ascii.eqb a b && is_prefix p' s'
  | String _ _, EmptyString => false
  end.

Fixpoint is_substring (sub s : string) : bool :=
  is_prefix sub s ||
  match s with
  | EmptyString => false
  | String _ s' => is_substring sub s'
  end.

(** [s.rjust(width, fill)] *)
Definition rjust (width : nat) (fill : ascii) (s : string) : string :=
  string_of_list_ascii (repeat fill (width - String.length s)) +:+ s.

End PyStr.

(** ** Name transforms of [fp_opcua_server.py] *)

(** [''.join(['_' + c.lower() if c.isupper() else c for c in s]).lstrip('_')] *)
Definition camel_to_snake (s : string) : string :=
  PyStr.lstrip "_"
    (PyStr.join ""
       (map (fun c : ascii =>
               if PyStr.isupper c then String "_" (String (PyStr.lower c) "")
               else String c "")
            (list_ascii_of_string s))).

(** [''.join(part.capitalize() for part in s.split('_'))] *)
Definition snake_to_camel (s : string) : string :=
  PyStr.join "" (map PyStr.capitalize (PyStr.split "_" s)).

(** A word of a word-boundary-capitalized name: one uppercase letter followed
    by lowercase letters. *)
Definition camel_word (w : string) : bool :=
  match w with
  | EmptyString => false
  | String c w' => PyStr.isupper c && PyStr.str_forall PyStr.islower w'
  end.

(** The names of the protocol's convention: non-empty concatenations of such
    words. *)
Definition camel_name_of (ws : list string) : string := PyStr.join "" ws.

(** The backend's convention: the lower-cased words separated by underscores. *)
Definition snake_name_of (ws : list string) : string :=
  PyStr.join "_" (map PyStr.str_lower ws).

(** ** The name transforms on Unicode strings

    Python's [str] is a sequence of code points, and [isupper], [lower] and
    [capitalize] follow the Unicode Character Database.  [Unicode] has the two
    transforms over code points, with the casing of the ASCII range and of
    a few other code points; on ASCII names they are the transforms above
    (see [Unicode.camel_to_snake_ascii] and [Unicode.snake_to_camel_ascii]
    below). *)

Module Unicode.

(** What the database says about a code point: [c.isupper()],
    [c.islower()], and the full lower-case and title-case mappings, which
    may have more than one code point. *)
Record casing : Type := mkCasing {
  is_upper : bool;
  is_lower : bool;
  to_lower : list N;
  to_title : list N
}.

(** An excerpt of the database: the ASCII range, and
    U+00DF (sharp s), U+01C4, U+01C5, U+01C6 (the letter DZ with caron in
    upper, title and lower case) and U+2102 (double-struck capital C).
    The excerpt says nothing about any other code point. *)
Definition casing_of (c : N) : option casing :=
  if (c <? 128)%N then
    let upper := ((65 <=? c) && (c <=? 90))%N in
    let lower := ((97 <=? c) && (c <=? 122))%N in
    Some (mkCasing upper lower
            [if upper then (c + 32)%N else c]
            [if lower then (c - 32)%N else c])
  else if (c =? 223)%N then Some (mkCasing false true [223%N] [83%N; 115%N])
  else if (c =? 452)%N then Some (mkCasing true false [454%N] [453%N])
  else if (c =? 453)%N then Some (mkCasing false false [454%N] [453%N])
  else if (c =? 454)%N then Some (mkCasing false true [454%N] [453%N])
  else if (c =? 8450)%N then Some (mkCasing true false [8450%N] [8450%N])
  else None.

(** The code point of the underscore. *)
Definition underscore : N := 95.

(** [s.lstrip(ch)] for a one-character argument. *)
Fixpoint lstrip (ch : N) (s : list N) : list N :=
  match s with
  | [] => []
  | c :: s' => if (c =? ch)%N then lstrip ch s' else s
  end.

(** [s.split(sep)] for a one-character separator. *)
Fixpoint split (sep : N) (s : list N) : list (list N) :=
  match s with
  | [] => [[]]
  | c :: s' =>
      if (c =? sep)%N then [] :: split sep s'
      else match split sep s' with
           | p :: ps => (c :: p) :: ps
           | [] => [[c]]
           end
  end.

(** [s.lower()], code point by code point (no code point of the excerpt
    has a lower-case mapping that depends on its neighbours). *)
Definition str_lower (s : list N) : option (list N) :=
  parts ← mapM (fun c => ci ← casing_of c; Some (to_lower ci)) s;
  Some (concat parts).

(** [s.capitalize()]: the first code point in title case, the rest in lower
    case. *)
Definition capitalize (s : list N) : option (list N) :=
  match s with
  | [] => Some []
  | c :: s' =>
      ci ← casing_of c;
      rest ← str_lower s';
      Some (to_title ci ++ rest)
  end.

(** [''.join(['_' + c.lower() if c.isupper() else c for c in s]).lstrip('_')] *)
Definition camel_to_snake (s : list N) : option (list N) :=
  parts ← mapM (fun c =>
                  ci ← casing_of c;
                  Some (if is_upper ci then underscore :: to_lower ci else [c]))
               s;
  Some (lstrip underscore (concat parts)).

(** [''.join(part.capitalize() for part in s.split('_'))] *)
Definition snake_to_camel (s : list N) : option (list N) :=
  parts ← mapM capitalize (split underscore s);
  Some (concat parts).

(** One uppercase letter followed by lowercase letters. *)
Definition camel_word (w : list N) : bool :=
  match w with
  | [] => false
  | c :: w' =>
      from_option is_upper false (casing_of c)
      && forallb (fun c' => from_option is_lower false (casing_of c')) w'
  end.

(** The code points of a string of 8-bit characters. *)
Definition of_string (s : string) : list N :=
  map N_of_ascii (list_ascii_of_string s).

End Unicode.

(** The characters of the ASCII range. *)
Definition is_ascii (c : ascii) : bool := (nat_of_ascii c <? 128)%nat.

Definition ascii_name (s : string) : bool := PyStr.str_forall is_ascii s.

(** ** Device status enumerations

    [RunState], [ResultState], [ErrorType] and [FpStatus] are imported by the
    backends from [fp_tcp_interface_definitions]. *)

(** Modelled from the spec: the run-state enumeration of
    [fp_tcp_interface_definitions] (READY, ACQUIRING, COMMAND_RUNNING, ERROR),
    with the member names the backends use; [RUN_STATE_OTHER] stands for any
    further member. *)
Inductive RunState : Type :=
| SYSTEM_READY
| ACQUIRING_IMAGE
| COMMAND_RUNNING
| SYSTEM_ERROR
| RUN_STATE_OTHER (code : Z).

(** Modelled from the spec: the result-state enumeration of
    [fp_tcp_interface_definitions]. *)
Inductive ResultState : Type :=
| RESULT_UNDEFINED
| RESULT_READY
| RESULT_STATE_OTHER (code : Z).

(** Modelled from the spec: the error-kind enumeration of
    [fp_tcp_interface_definitions]. *)
Inductive ErrorType : Type :=
| NO_ERROR
| ID_DUPLICATE_FOUND
| FP_DUPLICATE_FOUND
| ERROR_TYPE_OTHER (code : Z).

#[global] Instance RunState_eq_dec : EqDecision RunState.
Proof. solve_decision. Defined.
#[global] Instance ResultState_eq_dec : EqDecision ResultState.
Proof. solve_decision. Defined.
#[global] Instance ErrorType_eq_dec : EqDecision ErrorType.
Proof. solve_decision. Defined.

(** ** Python values, dictionaries and exceptions *)

(** The values that cross the service interface; the members of the status
    enumerations travel as themselves. *)
#[warnings="-register-all"]
Inductive value : Type :=
| VNone
| VBool (b : bool)
| VInt (z : Z)
| VFloat (q : Q)
| VStr (s : string)
| VList (l : list value)
| VRunState (r : RunState)
| VResultState (r : ResultState)
| VErrorType (e : ErrorType).

(** A [dict] with string keys keeps its insertion order. *)
Definition pydict (A : Type) : Type := list (string * A).
Definition dict : Type := pydict value.

Fixpoint dict_get {A} (k : string) (d : pydict A) : option A :=
  match d with
  | [] => None
  | (k', v) :: d' => if String.eqb k k' then Some v else dict_get k d'
  end.

(** [d[k] = v]: an existing key keeps its position. *)
Fixpoint dict_set {A} (k : string) (v : A) (d : pydict A) : pydict A :=
  match d with
  | [] => [(k, v)]
  | (k', v') :: d' =>
      if String.eqb k k' then (k, v) :: d' else (k', v') :: dict_set k v d'
  end.

(** [d.update(other)] with the entries of [other] as keyword arguments. *)
Definition dict_update (d other : dict) : dict :=
  fold_left (fun acc kv => dict_set (fst kv) (snd kv) acc) other d.

Definition dict_keys {A} (d : pydict A) : list string := map fst d.

(** [l.append(x)] extends the list object in place and evaluates to [None]. *)
Definition list_append (l : list value) (x : value) : list value * value :=
  (l ++ [x], VNone).

(** [str(None)] *)
Definition str_None (v : value) : string :=
  match v with VNone => "None" | _ => "" end.

(** What a backend method hands back: a [dict] of named result fields, or
    some other object (for instance a coroutine that was not awaited). *)
Inductive pyret : Type :=
| RetDict (d : dict)
| RetObject.

Inductive exn : Type :=
| KeyError (key : string)
| TypeError (what : string)
| AttributeError (name : string)
| UaError (what : string)
| Raised (what : string).   (* any other [Exception] of a backend *)

Inductive result (A : Type) : Type :=
| Ok (a : A)
| Exc (e : exn).
Arguments Ok {A} a.
Arguments Exc {A} e.

(** ** The status register *)

(** Modelled from the spec: the status register [FpStatus] of
    [fp_tcp_interface_definitions], DeviceStatus = (run_state, result_state,
    error_kind, current_command). *)
Record FpStatus : Type := mkFpStatus {
  run_state : RunState;
  result_state : ResultState;
  error_type : ErrorType;
  current_command : string
}.

(** Modelled from the spec: [FpStatus.update(run, result, error, command)]
    sets the four fields. *)
Definition FpStatus_update (r : RunState) (q : ResultState) (e : ErrorType)
    (cmd : string) (_ : FpStatus) : FpStatus :=
  mkFpStatus r q e cmd.

(** Modelled from the spec: [FpStatus.as_dict()], the snapshot the status
    publisher writes to the state variables of the same names. *)
Definition FpStatus_as_dict (st : FpStatus) : dict :=
  [ ("RunState", VRunState (run_state st));
    ("ResultState", VResultState (result_state st));
    ("ErrorType", VErrorType (error_type st));
    ("CurrentCommand", VStr (current_command st)) ].

(** ** Coroutines

    An [async def] body over an object of type [S]: reads and writes of the
    object, the suspension points ([await asyncio.sleep(..)]), entering and
    leaving [async with self.task_lock], and [randint]. *)

Inductive coro (S R : Type) : Type :=
| Ret (r : R)
| Get (k : S -> coro S R)
| Put (s : S) (k : coro S R)
| Sleep (seconds : Q) (k : coro S R)
| Acquire (k : coro S R)
| Release (k : coro S R)
| Randint (lo hi : Z) (k : Z -> coro S R).
Arguments Ret {S R} r.
Arguments Get {S R} k.
Arguments Put {S R} s k.
Arguments Sleep {S R} seconds k.
Arguments Acquire {S R} k.
Arguments Release {S R} k.
Arguments Randint {S R} lo hi k.

Fixpoint coro_bind {S A B} (f : A -> coro S B) (c : coro S A) : coro S B :=
  match c with
  | Ret r => f r
  | Get k => Get (fun s => coro_bind f (k s))
  | Put s k => Put s (coro_bind f k)
  | Sleep q k => Sleep q (coro_bind f k)
  | Acquire k => Acquire (coro_bind f k)
  | Release k => Release (coro_bind f k)
  | Randint lo hi k => Randint lo hi (fun x => coro_bind f (k x))
  end.

#[global] Instance coro_ret {S} : MRet (coro S) := fun A r => Ret r.
#[global] Instance coro_mbind {S} : MBind (coro S) := fun A B f c => coro_bind f c.
#[global] Instance coro_fmap {S} : FMap (coro S) :=
  fun A B f c => coro_bind (fun a => Ret (f a)) c.

Definition get {S} : coro S S := Get Ret.
Definition modify {S} (f : S -> S) : coro S unit :=
  Get (fun s => Put (f s) (Ret tt)).
Definition sleep {S} (seconds : Q) : coro S unit := Sleep seconds (Ret tt).
Definition randint {S} (lo hi : Z) : coro S Z := Randint lo hi Ret.

(** [async with self.task_lock: body] *)
Definition async_with_lock {S R} (body : coro S R) : coro S R :=
  Acquire (body ≫= fun r => Release (Ret r)).

(** One call run to its end on an otherwise idle object: the lock is free,
    [rnd] answers [randint].  The third component lists the sleeps the call
    went through. *)
Fixpoint run {S R} (rnd : Z -> Z -> Z) (c : coro S R) (s : S) : R * S * list Q :=
  match c with
  | Ret r => (r, s, [])
  | Get k => run rnd (k s) s
  | Put s' k => run rnd k s'
  | Sleep q k => let '(r, s', zs) := run rnd k s in (r, s', q :: zs)
  | Acquire k => run rnd k s
  | Release k => run rnd k s
  | Randint lo hi k => run rnd (k (rnd lo hi)) s
  end.

(** *** Interleaved execution of several calls on one object

    [locked] is the flag of the [asyncio.Lock]: [acquire] goes through when it
    is clear and sets it, [release] clears it.  Calls interleave at every
    instruction, which covers the cooperative schedules of the event loop. *)

Inductive task_step {S R} : coro S R -> S * bool -> coro S R -> S * bool -> Prop :=
| step_get k s l : task_step (Get k) (s, l) (k s) (s, l)
| step_put s' k s l : task_step (Put s' k) (s, l) k (s', l)
| step_sleep q k s l : task_step (Sleep q k) (s, l) k (s, l)
| step_acquire k s : task_step (Acquire k) (s, false) k (s, true)
| step_release k s l : task_step (Release k) (s, l) k (s, false)
| step_randint lo hi k x s l :
    (lo <= x <= hi)%Z -> task_step (Randint lo hi k) (s, l) (k x) (s, l).

Record pool (S R : Type) : Type := mkPool {
  backend : S;
  locked : bool;
  tasks : list (coro S R)
}.
Arguments mkPool {S R}.
Arguments backend {S R}.
Arguments locked {S R}.
Arguments tasks {S R}.

Inductive pool_step {S R} : nat -> pool S R -> pool S R -> Prop :=
| pool_step_task i c c' p s' l' :
    tasks p !! i = Some c ->
    task_step c (backend p, locked p) c' (s', l') ->
    pool_step i p (mkPool s' l' (<[i := c']> (tasks p))).

Inductive pool_steps {S R} : pool S R -> pool S R -> Prop :=
| pool_steps_refl p : pool_steps p p
| pool_steps_step i p q r : pool_steps p q -> pool_step i q r -> pool_steps p r.

(** ** The simulated backend, [fp_mockup_system.py] *)

Module Mockup.

Definition FINGERPRINT_SIZE : nat := 0.

(** Database entries are frozen dataclasses compared by value. *)
Record FpDatabaseEntry : Type := mkEntry {
  fingerprint : string;
  part_id : string;
  batch_id : string;
  part_type : string
}.

#[global] Instance FpDatabaseEntry_eq_dec : EqDecision FpDatabaseEntry.
Proof. solve_decision. Defined.

(** A database is a [set] of entries, kept here as a list without
    repetitions; [fp_databases] is a [dict] from database names to them. *)
Definition set_add (e : FpDatabaseEntry) (db : list FpDatabaseEntry) :
    list FpDatabaseEntry :=
  if bool_decide (e ∈ db) then db else db ++ [e].

Definition set_remove (e : FpDatabaseEntry) (db : list FpDatabaseEntry) :
    list FpDatabaseEntry :=
  List.filter (fun e' => negb (bool_decide (e' = e))) db.

Record FpMockupSystem : Type := mkMockup {
  status : FpStatus;
  image_matching : string;
  fp_databases : pydict (list FpDatabaseEntry)
}.

Definition with_status (f : FpStatus -> FpStatus) (self : FpMockupSystem) :
    FpMockupSystem :=
  mkMockup (f (status self)) (image_matching self) (fp_databases self).

Definition with_image_matching (name : string) (self : FpMockupSystem) :
    FpMockupSystem :=
  mkMockup (status self) name (fp_databases self).

Definition with_fp_databases (dbs : pydict (list FpDatabaseEntry))
    (self : FpMockupSystem) : FpMockupSystem :=
  mkMockup (status self) (image_matching self) dbs.

(** [_init_duration_estimations]: expected durations in milliseconds. *)
Definition duration_estimations : pydict Z :=
  [ ("reset_system", 5%Z); ("get_status", 10%Z);
    ("set_image_matching_type", 10%Z); ("add_part", 2000%Z);
    ("trace_part", 2100%Z) ].

Definition duration (name : string) : Q :=
  inject_Z (default 0%Z (dict_get name duration_estimations)).

(** [self.status.update(..)] *)
Definition status_update (r : RunState) (q : ResultState) (e : ErrorType)
    (cmd : string) : coro FpMockupSystem unit :=
  modify (with_status (FpStatus_update r q e cmd)).

(** [self.status.run_state == RunState.SYSTEM_READY and
    self.status.error_type == ErrorType.NO_ERROR] *)
Definition ready (st : FpStatus) : bool :=
  bool_decide (run_state st = SYSTEM_READY) &&
  bool_decide (error_type st = NO_ERROR).

(** [_get_status] *)
Definition _get_status (self : FpMockupSystem) : dict :=
  FpStatus_as_dict (status self).

(** The four-field acknowledgement the estimators return. *)
Definition prior_info_of (name : string) : dict :=
  [ ("ExpectedServiceExecutionDuration",
      VInt (default 0%Z (dict_get name duration_estimations)));
    ("ServiceTriggerResult", VInt 1);
    ("ServiceResultMessage", VStr "");
    ("ServiceResultCode", VInt 0) ].

Definition reset_system_prior_info (args : list value) : dict :=
  prior_info_of "reset_system".
Definition get_status_prior_info (args : list value) : dict :=
  prior_info_of "get_status".
Definition set_image_matching_type_prior_info (args : list value) : dict :=
  prior_info_of "set_image_matching_type".
Definition add_part_prior_info (args : list value) : dict :=
  prior_info_of "add_part".
Definition trace_part_prior_info (args : list value) : dict :=
  prior_info_of "trace_part".

(** [get_status] runs without the lock and hands back the coroutine of
    [_get_status] as it is. *)
Definition get_status : coro FpMockupSystem pyret :=
  sleep (duration "get_status" / 1000);;
  mret RetObject.

Section Reset.

(** [FpStatus.reset()] of [fp_tcp_interface_definitions]; what it resets the
    fields to is not fixed here. *)
Variable FpStatus_reset : FpStatus -> FpStatus.

Definition reset_system : coro FpMockupSystem dict :=
  async_with_lock (
    modify (with_status FpStatus_reset);;
    sleep (duration "reset_system" / 1000);;
    status_update SYSTEM_READY RESULT_UNDEFINED NO_ERROR "";;
    mret []).

End Reset.

Definition set_image_matching_type (image_matching_name : string) :
    coro FpMockupSystem dict :=
  async_with_lock (
    status_update COMMAND_RUNNING RESULT_UNDEFINED NO_ERROR
      "set_image_matching_type";;
    modify (with_image_matching image_matching_name);;
    sleep (duration "set_image_matching_type" / 1000);;
    status_update SYSTEM_READY RESULT_READY NO_ERROR "";;
    mret []).

(** The [PartIDsOfDuplicates] expression of the duplicate branches:
    [str([p.part_id for p in fp_duplicates].append(
           [p.part_id for p in id_duplicates]))]. *)
Definition part_ids_of_duplicates (fp_duplicates id_duplicates :
    list FpDatabaseEntry) : string :=
  str_None (snd (list_append
                   (map (fun p => VStr (part_id p)) fp_duplicates)
                   (VList (map (fun p => VStr (part_id p)) id_duplicates)))).

Definition add_part (database_name : string)
    (check_id_duplicates check_fp_duplicates : bool)
    (part_id' batch_id' part_type' : string) : coro FpMockupSystem dict :=
  async_with_lock (
    self ← get;
    (* Check system status. *)
    if negb (ready (status self)) then
      mret [("PartIDsOfDuplicates", VStr "")]
    else
      (* Acquire image - delay simulation. *)
      status_update ACQUIRING_IMAGE RESULT_UNDEFINED NO_ERROR "add_part";;
      sleep (duration "add_part" / 1000 * (4 # 10));;
      (* Compute the pseudo fingerprint. *)
      status_update COMMAND_RUNNING RESULT_UNDEFINED NO_ERROR "add_part";;
      let new_fingerprint :=
        PyStr.rjust (FINGERPRINT_SIZE / 3) "-" part_id'
        +:+ PyStr.rjust (FINGERPRINT_SIZE / 3) "-" batch_id'
        +:+ PyStr.rjust (FINGERPRINT_SIZE / 3 + FINGERPRINT_SIZE mod 3) "-"
              part_type' in
      (* If set, search for duplicates in all databases. *)
      self ← get;
      let entries := concat (map snd (fp_databases self)) in
      let id_duplicates :=
        List.filter (fun e => check_id_duplicates
                              && String.eqb (part_id e) part_id') entries in
      let fp_duplicates :=
        List.filter (fun e => check_fp_duplicates
                              && String.eqb (fingerprint e) new_fingerprint)
                    entries in
      sleep (duration "add_part" / 1000 * (6 # 10));;
      (* If there are duplicates, do not add the new part to the database. *)
      if (0 <? length id_duplicates)%nat then
        status_update SYSTEM_ERROR RESULT_READY ID_DUPLICATE_FOUND "";;
        mret [("PartIDsOfDuplicates",
               VStr (part_ids_of_duplicates fp_duplicates id_duplicates))]
      else if (0 <? length fp_duplicates)%nat then
        status_update SYSTEM_ERROR RESULT_READY FP_DUPLICATE_FOUND "";;
        mret [("PartIDsOfDuplicates",
               VStr (part_ids_of_duplicates fp_duplicates id_duplicates))]
      else
        (* If target database does not exist, simply create it. *)
        modify (fun self =>
          let dbs :=
            match dict_get database_name (fp_databases self) with
            | Some _ => fp_databases self
            | None => dict_set database_name [] (fp_databases self)
            end in
          let target_db := default [] (dict_get database_name dbs) in
          (* Finally add the fingerprint to the database. *)
          with_fp_databases
            (dict_set database_name
               (set_add (mkEntry new_fingerprint part_id' batch_id' part_type')
                        target_db) dbs) self);;
        status_update SYSTEM_READY RESULT_READY NO_ERROR "";;
        mret [("PartIDsOfDuplicates", VStr "")]).

(** A [;]-separated argument of [trace_part]: [s.split(';')], or the empty
    list for the empty string. *)
Definition split_names (s : string) : list string :=
  if (String.length s =? 0)%nat then [] else PyStr.split ";" s.

Definition append_if_absent (l : list string) (x : string) : list string :=
  if bool_decide (x ∈ l) then l else l ++ [x].

(** The search loop of [trace_part] up to its [break]: the first database of
    the list that exists and holds a fitting entry, with its candidates. *)
Fixpoint first_candidates (dbs : pydict (list FpDatabaseEntry))
    (fits : FpDatabaseEntry -> bool) (names : list string) :
    option (string * list FpDatabaseEntry) :=
  match names with
  | [] => None
  | ref_db_name :: rest =>
      match dict_get ref_db_name dbs with
      | None => first_candidates dbs fits rest
      | Some ref_db =>
          let candidates := List.filter fits ref_db in
          if (0 <? length candidates)%nat then Some (ref_db_name, candidates)
          else first_candidates dbs fits rest
      end
  end.

Definition trace_part (database_name ref_database_names : string)
    (trace_all_databases : bool) (batch_ids : string) (trace_batchwise : bool)
    (part_types : string) (trace_typewise : bool) : coro FpMockupSystem dict :=
  async_with_lock (
    self ← get;
    (* Check system status. *)
    if negb (ready (status self)) then
      mret [("PartIDsOfDuplicates", VStr "")]
    else
      (* Acquire image delay simulation. *)
      status_update ACQUIRING_IMAGE RESULT_UNDEFINED NO_ERROR "trace_part";;
      sleep (duration "trace_part" / 1000 * (4 # 10));;
      status_update COMMAND_RUNNING RESULT_UNDEFINED NO_ERROR "trace_part";;
      let batch_id_list := split_names batch_ids in
      let part_type_list := split_names part_types in
      let ref_db_name_list := split_names ref_database_names in
      (* Collect the databases to search in, keeping the assigned order. *)
      let ref_db_name_list := append_if_absent ref_db_name_list database_name in
      self ← get;
      let ref_db_name_list :=
        if trace_all_databases
        then fold_left append_if_absent (dict_keys (fp_databases self))
                       ref_db_name_list
        else ref_db_name_list in
      let fits (fp_entry : FpDatabaseEntry) : bool :=
        negb ((trace_batchwise
               && negb (bool_decide (batch_id fp_entry ∈ batch_id_list)))
              || (trace_typewise
                  && negb (bool_decide (part_type fp_entry ∈ part_type_list))))
      in
      match first_candidates (fp_databases self) fits ref_db_name_list with
      | None =>
          (* In none of the visited databases a fitting entry was found. *)
          sleep (duration "trace_part" / 1000 * (6 # 10));;
          status_update SYSTEM_READY RESULT_READY NO_ERROR "";;
          mret [ ("ServiceExecutionResult", VInt 0);
                 ("PartID", VStr ""); ("BatchID", VStr "");
                 ("PartType", VStr "");
                 ("CurrentConfidenceValue1", VInt 0);
                 ("CurrentConfidenceValue2", VInt 0);
                 ("AverageConfidenceValue1", VInt 0);
                 ("AverageConfidenceValue2", VInt 0) ]
      | Some (ref_db_name, candidates) =>
          x ← randint 0 (Z.of_nat (length candidates) - 1);
          match candidates !! Z.to_nat x with
          | None => mret []   (* not reached: [x] indexes [candidates] *)
          | Some fp_entry =>
              (* Move the entry found to the target database. *)
              modify (fun self =>
                let dbs := fp_databases self in
                let ref_db := default [] (dict_get ref_db_name dbs) in
                let dbs := dict_set ref_db_name (set_remove fp_entry ref_db) dbs in
                let dbs :=
                  match dict_get database_name dbs with
                  | Some target => dict_set database_name (set_add fp_entry target) dbs
                  | None => dict_set database_name (set_add fp_entry []) dbs
                  end in
                with_fp_databases dbs self);;
              sleep (duration "trace_part" / 1000 * (6 # 10));;
              status_update SYSTEM_READY RESULT_READY NO_ERROR "";;
              mret [ ("ServiceExecutionResult", VInt 0);
                     ("PartID", VStr (part_id fp_entry));
                     ("BatchID", VStr (batch_id fp_entry));
                     ("PartType", VStr (part_type fp_entry));
                     ("CurrentConfidenceValue1", VInt 99);
                     ("CurrentConfidenceValue2", VInt 100);
                     ("AverageConfidenceValue1", VInt 97);
                     ("AverageConfidenceValue2", VInt 98) ]
          end
      end).

End Mockup.

(** ** The dispatch layer, [fp_opcua_server.py] *)

(** A method object of the backend.  A plain [def] runs when it is called; an
    [async def] only builds a coroutine when called and runs when that is
    awaited.  The function is the effect of the whole body on the backend. *)
Inductive pycallable (B : Type) : Type :=
| Def (f : list value -> B -> result pyret * B)
| AsyncDef (f : list value -> B -> result pyret * B).
Arguments Def {B} f.
Arguments AsyncDef {B} f.

(** The capability contract of a backend: attribute lookup by name and the
    status snapshot [_get_status()]. *)
Class FpSystem (B : Type) : Type := {
  fp_getattr : string -> option (pycallable B);
  fp_get_status : B -> dict
}.

(** A call of [func] with the arguments unpacked. *)
Definition py_call {B} (f : pycallable B) (args : list value) (b : B) :
    result pyret * B :=
  match f with
  | Def f => f args b
  | AsyncDef _ => (Ok RetObject, b)
  end.

(** [await] on such a call. *)
Definition py_await_call {B} (f : pycallable B) (args : list value) (b : B) :
    result pyret * B :=
  match f with
  | AsyncDef f => f args b
  | Def f =>
      match f args b with
      | (Ok _, b') => (Exc (TypeError "object can't be used in 'await' expression"), b')
      | (Exc e, b') => (Exc e, b')
      end
  end.

(** Structure types of the protocol engine and their instances.  A type is
    known by its name and declared fields; an instance is built from keyword
    arguments, which must all be declared fields. *)
Record DataType : Type := mkDataType {
  dt_name : string;
  dt_fields : list string
}.

Record ExtObject : Type := mkExtObject {
  eo_type : string;
  eo_kwargs : dict
}.

Definition construct (T : DataType) (kwargs : dict) : result ExtObject :=
  if forallb (fun k => bool_decide (k ∈ dt_fields T)) (dict_keys kwargs)
  then Ok (mkExtObject (dt_name T) kwargs)
  else Exc (TypeError "unexpected keyword argument").

Inductive VariantType : Type := SByte | String_ | ExtensionObject.

(** [ua.Variant(obj, ua.VariantType.ExtensionObject)], the reply of a handler. *)
Inductive reply : Type :=
| Variant (obj : ExtObject) (t : VariantType).

(** An event generator of the protocol engine, the object that
    [server.get_event_generator] hands out: the attributes set on the
    generator object itself, and the event object it sends
    ([event_gen.event]), with the event's type and its fields.
    [setattr(event_gen, ..)] sets an attribute of the generator object; the
    event object is another object and is not touched by it. *)
Record EventGen : Type := mkEventGen {
  eg_event_type : string;
  eg_attrs : dict;
  eg_event : dict
}.

(** The names the generator object has by itself and that [trigger] works
    with: the method, the event object and the session. *)
Definition generator_names : list string := ["trigger"; "event"; "isession"].

(** No attribute set on the generator object hides one of them. *)
Definition intact (attrs : dict) : bool :=
  forallb (fun k => negb (bool_decide (k ∈ generator_names))) (dict_keys attrs).

Inductive log_level : Type := DEBUG | INFO | WARNING | ERROR.

Inductive log_msg : Type :=
| NoMethodFound (method service : string)
| NeitherEventNorDataType (service : string)
| GeneralDataTypeNotFound (service : string)
| SpecificDataTypeNotFound (type_name service : string)
| CouldNotLink (service method : string)
| LinkedService (service method : string)
| RequestReceived (service : string) (returns_async : bool) (args : list value)
| NoPriorInfoMethod (service : string)
| NotPartOfInterface (name : string) (val : value).

(** The closure [service_responding_func] that [make_it_service_responding]
    builds: the variables it captures. *)
Record Handler (B : Type) : Type := mkHandler {
  h_service_name : string;
  h_func : pycallable B;
  h_func_prior_info : option (pycallable B);
  h_immediate_result_datatype : DataType;
  h_returns_async : bool
}.
Arguments mkHandler {B}.
Arguments h_service_name {B}.
Arguments h_func {B}.
Arguments h_func_prior_info {B}.
Arguments h_immediate_result_datatype {B}.
Arguments h_returns_async {B}.

(** Coroutines handed to the event loop. *)
Inductive coroutine (B : Type) : Type :=
| EventTriggeringFunc (func : pycallable B) (service_name : string)
    (args : list value)
| PeriodicStateUpdate (interval : Q).
Arguments EventTriggeringFunc {B}.
Arguments PeriodicStateUpdate {B}.

Inductive done_callback : Type := TasksRunningDiscard.

Inductive task_state : Type :=
| Pending
| Finished (r : result unit).

Record Task (B : Type) : Type := mkTask {
  t_coro : coroutine B;
  t_state : task_state;
  t_callbacks : list done_callback
}.
Arguments mkTask {B}.
Arguments t_coro {B}.
Arguments t_state {B}.
Arguments t_callbacks {B}.

(** The server object, the backend bound to it, and the part of the protocol
    engine and of the event loop it acts on. *)
Record FpOpcuaServer (B : Type) : Type := mkServer {
  fp_system : B;
  variables : gmap string nat;            (* state variable name -> node *)
  event_gens : gmap string EventGen;
  tasks_running : gset nat;
  loaded_type_definitions : gmap string DataType;
  service_backends : gmap string (Handler B);  (* [service_backend_*] attributes *)
  (* protocol engine *)
  linked_methods : gmap string (Handler B);    (* service -> callback *)
  attribute_values : gmap nat (value * VariantType);
  events_emitted : list (string * dict);
  (* event loop *)
  loop_tasks : gmap nat (Task B);
  (* FpOpcuaLogger *)
  log : list (log_level * log_msg)
}.
Arguments mkServer {B}.
Arguments fp_system {B}.
Arguments variables {B}.
Arguments event_gens {B}.
Arguments tasks_running {B}.
Arguments loaded_type_definitions {B}.
Arguments service_backends {B}.
Arguments linked_methods {B}.
Arguments attribute_values {B}.
Arguments events_emitted {B}.
Arguments loop_tasks {B}.
Arguments log {B}.

(** [FpOpcuaServer()] followed by [bind_sensor(fp_system)]. *)
Definition new_server {B} (b : B) : FpOpcuaServer B :=
  mkServer b ∅ ∅ ∅ ∅ ∅ ∅ ∅ [] ∅ [].

Section Setters.
Context {B : Type}.

Definition set_fp_system (b : B) (st : FpOpcuaServer B) : FpOpcuaServer B :=
  mkServer b (variables st) (event_gens st) (tasks_running st)
    (loaded_type_definitions st) (service_backends st) (linked_methods st)
    (attribute_values st) (events_emitted st) (loop_tasks st) (log st).

Definition set_event_gens (g : gmap string EventGen) (st : FpOpcuaServer B) :
    FpOpcuaServer B :=
  mkServer (fp_system st) (variables st) g (tasks_running st)
    (loaded_type_definitions st) (service_backends st) (linked_methods st)
    (attribute_values st) (events_emitted st) (loop_tasks st) (log st).

Definition set_tasks_running (ts : gset nat) (st : FpOpcuaServer B) :
    FpOpcuaServer B :=
  mkServer (fp_system st) (variables st) (event_gens st) ts
    (loaded_type_definitions st) (service_backends st) (linked_methods st)
    (attribute_values st) (events_emitted st) (loop_tasks st) (log st).

Definition set_service_backends (m : gmap string (Handler B))
    (st : FpOpcuaServer B) : FpOpcuaServer B :=
  mkServer (fp_system st) (variables st) (event_gens st) (tasks_running st)
    (loaded_type_definitions st) m (linked_methods st)
    (attribute_values st) (events_emitted st) (loop_tasks st) (log st).

Definition set_linked_methods (m : gmap string (Handler B))
    (st : FpOpcuaServer B) : FpOpcuaServer B :=
  mkServer (fp_system st) (variables st) (event_gens st) (tasks_running st)
    (loaded_type_definitions st) (service_backends st) m
    (attribute_values st) (events_emitted st) (loop_tasks st) (log st).

Definition set_attribute_values (m : gmap nat (value * VariantType))
    (st : FpOpcuaServer B) : FpOpcuaServer B :=
  mkServer (fp_system st) (variables st) (event_gens st) (tasks_running st)
    (loaded_type_definitions st) (service_backends st) (linked_methods st)
    m (events_emitted st) (loop_tasks st) (log st).

Definition set_events_emitted (es : list (string * dict))
    (st : FpOpcuaServer B) : FpOpcuaServer B :=
  mkServer (fp_system st) (variables st) (event_gens st) (tasks_running st)
    (loaded_type_definitions st) (service_backends st) (linked_methods st)
    (attribute_values st) es (loop_tasks st) (log st).

Definition set_loop_tasks (m : gmap nat (Task B)) (st : FpOpcuaServer B) :
    FpOpcuaServer B :=
  mkServer (fp_system st) (variables st) (event_gens st) (tasks_running st)
    (loaded_type_definitions st) (service_backends st) (linked_methods st)
    (attribute_values st) (events_emitted st) m (log st).

Definition add_log (lvl : log_level) (msg : log_msg) (st : FpOpcuaServer B) :
    FpOpcuaServer B :=
  mkServer (fp_system st) (variables st) (event_gens st) (tasks_running st)
    (loaded_type_definitions st) (service_backends st) (linked_methods st)
    (attribute_values st) (events_emitted st) (loop_tasks st)
    (log st ++ [(lvl, msg)]).

End Setters.

(** Actions of the server: they change the server state and end with a value
    or with a raised exception. *)
Definition Act (B A : Type) : Type :=
  FpOpcuaServer B -> result A * FpOpcuaServer B.

#[global] Instance act_ret {B} : MRet (Act B) := fun A a st => (Ok a, st).
#[global] Instance act_bind {B} : MBind (Act B) :=
  fun A C f m st =>
    match m st with
    | (Ok a, st') => f a st'
    | (Exc e, st') => (Exc e, st')
    end.

Definition raise {B A} (e : exn) : Act B A := fun st => (Exc e, st).

Definition lift_result {B A} (r : result A) : Act B A := fun st => (r, st).

(** [try: body finally: fin] *)
Definition try_finally {B A} (body : Act B A) (fin : Act B unit) : Act B A :=
  fun st =>
    let '(r, st1) := body st in
    match fin st1 with
    | (Ok _, st2) => (r, st2)
    | (Exc e, st2) => (Exc e, st2)
    end.

Definition logger {B} (lvl : log_level) (msg : log_msg) : Act B unit :=
  fun st => (Ok tt, add_log lvl msg st).

Section Server.
Context {B : Type} `{FpSystem B}.

(** A call into the backend bound to the server. *)
Definition backend_call
    (how : pycallable B -> list value -> B -> result pyret * B)
    (f : pycallable B) (args : list value) : Act B pyret :=
  fun st => let '(r, b') := how f args (fp_system st) in (r, set_fp_system b' st).

(** [await self.fp_system._get_status()] *)
Definition read_status : Act B dict :=
  fun st => (Ok (fp_get_status (fp_system st)), st).

(** [await self.server.write_attribute_value(self.variables[name].nodeid, v)] *)
Definition write_attribute_value (name : string) (v : value * VariantType) :
    Act B unit :=
  fun st =>
    match variables st !! name with
    | None => (Exc (KeyError name), st)
    | Some node =>
        (Ok tt, set_attribute_values (<[node := v]> (attribute_values st)) st)
    end.

(** [update_state]: the second membership test is against the string
    ['CurrentCommand'] itself, hence a substring test. *)
Fixpoint update_state (status : dict) : Act B unit :=
  match status with
  | [] => mret tt
  | (state_var_name, val) :: rest =>
      if bool_decide (state_var_name ∈ ["RunState"; "ResultState"; "ErrorType"])
      then write_attribute_value state_var_name (val, SByte);;
           update_state rest
      else if PyStr.is_substring state_var_name "CurrentCommand"
      then write_attribute_value state_var_name (val, String_);;
           update_state rest
      else update_state rest
  end.

(** [await self.update_state(await self.fp_system._get_status())] *)
Definition publish_status : Act B unit :=
  status ← read_status; update_state status.

(** *** Event loop and task registry *)

(** [event_loop.create_task(coro)] *)
Definition create_task (c : coroutine B) : Act B nat :=
  fun st =>
    let task := fresh (dom (loop_tasks st)) in
    (Ok task, set_loop_tasks (<[task := mkTask c Pending []]> (loop_tasks st)) st).

(** [task.add_done_callback(cb)] *)
Definition add_done_callback (task : nat) (cb : done_callback) : Act B unit :=
  fun st =>
    (Ok tt,
     set_loop_tasks
       (alter (fun t => mkTask (t_coro t) (t_state t) (t_callbacks t ++ [cb]))
              task (loop_tasks st)) st).

(** [self.tasks_running.add(task)] *)
Definition tasks_running_add (task : nat) : Act B unit :=
  fun st => (Ok tt, set_tasks_running ({[task]} ∪ tasks_running st) st).

(** [self.tasks_running.discard(task)] *)
Definition tasks_running_discard (task : nat) (st : FpOpcuaServer B) :
    FpOpcuaServer B :=
  set_tasks_running (tasks_running st ∖ {[task]}) st.

(** *** [make_it_service_responding] *)

(** [make_it_event_triggering(func, event_gen)]: the coroutine function
    whose calls the event loop runs as [event_triggering_func] below; the
    generator is the one stored for the service. *)
Definition make_it_event_triggering (func : pycallable B)
    (service_name : string) : list value -> coroutine B :=
  fun input_args => EventTriggeringFunc func service_name input_args.

(** [make_it_service_responding(service_name, func, func_prior_info,
    immediate_result_datatype, returns_async)]: the handler, as the values
    its closure captures; [service_responding_func] below runs it. *)
Definition make_it_service_responding (service_name : string)
    (func : pycallable B) (func_prior_info : option (pycallable B))
    (immediate_result_datatype : DataType) (returns_async : bool) : Handler B :=
  mkHandler service_name func func_prior_info immediate_result_datatype
            returns_async.

Definition default_prior_info : dict :=
  [ ("ExpectedServiceExecutionDuration", VFloat (-1));
    ("ServiceTriggerResult", VInt 1);
    ("ServiceResultMessage", VStr "");
    ("ServiceResultCode", VInt 1) ].

(** [dict(obj)] and keyword unpacking of [obj] both need a mapping. *)
Definition as_mapping (r : pyret) : Act B dict :=
  match r with
  | RetDict d => mret d
  | RetObject => raise (TypeError "object is not a mapping")
  end.

(** "Get prior info": the estimator's fields, or [without] when the backend
    has no estimator for the service. *)
Definition get_prior_info (h : Handler B) (input_args : list value)
    (without : dict) : Act B dict :=
  match h_func_prior_info h with
  | None =>
      logger WARNING (NoPriorInfoMethod (h_service_name h));;
      mret without
  | Some func_prior_info =>
      r ← backend_call py_call func_prior_info input_args;
      as_mapping r
  end.

(** [self.event_gens[service_name]] *)
Definition lookup_event_gen (service_name : string) : Act B EventGen :=
  fun st =>
    match event_gens st !! service_name with
    | Some g => (Ok g, st)
    | None => (Exc (KeyError service_name), st)
    end.

(** The handler built for a service that returns delayed. *)
Definition service_responding_func_async (h : Handler B)
    (input_args : list value) : Act B reply :=
  logger INFO (RequestReceived (h_service_name h) true input_args);;
  (* Get prior info. *)
  prior_info ← get_prior_info h input_args default_prior_info;
  (* Make the func event triggering and hand it to the event loop. *)
  _ ← lookup_event_gen (h_service_name h);
  let event_triggering_func :=
    make_it_event_triggering (h_func h) (h_service_name h) in
  task ← create_task (event_triggering_func input_args);
  tasks_running_add task;;
  add_done_callback task TasksRunningDiscard;;
  publish_status;;
  (* Immediately return the prior info. *)
  immediate_result ←
    lift_result (construct (h_immediate_result_datatype h) prior_info);
  mret (Variant immediate_result ExtensionObject).

(** The handler built for a service that returns immediately. *)
Definition service_responding_func_sync (h : Handler B)
    (input_args : list value) : Act B reply :=
  logger INFO (RequestReceived (h_service_name h) false input_args);;
  (* Get prior info. *)
  prior_info ← get_prior_info h input_args [];
  (* Call the sync returning func. *)
  sync_results ← backend_call py_call (h_func h) input_args;
  kwargs ← as_mapping sync_results;
  let prior_info := dict_update prior_info kwargs in
  publish_status;;
  immediate_result ←
    lift_result (construct (h_immediate_result_datatype h) kwargs);
  mret (Variant immediate_result ExtensionObject).

Definition service_responding_func (h : Handler B) (input_args : list value) :
    Act B reply :=
  if h_returns_async h then service_responding_func_async h input_args
  else service_responding_func_sync h input_args.

(** *** [make_it_event_triggering] *)

(** [setattr(event_gen, name, val)] on the generator of the service: the
    generator is a plain object, which takes an attribute of any name. *)
Definition event_gen_setattr (service_name name : string) (val : value) :
    Act B unit :=
  fun st =>
    (Ok tt,
     set_event_gens
       (alter (fun g => mkEventGen (eg_event_type g)
                          (dict_set name val (eg_attrs g)) (eg_event g))
              service_name (event_gens st)) st).

(** The loop over [res.items()].  [setattr] does not raise, so the [except]
    branch with its log entry is never entered. *)
Fixpoint fill_event (service_name : string) (items : dict) : Act B unit :=
  match items with
  | [] => mret tt
  | (name, val) :: rest =>
      event_gen_setattr service_name name val;;
      fill_event service_name rest
  end.

(** [await event_gen.trigger()]: the generator sends its event object,
    [event_gen.event], as it is; the attributes set on the generator are no
    part of it.  (The identifier and the times that [trigger] stamps on the
    event are left out.)  An attribute set under the name [trigger] hides
    the method, so the call fails; one set under the name [event] or
    [isession] has put a value that is no event or no session where the
    method looks for one. *)
Definition trigger (service_name : string) : Act B unit :=
  g ← lookup_event_gen service_name;
  if intact (eg_attrs g) then
    ((fun st =>
        (Ok tt,
         set_events_emitted
           (events_emitted st ++ [(eg_event_type g, eg_event g)]) st))
     : Act B unit)
  else if bool_decide ("trigger" ∈ dict_keys (eg_attrs g))
  then raise (TypeError "object is not callable")
  else if bool_decide ("event" ∈ dict_keys (eg_attrs g))
  then raise (AttributeError "EventId")
  else raise (AttributeError "subscription_service").

(** [res.items()] *)
Definition items_of (res : pyret) : Act B dict :=
  match res with
  | RetDict d => mret d
  | RetObject => raise (AttributeError "items")
  end.

(** The [else] block of [event_triggering_func]: the completion event for
    a result [res]. *)
Definition emit_completion (service_name : string) (res : pyret) : Act B unit :=
  event_gen_setattr service_name "ServiceExecutionResult" (VInt 0);;
  items ← items_of res;
  fill_event service_name items;;
  (* Triggering the event generator means emitting the event. *)
  trigger service_name.

(** The [try] statement of [event_triggering_func] without its [finally]. *)
Definition event_triggering_body (func : pycallable B) (service_name : string)
    (input_args : list value) : Act B unit :=
  fun st =>
    match backend_call py_await_call func input_args st with
    | (Exc e, st') =>
        (* except Exception as e: raise e -- the assignment
           [event_gen.ServiceExecutionResult = 1] that follows the raise is
           not reached *)
        (Exc e, st')
    | (Ok res, st') => emit_completion service_name res st'
    end.

Definition event_triggering_func (func : pycallable B) (service_name : string)
    (input_args : list value) : Act B unit :=
  try_finally (event_triggering_body func service_name input_args)
              publish_status.

(** A done callback, called with the task. *)
Definition run_done_callback (task : nat) (cb : done_callback)
    (st : FpOpcuaServer B) : FpOpcuaServer B :=
  match cb with
  | TasksRunningDiscard => tasks_running_discard task st
  end.

(** The event loop finishes a task: the outcome is stored, and the done
    callbacks are handed to the loop with [call_soon].  They do not run
    now: [t_callbacks] holds them until a later iteration of the loop. *)
Definition finish_task (task : nat) (r : result unit) (st : FpOpcuaServer B) :
    FpOpcuaServer B :=
  match loop_tasks st !! task with
  | None => st
  | Some t =>
      set_loop_tasks
        (<[task := mkTask (t_coro t) (Finished r) (t_callbacks t)]>
           (loop_tasks st)) st
  end.

(** A later iteration of the event loop runs the done callbacks of a
    finished task, once. *)
Definition loop_run_callbacks (task : nat) (st : FpOpcuaServer B) :
    option (FpOpcuaServer B) :=
  match loop_tasks st !! task with
  | Some (mkTask c (Finished r) (cb :: cbs)) =>
      Some (fold_left (fun st cb => run_done_callback task cb st) (cb :: cbs)
              (set_loop_tasks
                 (<[task := mkTask c (Finished r) []]> (loop_tasks st)) st))
  | _ => None
  end.

(** The event loop runs a pending task: a background execution to its end,
    or one round of the periodic publisher, which only ends when a round
    raises. *)
Definition loop_run_task (task : nat) (st : FpOpcuaServer B) :
    option (FpOpcuaServer B) :=
  match loop_tasks st !! task with
  | Some (mkTask (EventTriggeringFunc func service_name input_args) Pending _) =>
      let '(r, st') := event_triggering_func func service_name input_args st in
      Some (finish_task task r st')
  | Some (mkTask (PeriodicStateUpdate _) Pending _) =>
      match publish_status st with
      | (Ok _, st') => Some st'
      | (Exc e, st') => Some (finish_task task (Exc e) st')
      end
  | _ => None
  end.

(** [init_threads] *)
Definition init_threads : Act B unit :=
  task ← create_task (PeriodicStateUpdate (25 # 100));
  tasks_running_add task;;
  add_done_callback task TasksRunningDiscard.

(** *** [link_services] *)

(** What the loaded nodesets and the protocol engine answer during linking:
    the method nodes below [Services] in order, the event types below
    [ServiceFinishedEventType], the data types below
    [ServiceExecutionSyncResultDataType], the browse name of
    [ServiceExecutionAsyncResultDataType], the fields, with their initial
    values, of the event object that [server.get_event_generator] builds for
    each event type, and whether [server.link_method] accepts a service
    node. *)
Record AddressSpace : Type := mkAddressSpace {
  service_nodes : list string;
  service_finished_event_types : gset string;
  sync_result_data_types : gset string;
  async_result_type_name : string;
  event_fields : string -> dict;
  link_method_ok : string -> bool
}.

(** The loop over the services.  [continue] goes on with the rest of the
    list, [return] ends the loop. *)
Fixpoint link_services_loop (asp : AddressSpace) (nodes : list string)
    (st : FpOpcuaServer B) : FpOpcuaServer B :=
  match nodes with
  | [] => st
  | service_name :: rest =>
      (* Ignore services handled by the SWAP-IT architecture. *)
      if bool_decide (service_name ∈ ["register"; "unregister"])
      then link_services_loop asp rest st
      else
        let fp_system_method_name := camel_to_snake service_name in
        match fp_getattr fp_system_method_name with
        | None =>
            link_services_loop asp rest
              (add_log ERROR (NoMethodFound fp_system_method_name service_name) st)
        | Some fp_system_func =>
            let fp_system_prior_info_func :=
              fp_getattr (fp_system_method_name +:+ "_prior_info") in
            (* the wrapped func is stored and linked *)
            let link (result_type : DataType) (returns_async : bool)
                     (st : FpOpcuaServer B) : FpOpcuaServer B :=
              let backend_method :=
                make_it_service_responding service_name fp_system_func
                  fp_system_prior_info_func result_type returns_async in
              let backend_method_name :=
                "service_backend_" +:+ camel_to_snake service_name in
              let st :=
                set_service_backends
                  (<[backend_method_name := backend_method]> (service_backends st))
                  st in
              if link_method_ok asp service_name
              then
                link_services_loop asp rest
                  (add_log INFO (LinkedService service_name backend_method_name)
                     (set_linked_methods
                        (<[service_name := backend_method]> (linked_methods st))
                        st))
              else add_log ERROR (CouldNotLink service_name backend_method_name) st
            in
            let event_type_name := service_name +:+ "ServiceFinishedEventType" in
            let sync_type_name :=
              service_name +:+ "ServiceExecutionSyncResultDataType" in
            if bool_decide (event_type_name ∈ service_finished_event_types asp)
            then
              (* returns delayed *)
              let st :=
                set_event_gens
                  (<[service_name :=
                       mkEventGen event_type_name [] (event_fields asp event_type_name)]>
                     (event_gens st)) st in
              match loaded_type_definitions st !! async_result_type_name asp with
              | None =>
                  link_services_loop asp rest
                    (add_log ERROR (GeneralDataTypeNotFound service_name) st)
              | Some result_type => link result_type true st
              end
            else if bool_decide (sync_type_name ∈ sync_result_data_types asp)
            then
              (* returns immediately *)
              match loaded_type_definitions st !! sync_type_name with
              | None =>
                  link_services_loop asp rest
                    (add_log WARNING
                       (SpecificDataTypeNotFound sync_type_name service_name) st)
              | Some result_type => link result_type false st
              end
            else
              link_services_loop asp rest
                (add_log ERROR (NeitherEventNorDataType service_name) st)
        end
  end.

Definition link_services (asp : AddressSpace) (st : FpOpcuaServer B) :
    FpOpcuaServer B :=
  link_services_loop asp (service_nodes asp) st.

(** *** What can happen to a running server

    The threads are started, a handler is called (whatever it ends with),
    the event loop runs a pending task, or it runs the done callbacks of a
    finished one.  A handler call is one step: the only
    awaits inside a handler are the status publication, which comes after
    the task was created, registered and given its callback.  A background
    execution is one step as well; the backend's lock serializes the
    mutating methods within it. *)

Inductive server_step : FpOpcuaServer B -> FpOpcuaServer B -> Prop :=
| step_init_threads st :
    server_step st (snd (init_threads st))
| step_service_call h input_args st :
    server_step st (snd (service_responding_func h input_args st))
| step_loop_run task st st' :
    loop_run_task task st = Some st' ->
    server_step st st'
| step_loop_callbacks task st st' :
    loop_run_callbacks task st = Some st' ->
    server_step st st'.

Inductive server_steps : FpOpcuaServer B -> FpOpcuaServer B -> Prop :=
| server_steps_refl st : server_steps st st
| server_steps_step st1 st2 st3 :
    server_steps st1 st2 -> server_step st2 st3 -> server_steps st1 st3.

(** Reachable: from a server on which no task was created yet. *)
Definition reachable (st : FpOpcuaServer B) : Prop :=
  exists st0, tasks_running st0 = ∅ /\ loop_tasks st0 = ∅ /\ server_steps st0 st.

(** The handles of async dispatches the event loop knows, and those whose
    background execution is complete ([task.done()]). *)
Definition is_dispatch (t : Task B) : bool :=
  match t_coro t with EventTriggeringFunc _ _ _ => true | _ => false end.

Definition is_finished (t : Task B) : bool :=
  match t_state t with Finished _ => true | Pending => false end.

Definition dispatched (st : FpOpcuaServer B) : gset nat :=
  dom (filter (fun kt => is_dispatch kt.2 = true) (loop_tasks st)).

Definition completed (st : FpOpcuaServer B) : gset nat :=
  dom (filter (fun kt => is_dispatch kt.2 = true /\ is_finished kt.2 = true)
              (loop_tasks st)).

(** The done callbacks of a task have run (or it never had one). *)
Definition callbacks_run (t : Task B) : bool :=
  match t_callbacks t with [] => true | _ :: _ => false end.

(** The handles of async dispatches whose done callbacks have run, and the
    handles of publishers whose callbacks have not. *)
Definition released (st : FpOpcuaServer B) : gset nat :=
  dom (filter (fun kt => is_dispatch kt.2 = true /\ callbacks_run kt.2 = true)
              (loop_tasks st)).

Definition publishers_registered (st : FpOpcuaServer B) : gset nat :=
  dom (filter (fun kt => is_dispatch kt.2 = false /\ callbacks_run kt.2 = false)
              (loop_tasks st)).

End Server.

(** ** The simulated backend behind the capability contract *)

Module MockupBinding.
Import Mockup.

Section Binding.
(** [rnd] answers [randint]; [FpStatus_reset] is [FpStatus.reset()]. *)
Variable rnd : Z -> Z -> Z.
Variable FpStatus_reset : FpStatus -> FpStatus.

Definition wrong_arguments : exn := TypeError "wrong arguments".

(** An awaited coroutine method, as one effect on the backend. *)
Definition awaited {A} (c : coro FpMockupSystem A) (ret : A -> pyret)
    (self : FpMockupSystem) : result pyret * FpMockupSystem :=
  let '(r, self', _) := run rnd c self in (Ok (ret r), self').

Definition estimator (f : list value -> dict) : pycallable FpMockupSystem :=
  Def (fun args self => (Ok (RetDict (f args)), self)).

(** An attribute that is no method: a call of it raises. *)
Definition not_callable : pycallable FpMockupSystem :=
  Def (fun _ self => (Exc (TypeError "object is not callable"), self)).

(** [_sync_success_prior_info] *)
Definition _sync_success_prior_info : dict :=
  [ ("ServiceExecutionStatus", VInt 0);
    ("ServiceResultMessage", VStr "");
    ("ServiceResultCode", VInt 0) ].

(** [getattr(fp_system, name)]: the methods and the instance attributes of
    the class.  A call with a number of arguments the method does not take
    raises [TypeError] when it is made.  The methods are bound here to
    arguments of the types they work with (texts and booleans); what a call
    with other values does is not described, and such a call is answered
    like one with a wrong number of arguments.  The attributes every
    object has (their names start with two underscores) are left out;
    [camel_to_snake] gives no name that starts with an underscore. *)
Definition getattr (name : string) : option (pycallable FpMockupSystem) :=
  if String.eqb name "reset_system" then
    Some (AsyncDef (fun args self =>
      match args with
      | [] => awaited (reset_system FpStatus_reset) RetDict self
      | _ => (Exc wrong_arguments, self)
      end))
  else if String.eqb name "get_status" then
    Some (AsyncDef (fun args self =>
      match args with
      | [] => awaited get_status id self
      | _ => (Exc wrong_arguments, self)
      end))
  else if String.eqb name "set_image_matching_type" then
    Some (AsyncDef (fun args self =>
      match args with
      | [VStr image_matching_name] =>
          awaited (set_image_matching_type image_matching_name) RetDict self
      | _ => (Exc wrong_arguments, self)
      end))
  else if String.eqb name "add_part" then
    Some (AsyncDef (fun args self =>
      match args with
      | [VStr database_name; VBool check_id_duplicates;
         VBool check_fp_duplicates; VStr part_id; VStr batch_id;
         VStr part_type] =>
          awaited (add_part database_name check_id_duplicates
                     check_fp_duplicates part_id batch_id part_type)
                  RetDict self
      | _ => (Exc wrong_arguments, self)
      end))
  else if String.eqb name "trace_part" then
    Some (AsyncDef (fun args self =>
      match args with
      | [VStr database_name; VStr ref_database_names;
         VBool trace_all_databases; VStr batch_ids; VBool trace_batchwise;
         VStr part_types; VBool trace_typewise] =>
          awaited (trace_part database_name ref_database_names
                     trace_all_databases batch_ids trace_batchwise part_types
                     trace_typewise)
                  RetDict self
      | _ => (Exc wrong_arguments, self)
      end))
  else if String.eqb name "reset_system_prior_info" then
    Some (estimator reset_system_prior_info)
  else if String.eqb name "get_status_prior_info" then
    Some (estimator get_status_prior_info)
  else if String.eqb name "set_image_matching_type_prior_info" then
    Some (estimator set_image_matching_type_prior_info)
  else if String.eqb name "add_part_prior_info" then
    Some (estimator add_part_prior_info)
  else if String.eqb name "trace_part_prior_info" then
    Some (estimator trace_part_prior_info)
  else if String.eqb name "_get_status" then
    Some (AsyncDef (fun args self =>
      match args with
      | [] => (Ok (RetDict (_get_status self)), self)
      | _ => (Exc wrong_arguments, self)
      end))
  else if String.eqb name "_sync_success_prior_info" then
    Some (Def (fun args self =>
      match args with
      | [] => (Ok (RetDict _sync_success_prior_info), self)
      | _ => (Exc wrong_arguments, self)
      end))
  else if String.eqb name "_init_duration_estimations" then
    Some (Def (fun args self =>
      match args with
      | [] => (Ok RetObject, self)
      | _ => (Exc wrong_arguments, self)
      end))
  else if bool_decide (name ∈ ["status"; "image_matching"; "fp_databases";
                               "task_lock"; "duration_estimations"])
  then Some not_callable
  else None.

Definition fp_system_of : FpSystem FpMockupSystem :=
  {| fp_getattr := getattr; fp_get_status := _get_status |}.

End Binding.
End MockupBinding.

(** ** Example data *)

Module Examples.
Import Mockup.

(** A backend that is ready and free of errors, with no database yet. *)
Definition fresh_ready : FpMockupSystem :=
  mkMockup (mkFpStatus SYSTEM_READY RESULT_UNDEFINED NO_ERROR "") "default" [].

(** A backend left in the error state by a duplicate registration. *)
Definition after_duplicate : FpMockupSystem :=
  mkMockup (mkFpStatus SYSTEM_ERROR RESULT_READY ID_DUPLICATE_FOUND "")
    "default" [("DB1", [mkEntry "P1B1T1" "P1" "B1" "T1"])].

Definition no_choice : Z -> Z -> Z := fun lo _ => lo.

End Examples.

(** ** Critical sections *)

(** What is left of a body that runs under the lock: it never acquires, and
    it ends by releasing and returning. *)
Inductive in_cs {S R} : coro S R -> Prop :=
| in_cs_release r : in_cs (Release (Ret r))
| in_cs_get k : (forall s, in_cs (k s)) -> in_cs (Get k)
| in_cs_put s k : in_cs k -> in_cs (Put s k)
| in_cs_sleep q k : in_cs k -> in_cs (Sleep q k)
| in_cs_randint lo hi k : (forall x, in_cs (k x)) -> in_cs (Randint lo hi k).

(** A body that touches neither the lock nor the object's state. *)
Inductive read_only {S R} : coro S R -> Prop :=
| read_only_ret r : read_only (Ret r)
| read_only_get k : (forall s, read_only (k s)) -> read_only (Get k)
| read_only_sleep q k : read_only k -> read_only (Sleep q k)
| read_only_randint lo hi k :
    (forall x, read_only (k x)) -> read_only (Randint lo hi k).

(** A body without [Acquire] and [Release]. *)
Inductive lock_free {S R} : coro S R -> Prop :=
| lock_free_ret r : lock_free (Ret r)
| lock_free_get k : (forall s, lock_free (k s)) -> lock_free (Get k)
| lock_free_put s k : lock_free k -> lock_free (Put s k)
| lock_free_sleep q k : lock_free k -> lock_free (Sleep q k)
| lock_free_randint lo hi k :
    (forall x, lock_free (k x)) -> lock_free (Randint lo hi k).

(** A call that is not in its critical section: it waits for the lock with
    its whole body still to run, or it takes no lock at all. *)
Inductive outside_cs {S R} : coro S R -> Prop :=
| outside_waiting k : in_cs k -> outside_cs (Acquire k)
| outside_read_only c : read_only c -> outside_cs c.

(** At most one call is in its critical section. *)
Definition mutual_exclusion {S R} (p : pool S R) : Prop :=
  forall i j ci cj,
    tasks p !! i = Some ci -> tasks p !! j = Some cj ->
    in_cs ci -> in_cs cj -> i = j.

(** While call [i] is in its critical section, a step of any other call
    leaves the object, the lock and call [i] as they are. *)
Definition no_interleaving {S R} (p : pool S R) : Prop :=
  forall i ci j p',
    tasks p !! i = Some ci -> in_cs ci -> j <> i -> pool_step j p p' ->
    backend p' = backend p /\ locked p' = true /\ tasks p' !! i = Some ci.

(** The calls a controller can make on the simulated backend. *)
Inductive call : Type :=
| ResetSystem
| GetStatus
| SetImageMatchingType (image_matching_name : string)
| AddPart (database_name : string)
    (check_id_duplicates check_fp_duplicates : bool)
    (part_id batch_id part_type : string)
| TracePart (database_name ref_database_names : string)
    (trace_all_databases : bool) (batch_ids : string) (trace_batchwise : bool)
    (part_types : string) (trace_typewise : bool).

Definition is_mutating (c : call) : bool :=
  match c with GetStatus => false | _ => true end.

Definition program (FpStatus_reset : FpStatus -> FpStatus) (c : call) :
    coro Mockup.FpMockupSystem pyret :=
  match c with
  | ResetSystem => RetDict <$> Mockup.reset_system FpStatus_reset
  | GetStatus => Mockup.get_status
  | SetImageMatchingType name => RetDict <$> Mockup.set_image_matching_type name
  | AddPart db cid cfp p b t => RetDict <$> Mockup.add_part db cid cfp p b t
  | TracePart db refs all bs bw ts tw =>
      RetDict <$> Mockup.trace_part db refs all bs bw ts tw
  end.


Module LockExample.

(** Two calls handed to the event loop of a ready backend. *)
Definition two_calls : list call :=
  [AddPart "DB1" true false "P1" "B1" "T1"; ResetSystem].

Definition pool0 : pool Mockup.FpMockupSystem pyret :=
  mkPool Examples.fresh_ready false (map (program id) two_calls).

End LockExample.


(** ** Reading the outcome of linking *)

(** The server without its log. *)
Definition forget_log {B} (st : FpOpcuaServer B) : FpOpcuaServer B :=
  mkServer (fp_system st) (variables st) (event_gens st) (tasks_running st)
    (loaded_type_definitions st) (service_backends st) (linked_methods st)
    (attribute_values st) (events_emitted st) (loop_tasks st) [].

(** The ways one service can leave the loop body of [link_services]. *)
Inductive link_outcome : Type :=
| Ignored            (* [register] and [unregister] *)
| NoMethod           (* the backend has no method of the transformed name *)
| NoShape            (* neither the event type nor the sync data type exists *)
| NoTypeDefinition   (* the result type is not among the loaded definitions *)
| LinkRefused        (* [server.link_method] raised *)
| Linked.

(** The branch of the loop body a service takes, read off the conditions the
    body tests, in the order it tests them. *)
Definition link_outcome_of {B} `{FpSystem B} (asp : AddressSpace)
    (types : gmap string DataType) (service_name : string) : link_outcome :=
  if bool_decide (service_name ∈ ["register"; "unregister"]) then Ignored
  else
    match fp_getattr (camel_to_snake service_name) with
    | None => NoMethod
    | Some _ =>
        if bool_decide (service_name +:+ "ServiceFinishedEventType"
                        ∈ service_finished_event_types asp)
        then match types !! async_result_type_name asp with
             | None => NoTypeDefinition
             | Some _ => if link_method_ok asp service_name then Linked
                         else LinkRefused
             end
        else if bool_decide (service_name +:+ "ServiceExecutionSyncResultDataType"
                             ∈ sync_result_data_types asp)
        then match types !! (service_name +:+ "ServiceExecutionSyncResultDataType") with
             | None => NoTypeDefinition
             | Some _ => if link_method_ok asp service_name then Linked
                         else LinkRefused
             end
        else NoShape
    end.




(** ** Example interface *)

Module LinkExample.

(** The structure type of the immediate reply of delayed services. *)
Definition async_result_type : DataType :=
  mkDataType "ServiceExecutionAsyncResultDataType"
    [ "ExpectedServiceExecutionDuration"; "ServiceTriggerResult";
      "ServiceResultMessage"; "ServiceResultCode" ].

(** The fields of the finished events, none of them set. *)
Definition event_fields (event_type_name : string) : dict :=
  if String.eqb event_type_name "AddPartServiceFinishedEventType"
  then [ ("ServiceExecutionResult", VNone); ("PartIDsOfDuplicates", VNone) ]
  else if String.eqb event_type_name "TracePartServiceFinishedEventType"
  then [ ("ServiceExecutionResult", VNone);
         ("PartID", VNone); ("BatchID", VNone); ("PartType", VNone);
         ("CurrentConfidenceValue1", VNone); ("CurrentConfidenceValue2", VNone);
         ("AverageConfidenceValue1", VNone); ("AverageConfidenceValue2", VNone) ]
  else [ ("ServiceExecutionResult", VNone) ].

(** An interface with a service, [Calibrate], that the backend lacks. *)
Definition address_space : AddressSpace :=
  mkAddressSpace
    [ "register"; "ResetSystem"; "Calibrate"; "AddPart"; "TracePart" ]
    {[ "ResetSystemServiceFinishedEventType";
       "CalibrateServiceFinishedEventType";
       "AddPartServiceFinishedEventType";
       "TracePartServiceFinishedEventType" ]}
    ∅
    "ServiceExecutionAsyncResultDataType"
    event_fields
    (fun _ => true).

#[local] Instance backend : FpSystem Mockup.FpMockupSystem :=
  MockupBinding.fp_system_of Examples.no_choice id.

(** The server before linking: the backend bound, the state variables and
    type definitions loaded. *)
Definition server0 : FpOpcuaServer Mockup.FpMockupSystem :=
  mkServer Examples.fresh_ready
    {[ "RunState" := 1; "ResultState" := 2; "ErrorType" := 3;
       "CurrentCommand" := 4 ]}
    ∅ ∅
    {[ "ServiceExecutionAsyncResultDataType" := async_result_type ]}
    ∅ ∅ ∅ [] ∅ [].

Definition linked_server : FpOpcuaServer Mockup.FpMockupSystem :=
  link_services address_space server0.

(** The backend's method of a name. *)
Definition method (name : string) : pycallable Mockup.FpMockupSystem :=
  default (Def (fun _ self => (Exc (AttributeError name), self)))
          (fp_getattr name).

(** The handler linked for a service. *)
Definition handler (service_name : string) : Handler Mockup.FpMockupSystem :=
  default (mkHandler service_name (method (camel_to_snake service_name)) None
                     async_result_type true)
          (linked_methods linked_server !! service_name).

Definition add_part_args : list value :=
  [ VStr "DB1"; VBool true; VBool false; VStr "P1"; VStr "B1"; VStr "T1" ].

(** A handler for [AddPart] as it is built when the backend has no
    estimator for the service. *)
Definition handler_without_estimator : Handler Mockup.FpMockupSystem :=
  make_it_service_responding "AddPart" (method "add_part") None
    async_result_type true.

(** The linked server with its publisher started, then with one [AddPart]
    request accepted, then with that request's background execution run,
    then with the done callback of that task run. *)
Definition started_server : FpOpcuaServer Mockup.FpMockupSystem :=
  snd (init_threads linked_server).

Definition busy_server : FpOpcuaServer Mockup.FpMockupSystem :=
  snd (service_responding_func (handler "AddPart") add_part_args started_server).

Definition add_part_task : nat := fresh (dom (loop_tasks started_server)).

Definition idle_server : FpOpcuaServer Mockup.FpMockupSystem :=
  default busy_server (loop_run_task add_part_task busy_server).

Definition settled_server : FpOpcuaServer Mockup.FpMockupSystem :=
  default idle_server (loop_run_callbacks add_part_task idle_server).

End LinkExample.


(** ** Reading the published status *)

(** The variant type under which [update_state] writes a status entry, if it
    writes it at all. *)
Definition state_variable (name : string) : option VariantType :=
  if bool_decide (name ∈ ["RunState"; "ResultState"; "ErrorType"]) then Some SByte
  else if PyStr.is_substring name "CurrentCommand" then Some String_
  else None.

(** Every entry of the snapshot that [update_state] writes has its node among
    the state variables, and different entries have different nodes. *)
Definition status_variables_linked (vars : gmap string nat) (status : dict) :
    Prop :=
  NoDup (dict_keys status) /\
  Forall (fun k => is_Some (state_variable k) -> is_Some (vars !! k))
         (dict_keys status) /\
  Forall (fun k =>
            Forall (fun k' => is_Some (vars !! k) -> vars !! k = vars !! k' ->
                              k = k')
                   (dict_keys status))
         (dict_keys status).

#[global] Instance status_variables_linked_dec vars status :
  Decision (status_variables_linked vars status).
Proof. unfold status_variables_linked. apply _. Defined.

(** The attribute values after the snapshot is written. *)
Definition published (vars : gmap string nat) (status : dict)
    (attrs : gmap nat (value * VariantType)) : gmap nat (value * VariantType) :=
  fold_left
    (fun attrs kv =>
       match state_variable (fst kv), vars !! fst kv with
       | Some ty, Some node => <[node := (snd kv, ty)]> attrs
       | _, _ => attrs
       end)
    status attrs.

(** The protocol-facing state variables show the snapshot. *)
Definition shows_status {B} (st : FpOpcuaServer B) (status : dict) : Prop :=
  forall k v ty, (k, v) ∈ status -> state_variable k = Some ty ->
    exists node, variables st !! k = Some node /\
                 attribute_values st !! node = Some (v, ty).


(** An action leaves a component of the server as it is. *)
Definition keeps {B A X} (f : FpOpcuaServer B -> X) (a : Act B A) : Prop :=
  forall st r st', a st = (r, st') -> f st' = f st.


(** ** Reading a handler *)

(** The prior info a handler builds from its arguments and the backend the
    estimator leaves: the estimator's fields when the backend has one for the
    service, the default otherwise. *)
Definition estimates {B} (h : Handler B) (input_args : list value) (b : B)
    (without : dict) : option (dict * B) :=
  match h_func_prior_info h with
  | None => Some (without, b)
  | Some func_prior_info =>
      match py_call func_prior_info input_args b with
      | (Ok (RetDict d), b') => Some (d, b')
      | _ => None
      end
  end.

(** The same handler around another backend method. *)
Definition with_func {B} (func : pycallable B) (h : Handler B) : Handler B :=
  mkHandler (h_service_name h) func (h_func_prior_info h)
            (h_immediate_result_datatype h) (h_returns_async h).


(** ** Example backends for the two response modes *)

Module FaultyExample.

(** A backend whose [trace_part] raises while it runs. *)
Definition trace_part : pycallable FpStatus :=
  AsyncDef (fun _ status =>
    (Exc (Raised "image acquisition failed"),
     FpStatus_update SYSTEM_ERROR RESULT_UNDEFINED (ERROR_TYPE_OTHER 1) "" status)).

#[local] Instance backend : FpSystem FpStatus :=
  {| fp_getattr := fun name =>
       if String.eqb name "trace_part" then Some trace_part else None;
     fp_get_status := FpStatus_as_dict |}.

Definition address_space : AddressSpace :=
  mkAddressSpace [ "TracePart" ] {[ "TracePartServiceFinishedEventType" ]} ∅
    "ServiceExecutionAsyncResultDataType" LinkExample.event_fields
    (fun _ => true).

Definition server0 : FpOpcuaServer FpStatus :=
  mkServer (mkFpStatus SYSTEM_READY RESULT_UNDEFINED NO_ERROR "")
    {[ "RunState" := 1; "ResultState" := 2; "ErrorType" := 3;
       "CurrentCommand" := 4 ]}
    ∅ ∅
    {[ "ServiceExecutionAsyncResultDataType" := LinkExample.async_result_type ]}
    ∅ ∅ ∅ [] ∅ [].

Definition linked_server : FpOpcuaServer FpStatus :=
  link_services address_space server0.

Definition handler : Handler FpStatus :=
  mkHandler "TracePart" trace_part None LinkExample.async_result_type true.

Definition trace_part_args : list value :=
  [ VStr "DB2"; VStr "DB1"; VBool false; VStr ""; VBool false; VStr "";
    VBool false ].

End FaultyExample.

Module SyncExample.

(** A backend with a plain [get_status] and an estimator that answers with
    the fields of [_sync_success_prior_info]. *)
Definition get_status : pycallable FpStatus :=
  Def (fun _ status => (Ok (RetDict (FpStatus_as_dict status)), status)).

Definition sync_success_prior_info : dict :=
  [ ("ServiceExecutionStatus", VInt 0);
    ("ServiceResultMessage", VStr "");
    ("ServiceResultCode", VInt 0) ].

Definition get_status_prior_info : pycallable FpStatus :=
  Def (fun _ status => (Ok (RetDict sync_success_prior_info), status)).

#[local] Instance backend : FpSystem FpStatus :=
  {| fp_getattr := fun name =>
       if String.eqb name "get_status" then Some get_status
       else if String.eqb name "get_status_prior_info"
       then Some get_status_prior_info
       else None;
     fp_get_status := FpStatus_as_dict |}.

Definition sync_result_type : DataType :=
  mkDataType "GetStatusServiceExecutionSyncResultDataType"
    [ "ServiceExecutionStatus"; "ServiceResultMessage"; "ServiceResultCode";
      "RunState"; "ResultState"; "ErrorType"; "CurrentCommand" ].

Definition ready_status : FpStatus :=
  mkFpStatus SYSTEM_READY RESULT_UNDEFINED NO_ERROR "".

Definition server0 : FpOpcuaServer FpStatus :=
  mkServer ready_status
    {[ "RunState" := 1; "ResultState" := 2; "ErrorType" := 3;
       "CurrentCommand" := 4 ]}
    ∅ ∅
    {[ "GetStatusServiceExecutionSyncResultDataType" := sync_result_type ]}
    ∅ ∅ ∅ [] ∅ [].

Definition handler : Handler FpStatus :=
  mkHandler "GetStatus" get_status (Some get_status_prior_info)
            sync_result_type false.

(** The same service in front of the simulated backend, whose [get_status]
    is a coroutine function. *)
Definition mockup_handler : Handler Mockup.FpMockupSystem :=
  mkHandler "GetStatus" (LinkExample.method "get_status")
            (Some (LinkExample.method "get_status_prior_info"))
            sync_result_type false.

End SyncExample.


(** ** Reading the task registry *)

(** The registry and the tasks of the event loop, side by side. *)
Definition registry {B} (st : FpOpcuaServer B) : gmap nat (Task B) * gset nat :=
  (loop_tasks st, tasks_running st).

(** A task is created, registered and given its callback in one go. *)
Definition spawned {B} (c : coroutine B) (st st' : FpOpcuaServer B) : Prop :=
  let task := fresh (dom (loop_tasks st)) in
  loop_tasks st' = <[task := mkTask c Pending [TasksRunningDiscard]]> (loop_tasks st) /\
  tasks_running st' = {[task]} ∪ tasks_running st.

(** The event loop finishes a pending task; its callbacks wait. *)
Definition finished_at {B} (t : nat) (st st' : FpOpcuaServer B) : Prop :=
  exists task r,
    loop_tasks st !! t = Some task /\ t_state task = Pending /\
    loop_tasks st' =
      <[t := mkTask (t_coro task) (Finished r) (t_callbacks task)]> (loop_tasks st) /\
    tasks_running st' = tasks_running st.

(** The event loop runs the callbacks of a finished task. *)
Definition released_at {B} (t : nat) (st st' : FpOpcuaServer B) : Prop :=
  exists task r,
    loop_tasks st !! t = Some task /\ t_state task = Finished r /\
    t_callbacks task <> [] /\
    loop_tasks st' = <[t := mkTask (t_coro task) (Finished r) []]> (loop_tasks st) /\
    tasks_running st' =
      fold_left (fun s cb => match cb with TasksRunningDiscard => s ∖ {[t]} end)
                (t_callbacks task) (tasks_running st).

(** The registry holds exactly the handles of the tasks whose done callback
    has not run; each task carries the one callback that discards it until
    that callback runs, which is after the task has finished. *)
Definition registry_inv {B} (st : FpOpcuaServer B) : Prop :=
  (forall t, t ∈ tasks_running st <->
             exists task, loop_tasks st !! t = Some task /\
                          t_callbacks task = [TasksRunningDiscard]) /\
  (forall t task, loop_tasks st !! t = Some task ->
                  t_callbacks task = [TasksRunningDiscard] \/
                  (t_callbacks task = [] /\ is_finished task = true)).


Module PublishExample.

(** A snapshot with an entry, [Command], that no state variable carries. *)
Definition odd_status : dict :=
  [ ("RunState", VRunState SYSTEM_READY);
    ("Command", VStr "add_part");
    ("ResultState", VResultState RESULT_READY) ].

Definition ready_status : dict :=
  FpStatus_as_dict (mkFpStatus SYSTEM_READY RESULT_READY NO_ERROR "").

End PublishExample.


Module FailureExample.

(** A plain [get_status] that raises. *)
Definition failing_get_status : pycallable FpStatus :=
  Def (fun _ status => (Exc (Raised "device not reachable"), status)).

Definition failing_handler : Handler FpStatus :=
  mkHandler "GetStatus" failing_get_status
            (Some SyncExample.get_status_prior_info)
            SyncExample.sync_result_type false.

(** The linked server of the simulated backend without its state variables. *)
Definition no_variables_server : FpOpcuaServer Mockup.FpMockupSystem :=
  mkServer (fp_system LinkExample.linked_server) ∅
    (event_gens LinkExample.linked_server) ∅
    (loaded_type_definitions LinkExample.linked_server)
    (service_backends LinkExample.linked_server)
    (linked_methods LinkExample.linked_server) ∅ [] ∅ [].

End FailureExample.


(** ** Reading a completion event *)

(** The attributes of a generator object after the loop over a result's
    items. *)
Definition filled (items attrs : dict) : dict :=
  fold_left (fun a kv => dict_set (fst kv) (snd kv) a) items attrs.

(** The attributes the generator object [g] holds when it is triggered for
    the result [d]. *)
Definition completion_attrs (g : EventGen) (d : dict) : dict :=
  filled d (dict_set "ServiceExecutionResult" (VInt 0) (eg_attrs g)).

(** What a completion leaves of the generator [g]: the attributes are set,
    the event object is the one it was. *)
Definition completion_gen (g : EventGen) (d : dict) : EventGen :=
  mkEventGen (eg_event_type g) (completion_attrs g d) (eg_event g).


Module CompletionExample.

Definition trace_part_args : list value :=
  [ VStr "DB2"; VStr "DB1"; VBool false; VStr ""; VBool false; VStr "";
    VBool false ].

(** The background execution of a call, run on a server. *)
Definition background (method_name service_name : string) (args : list value)
    (st : FpOpcuaServer Mockup.FpMockupSystem) :
    FpOpcuaServer Mockup.FpMockupSystem :=
  snd (event_triggering_func (H := LinkExample.backend)
         (LinkExample.method method_name) service_name args st).

(** A part is registered, traced into [DB2], and registered again with the
    identifier check, which leaves the backend in the error state. *)
Definition after_add : FpOpcuaServer Mockup.FpMockupSystem :=
  background "add_part" "AddPart" LinkExample.add_part_args
             LinkExample.linked_server.

Definition after_trace : FpOpcuaServer Mockup.FpMockupSystem :=
  background "trace_part" "TracePart" trace_part_args after_add.

Definition after_second_add : FpOpcuaServer Mockup.FpMockupSystem :=
  background "add_part" "AddPart" LinkExample.add_part_args after_trace.

End CompletionExample.


(** ** Reading a linked handler *)

(** The handler stored for service [t] is the one the interface and the
    backend determine: the backend's method and estimator of the transformed
    name, delayed mode exactly when the finished-event type exists, and the
    result type of that mode from the loaded definitions. *)
Definition descriptor_of {B} `{FpSystem B} (asp : AddressSpace)
    (types : gmap string DataType) (t : string) (h : Handler B) : Prop :=
  (t ∉ ["register"; "unregister"]) /\
  h_service_name h = t /\
  fp_getattr (camel_to_snake t) = Some (h_func h) /\
  h_func_prior_info h = fp_getattr (camel_to_snake t +:+ "_prior_info") /\
  h_returns_async h
    = bool_decide (t +:+ "ServiceFinishedEventType"
                   ∈ service_finished_event_types asp) /\
  (h_returns_async h = false ->
   t +:+ "ServiceExecutionSyncResultDataType" ∈ sync_result_data_types asp) /\
  types !! (if h_returns_async h then async_result_type_name asp
            else t +:+ "ServiceExecutionSyncResultDataType")
    = Some (h_immediate_result_datatype h).


Module DescriptorExample.

(** An interface whose [ResetSystem] has both result shapes. *)
Definition both_shapes : AddressSpace :=
  mkAddressSpace
    [ "ResetSystem"; "AddPart" ]
    {[ "ResetSystemServiceFinishedEventType";
       "AddPartServiceFinishedEventType" ]}
    {[ "ResetSystemServiceExecutionSyncResultDataType" ]}
    "ServiceExecutionAsyncResultDataType"
    LinkExample.event_fields
    (fun _ => true).

(** The protocol engine refuses to link [ResetSystem]. *)
Definition refusing : AddressSpace :=
  mkAddressSpace
    [ "ResetSystem"; "AddPart" ]
    {[ "ResetSystemServiceFinishedEventType";
       "AddPartServiceFinishedEventType" ]}
    ∅
    "ServiceExecutionAsyncResultDataType"
    LinkExample.event_fields
    (fun n => negb (String.eqb n "ResetSystem")).

Definition reset_handler : Handler Mockup.FpMockupSystem :=
  mkHandler "ResetSystem" (LinkExample.method "reset_system")
            (Some (LinkExample.method "reset_system_prior_info"))
            LinkExample.async_result_type true.

End DescriptorExample.


(** ** Calls on the simulated backend, run to their end *)

(** The result and the object a call ends with. *)
Definition outcome {S R} (rnd : Z -> Z -> Z) (c : coro S R) (s : S) : R * S :=
  fst (run rnd c s).

(** [randint(lo, hi)] answers within its bounds. *)
Definition within_bounds (rnd : Z -> Z -> Z) : Prop :=
  forall lo hi, (lo <= hi)%Z -> (lo <= rnd lo hi <= hi)%Z.

Module MockupCalls.
Import Mockup.

(** The pseudo fingerprint of a part: its three identifiers put together
    (each right-justified to a third of [FINGERPRINT_SIZE], which is 0). *)
Definition fingerprint_of (part_id' batch_id' part_type' : string) : string :=
  part_id' +:+ batch_id' +:+ part_type'.

Definition entry_of (part_id' batch_id' part_type' : string) : FpDatabaseEntry :=
  mkEntry (fingerprint_of part_id' batch_id' part_type')
          part_id' batch_id' part_type'.

(** All entries of all databases. *)
Definition all_entries (self : FpMockupSystem) : list FpDatabaseEntry :=
  concat (map snd (fp_databases self)).

(** The entries of one database; none if it does not exist. *)
Definition database (name : string) (self : FpMockupSystem) :
    list FpDatabaseEntry :=
  default [] (dict_get name (fp_databases self)).

(** The reply of [trace_part] for a part found, and for none. *)
Definition part_found (e : FpDatabaseEntry) : dict :=
  [ ("ServiceExecutionResult", VInt 0);
    ("PartID", VStr (part_id e)); ("BatchID", VStr (batch_id e));
    ("PartType", VStr (part_type e));
    ("CurrentConfidenceValue1", VInt 99);
    ("CurrentConfidenceValue2", VInt 100);
    ("AverageConfidenceValue1", VInt 97);
    ("AverageConfidenceValue2", VInt 98) ].

Definition no_part_found : dict :=
  [ ("ServiceExecutionResult", VInt 0);
    ("PartID", VStr ""); ("BatchID", VStr ""); ("PartType", VStr "");
    ("CurrentConfidenceValue1", VInt 0);
    ("CurrentConfidenceValue2", VInt 0);
    ("AverageConfidenceValue1", VInt 0);
    ("AverageConfidenceValue2", VInt 0) ].

(** The databases [trace_part] visits, in their order. *)
Definition visited (database_name ref_database_names : string)
    (trace_all_databases : bool) (self : FpMockupSystem) : list string :=
  let names :=
    append_if_absent (split_names ref_database_names) database_name in
  if trace_all_databases
  then fold_left append_if_absent (dict_keys (fp_databases self)) names
  else names.

(** The entries [trace_part] takes for candidates. *)
Definition fits (batch_ids : string) (trace_batchwise : bool)
    (part_types : string) (trace_typewise : bool) (e : FpDatabaseEntry) : bool :=
  negb ((trace_batchwise
         && negb (bool_decide (batch_id e ∈ split_names batch_ids)))
        || (trace_typewise
            && negb (bool_decide (part_type e ∈ split_names part_types)))).

(** The databases after [e] went from [ref_db_name] to [database_name]. *)
Definition moved (e : FpDatabaseEntry) (ref_db_name database_name : string)
    (dbs : pydict (list FpDatabaseEntry)) : pydict (list FpDatabaseEntry) :=
  let dbs1 :=
    dict_set ref_db_name
      (set_remove e (default [] (dict_get ref_db_name dbs))) dbs in
  dict_set database_name
    (set_add e (default [] (dict_get database_name dbs1))) dbs1.

End MockupCalls.

Module CallExamples.
Import Mockup MockupCalls.

(** A ready backend with one part in each of two databases. *)
Definition stocked : FpMockupSystem :=
  mkMockup (mkFpStatus SYSTEM_READY RESULT_READY NO_ERROR "") "default"
    [ ("DB1", [entry_of "A" "BC" ""]); ("DB2", [entry_of "P2" "B2" "T2"]) ].

End CallExamples.

(** A call in which every [randint(lo, hi)] has [lo <= hi]; [randint]
    raises otherwise, and the call cannot go on. *)
Inductive bounded {S R} : coro S R -> Prop :=
| bounded_ret r : bounded (Ret r)
| bounded_get k : (forall s, bounded (k s)) -> bounded (Get k)
| bounded_put s k : bounded k -> bounded (Put s k)
| bounded_sleep q k : bounded k -> bounded (Sleep q k)
| bounded_acquire k : bounded k -> bounded (Acquire k)
| bounded_release k : bounded k -> bounded (Release k)
| bounded_randint lo hi k :
    (lo <= hi)%Z -> (forall x, bounded (k x)) -> bounded (Randint lo hi k).

(** Every call of the pool has returned. *)
Definition all_returned {S R} (p : pool S R) : Prop :=
  forall i c, tasks p !! i = Some c -> exists r, c = Ret r.

(** Call [i] of the pool can take a step. *)
Definition can_step {S R} (i : nat) (p : pool S R) : Prop :=
  exists p', pool_step i p p'.

(** ** The echo backend, [fp_echo_system.py] *)

Module Echo.

Record FpEchoSystem : Type := mkEcho {
  status : FpStatus
}.

Definition with_status (f : FpStatus -> FpStatus) (self : FpEchoSystem) :
    FpEchoSystem :=
  mkEcho (f (status self)).

(** [_init_duration_estimations]: expected durations in milliseconds. *)
Definition duration_estimations : pydict Z :=
  [ ("reset_system", 5%Z); ("get_status", 10%Z);
    ("set_image_matching_type", 10%Z); ("add_part", 2000%Z);
    ("trace_part", 2100%Z) ].

Definition duration (name : string) : Q :=
  inject_Z (default 0%Z (dict_get name duration_estimations)).

(** [self.status.update(..)] *)
Definition status_update (r : RunState) (q : ResultState) (e : ErrorType)
    (cmd : string) : coro FpEchoSystem unit :=
  modify (with_status (FpStatus_update r q e cmd)).

(** [_get_status] *)
Definition _get_status (self : FpEchoSystem) : dict :=
  FpStatus_as_dict (status self).

(** The four-field acknowledgement the estimators return. *)
Definition prior_info_of (name : string) : dict :=
  [ ("ExpectedServiceExecutionDuration",
      VInt (default 0%Z (dict_get name duration_estimations)));
    ("ServiceTriggerResult", VInt 1);
    ("ServiceResultMessage", VStr "");
    ("ServiceResultCode", VInt 0) ].

Definition reset_system_prior_info (args : list value) : dict :=
  prior_info_of "reset_system".
Definition get_status_prior_info (args : list value) : dict :=
  prior_info_of "get_status".
Definition set_image_matching_type_prior_info (args : list value) : dict :=
  prior_info_of "set_image_matching_type".
Definition add_part_prior_info (args : list value) : dict :=
  prior_info_of "add_part".
Definition trace_part_prior_info (args : list value) : dict :=
  prior_info_of "trace_part".

Section Reset.

(** [FpStatus.reset()] of [fp_tcp_interface_definitions]; what it resets the
    fields to is not fixed here. *)
Variable FpStatus_reset : FpStatus -> FpStatus.

Definition reset_system (args : list value) : coro FpEchoSystem dict :=
  async_with_lock (
    modify (with_status FpStatus_reset);;
    sleep (duration "reset_system" / 1000);;
    status_update SYSTEM_READY RESULT_UNDEFINED NO_ERROR "";;
    mret []).

End Reset.

(** [get_status] takes the lock as well, and hands back the coroutine of
    [_get_status] as it is. *)
Definition get_status (args : list value) : coro FpEchoSystem pyret :=
  async_with_lock (
    sleep (duration "get_status" / 1000);;
    mret RetObject).

Definition set_image_matching_type (args : list value) :
    coro FpEchoSystem dict :=
  async_with_lock (
    status_update COMMAND_RUNNING RESULT_UNDEFINED NO_ERROR
      "set_image_matching_type";;
    sleep (duration "set_image_matching_type" / 1000);;
    status_update SYSTEM_READY RESULT_READY NO_ERROR "";;
    mret []).

Definition add_part (args : list value) : coro FpEchoSystem dict :=
  async_with_lock (
    status_update ACQUIRING_IMAGE RESULT_UNDEFINED NO_ERROR "add_part";;
    sleep (duration "add_part" / 1000 * (4 # 10));;
    status_update COMMAND_RUNNING RESULT_UNDEFINED NO_ERROR "add_part";;
    sleep (duration "add_part" / 1000 * (6 # 10));;
    status_update SYSTEM_READY RESULT_READY NO_ERROR "";;
    mret [ ("ServiceExecutionResult", VInt 0);
           ("PartIDsOfDuplicates", VStr "") ]).

Definition trace_part (args : list value) : coro FpEchoSystem dict :=
  async_with_lock (
    status_update ACQUIRING_IMAGE RESULT_UNDEFINED NO_ERROR "trace_part";;
    sleep (duration "trace_part" / 1000 * (4 # 10));;
    status_update COMMAND_RUNNING RESULT_UNDEFINED NO_ERROR "trace_part";;
    sleep (duration "trace_part" / 1000 * (6 # 10));;
    status_update SYSTEM_READY RESULT_READY NO_ERROR "";;
    mret [ ("ServiceExecutionResult", VInt 0);
           ("PartID", VStr ""); ("BatchID", VStr ""); ("PartType", VStr "");
           ("CurrentConfidenceValue1", VInt 99);
           ("CurrentConfidenceValue2", VInt 100);
           ("AverageConfidenceValue1", VInt 97);
           ("AverageConfidenceValue2", VInt 98) ]).

(** The calls a controller can make on the echo backend, each with the
    arguments it was given. *)
Inductive call : Type :=
| ResetSystem (args : list value)
| GetStatus (args : list value)
| SetImageMatchingType (args : list value)
| AddPart (args : list value)
| TracePart (args : list value).

Definition program (FpStatus_reset : FpStatus -> FpStatus) (c : call) :
    coro FpEchoSystem pyret :=
  match c with
  | ResetSystem args => RetDict <$> reset_system FpStatus_reset args
  | GetStatus args => get_status args
  | SetImageMatchingType args => RetDict <$> set_image_matching_type args
  | AddPart args => RetDict <$> add_part args
  | TracePart args => RetDict <$> trace_part args
  end.

End Echo.

Module EchoExample.

(** [add_part] and [get_status] handed to the event loop of an echo
    backend. *)
Definition two_calls : list Echo.call :=
  [Echo.AddPart [VStr "DB1"]; Echo.GetStatus []].

Definition echo0 : Echo.FpEchoSystem :=
  Echo.mkEcho (mkFpStatus SYSTEM_READY RESULT_UNDEFINED NO_ERROR "").

Definition pool0 : pool Echo.FpEchoSystem pyret :=
  mkPool echo0 false (map (Echo.program id) two_calls).

End EchoExample.

(** * Properties *)

(** ** Name transforms *)

Example camel_to_snake_AddPart : camel_to_snake "AddPart" = "add_part".
Proof. reflexivity. Qed.

Example camel_to_snake_SetImageMatchingType :
  camel_to_snake "SetImageMatchingType" = "set_image_matching_type".
Proof. reflexivity. Qed.

Example snake_to_camel_trace_part : snake_to_camel "trace_part" = "TracePart".
Proof. reflexivity. Qed.

Module NameFacts.
Import PyStr.

Lemma lower_of_upper c : isupper c = true -> upper (lower c) = c.
Proof.
  destruct c as [[] [] [] [] [] [] [] []]; vm_compute; congruence.
Qed.

Lemma lower_of_lower c : islower c = true -> lower c = c.
Proof.
  destruct c as [[] [] [] [] [] [] [] []]; vm_compute; congruence.
Qed.

Lemma lower_upper_not_underscore c :
  isupper c = true -> Ascii.eqb (lower c) "_" = false.
Proof.
  destruct c as [[] [] [] [] [] [] [] []]; vm_compute; congruence.
Qed.

Lemma lower_not_underscore c :
  islower c = true -> Ascii.eqb c "_" = false.
Proof.
  destruct c as [[] [] [] [] [] [] [] []]; vm_compute; congruence.
Qed.

Lemma lower_not_upper c : islower c = true -> isupper c = false.
Proof.
  destruct c as [[] [] [] [] [] [] [] []]; vm_compute; congruence.
Qed.

Lemma lower_upper_is_lower c : isupper c = true -> islower (lower c) = true.
Proof.
  destruct c as [[] [] [] [] [] [] [] []]; vm_compute; congruence.
Qed.

End NameFacts.

Module RoundTrip.
Import PyStr NameFacts.

(** What [camel_to_snake] builds before it strips. *)
Definition expand (s : string) : string :=
  join ""
    (map (fun c : ascii =>
            if isupper c then String "_" (String (lower c) "") else String c "")
         (list_ascii_of_string s)).

Lemma append_cons (c : ascii) (s t : string) :
  String c s +:+ t = String c (s +:+ t).
Proof. reflexivity. Qed.

Lemma append_empty_l (t : string) : "" +:+ t = t.
Proof. reflexivity. Qed.

Lemma append_empty_r (s : string) : s +:+ "" = s.
Proof.
  induction s as [|c s IH]; [reflexivity|]. rewrite append_cons. congruence.
Qed.

Lemma append_assoc (a b c : string) : (a +:+ b) +:+ c = a +:+ (b +:+ c).
Proof.
  induction a as [|x a IH]; [reflexivity|]. rewrite !append_cons. congruence.
Qed.

Lemma join_empty_cons (p : string) (ps : list string) :
  join "" (p :: ps) = p +:+ join "" ps.
Proof.
  destruct ps as [|q ps]; simpl.
  - now rewrite append_empty_r.
  - reflexivity.
Qed.

Lemma join_sep_cons2 (sep p q : string) (ps : list string) :
  join sep (p :: q :: ps) = p +:+ sep +:+ join sep (q :: ps).
Proof. reflexivity. Qed.

Lemma expand_cons (c : ascii) (s : string) :
  expand (String c s) =
  (if isupper c then String "_" (String (lower c) "") else String c "")
  +:+ expand s.
Proof. unfold expand. simpl list_ascii_of_string. rewrite map_cons. apply join_empty_cons. Qed.

Lemma expand_app (a b : string) : expand (a +:+ b) = expand a +:+ expand b.
Proof.
  induction a as [|c a IH].
  - reflexivity.
  - change (String c a +:+ b) with (String c (a +:+ b)).
    rewrite !expand_cons, IH, append_assoc. reflexivity.
Qed.

Lemma expand_lowercase (s : string) :
  str_forall islower s = true -> expand s = s.
Proof.
  induction s as [|c s IH]; intros Hs.
  - reflexivity.
  - simpl in Hs. apply andb_prop in Hs as [Hc Hs].
    rewrite expand_cons, (lower_not_upper _ Hc), IH by assumption.
    reflexivity.
Qed.

Lemma str_lower_lowercase (s : string) :
  str_forall islower s = true -> str_lower s = s.
Proof.
  induction s as [|c s IH]; intros Hs.
  - reflexivity.
  - simpl in Hs. apply andb_prop in Hs as [Hc Hs].
    unfold str_lower in *. simpl. rewrite (lower_of_lower _ Hc), IH by assumption.
    reflexivity.
Qed.

Lemma expand_word (w : string) :
  camel_word w = true -> expand w = String "_" (str_lower w).
Proof.
  destruct w as [|c w]; [discriminate|]. simpl. intros Hw.
  apply andb_prop in Hw as [Hc Hw].
  rewrite expand_cons, Hc, (expand_lowercase _ Hw).
  unfold str_lower. simpl. fold str_lower.
  now rewrite (str_lower_lowercase _ Hw).
Qed.

(** The expansion of a name: every word lower-cased behind an underscore. *)
Definition snake_raw (ws : list string) : string :=
  join "" (map (fun w => String "_" (str_lower w)) ws).

Lemma expand_words (ws : list string) :
  forallb camel_word ws = true -> expand (join "" ws) = snake_raw ws.
Proof.
  induction ws as [|w ws IH]; intros Hws.
  - reflexivity.
  - simpl in Hws. apply andb_prop in Hws as [Hw Hws].
    unfold snake_raw. rewrite map_cons, !join_empty_cons, expand_app.
    rewrite (expand_word _ Hw). fold (snake_raw ws). now rewrite IH.
Qed.

Lemma snake_raw_join (w : string) (ws : list string) :
  str_lower w +:+ snake_raw ws = join "_" (map str_lower (w :: ws)).
Proof.
  revert w. induction ws as [|w' ws IH]; intros w.
  - simpl. apply append_empty_r.
  - unfold snake_raw. rewrite map_cons, join_empty_cons. fold (snake_raw ws).
    rewrite !map_cons, join_sep_cons2, <- map_cons, <- IH.
    reflexivity.
Qed.

Lemma lstrip_word (w rest : string) :
  camel_word w = true ->
  lstrip "_" (String "_" (str_lower w) +:+ rest) = str_lower w +:+ rest.
Proof.
  destruct w as [|c w]; [discriminate|]. simpl. intros Hw.
  apply andb_prop in Hw as [Hc _].
  now rewrite (lower_upper_not_underscore _ Hc).
Qed.

Lemma camel_to_snake_words (ws : list string) :
  ws <> [] -> forallb camel_word ws = true ->
  camel_to_snake (camel_name_of ws) = snake_name_of ws.
Proof.
  intros Hne Hws. unfold camel_to_snake, camel_name_of, snake_name_of.
  fold (expand (join "" ws)). rewrite (expand_words _ Hws).
  destruct ws as [|w ws]; [congruence|].
  simpl in Hws. apply andb_prop in Hws as [Hw _].
  unfold snake_raw. rewrite map_cons, join_empty_cons. fold (snake_raw ws).
  rewrite (lstrip_word _ _ Hw). apply snake_raw_join.
Qed.

(** Splitting at underscores gives back the parts joined with them. *)
Definition no_underscore (s : string) : bool :=
  str_forall (fun c => negb (Ascii.eqb c "_")) s.

Lemma split_nonempty (sep : ascii) (s : string) : split sep s <> [].
Proof.
  destruct s as [|c s]; simpl; [discriminate|].
  destruct (Ascii.eqb c sep); [discriminate|].
  destruct (split sep s); discriminate.
Qed.

Lemma split_part (p : string) :
  no_underscore p = true -> split "_" p = [p].
Proof.
  induction p as [|c p IH]; intros Hp; [reflexivity|].
  simpl in Hp. apply andb_prop in Hp as [Hc Hp]. apply negb_true_iff in Hc.
  simpl. rewrite Hc, (IH Hp). reflexivity.
Qed.

Lemma split_part_sep (p rest : string) :
  no_underscore p = true ->
  split "_" (p +:+ String "_" rest) = p :: split "_" rest.
Proof.
  induction p as [|c p IH]; intros Hp; [reflexivity|].
  simpl in Hp. apply andb_prop in Hp as [Hc Hp]. apply negb_true_iff in Hc.
  simpl. rewrite Hc, (IH Hp). reflexivity.
Qed.

Lemma split_join (ps : list string) :
  ps <> [] -> forallb no_underscore ps = true ->
  split "_" (join "_" ps) = ps.
Proof.
  induction ps as [|p ps IH]; intros Hne Hps; [congruence|].
  simpl in Hps. apply andb_prop in Hps as [Hp Hps].
  destruct ps as [|q ps].
  - simpl. now apply split_part.
  - rewrite join_sep_cons2.
    change ("_" +:+ join "_" (q :: ps)) with (String "_" (join "_" (q :: ps))).
    rewrite (split_part_sep _ _ Hp), IH; [reflexivity | discriminate | assumption].
Qed.

Lemma lower_word_no_underscore (w : string) :
  camel_word w = true -> no_underscore (str_lower w) = true.
Proof.
  destruct w as [|c w]; [discriminate|]. simpl. intros Hw.
  apply andb_prop in Hw as [Hc Hw].
  unfold no_underscore. simpl. rewrite (lower_upper_not_underscore _ Hc). simpl.
  fold str_lower. rewrite (str_lower_lowercase _ Hw).
  clear Hc. induction w as [|d w IH]; [reflexivity|].
  simpl in Hw. apply andb_prop in Hw as [Hd Hw]. simpl.
  now rewrite (lower_not_underscore _ Hd), IH.
Qed.

Lemma capitalize_lower_word (w : string) :
  camel_word w = true -> capitalize (str_lower w) = w.
Proof.
  destruct w as [|c w]; [discriminate|]. simpl. intros Hw.
  apply andb_prop in Hw as [Hc Hw].
  fold str_lower. rewrite (lower_of_upper _ Hc).
  now rewrite !(str_lower_lowercase _ Hw).
Qed.

Lemma snake_to_camel_words (ws : list string) :
  ws <> [] -> forallb camel_word ws = true ->
  snake_to_camel (snake_name_of ws) = camel_name_of ws.
Proof.
  intros Hne Hws. unfold snake_to_camel, snake_name_of, camel_name_of.
  rewrite split_join.
  - f_equal. rewrite map_map.
    clear Hne. induction ws as [|w ws IH]; [reflexivity|].
    simpl in Hws. apply andb_prop in Hws as [Hw Hws].
    simpl. now rewrite (capitalize_lower_word _ Hw), IH.
  - destruct ws; [congruence | discriminate].
  - clear Hne. induction ws as [|w ws IH]; [reflexivity|].
    simpl in Hws. apply andb_prop in Hws as [Hw Hws].
    simpl. now rewrite (lower_word_no_underscore _ Hw), IH.
Qed.

End RoundTrip.

Module UnicodeFacts.

Lemma casing_ascii (c : ascii) :
  is_ascii c = true ->
  Unicode.casing_of (N_of_ascii c)
  = Some (Unicode.mkCasing (PyStr.isupper c) (PyStr.islower c)
            [N_of_ascii (PyStr.lower c)] [N_of_ascii (PyStr.upper c)]).
Proof.
  destruct c as [[] [] [] [] [] [] [] []]; intros Hc; try discriminate Hc;
    vm_compute; reflexivity.
Qed.

Lemma underscore_ascii (c : ascii) :
  (N_of_ascii c =? Unicode.underscore)%N = Ascii.eqb c "_".
Proof.
  destruct c as [[] [] [] [] [] [] [] []]; vm_compute; reflexivity.
Qed.

Lemma lower_ascii (c : ascii) : is_ascii c = true -> is_ascii (PyStr.lower c) = true.
Proof.
  destruct c as [[] [] [] [] [] [] [] []]; intros Hc; try discriminate Hc;
    vm_compute; reflexivity.
Qed.

Lemma upper_ascii (c : ascii) : is_ascii c = true -> is_ascii (PyStr.upper c) = true.
Proof.
  destruct c as [[] [] [] [] [] [] [] []]; intros Hc; try discriminate Hc;
    vm_compute; reflexivity.
Qed.

Lemma of_string_cons c s : Unicode.of_string (String c s) = N_of_ascii c :: Unicode.of_string s.
Proof. reflexivity. Qed.

Lemma of_string_app a b : Unicode.of_string (a +:+ b) = Unicode.of_string a ++ Unicode.of_string b.
Proof.
  induction a as [|c a IH]; [reflexivity|].
  change (String c a +:+ b) with (String c (a +:+ b)).
  rewrite !of_string_cons, IH. reflexivity.
Qed.

Lemma of_string_join_empty parts :
  Unicode.of_string (PyStr.join "" parts) = concat (map Unicode.of_string parts).
Proof.
  induction parts as [|p parts IH]; [reflexivity|].
  destruct parts as [|q parts].
  - simpl. now rewrite app_nil_r.
  - change (PyStr.join "" (p :: q :: parts))
      with (p +:+ "" +:+ PyStr.join "" (q :: parts)).
    rewrite !of_string_app, IH. reflexivity.
Qed.

Lemma lstrip_of_string s :
  Unicode.lstrip Unicode.underscore (Unicode.of_string s) = Unicode.of_string (PyStr.lstrip "_" s).
Proof.
  induction s as [|c s IH]; [reflexivity|].
  rewrite of_string_cons. cbn [Unicode.lstrip PyStr.lstrip].
  rewrite underscore_ascii. destruct (Ascii.eqb c "_"); [exact IH | reflexivity].
Qed.

Lemma ascii_name_cons c s :
  ascii_name (String c s) = is_ascii c && ascii_name s.
Proof. reflexivity. Qed.

Lemma ascii_name_app a b :
  ascii_name (a +:+ b) = ascii_name a && ascii_name b.
Proof.
  induction a as [|c a IH]; [reflexivity|].
  change (String c a +:+ b) with (String c (a +:+ b)).
  rewrite !ascii_name_cons, IH. now rewrite andb_assoc.
Qed.

(** The per-character step of [camel_to_snake], in the two models. *)
Lemma expand_of_string s :
  ascii_name s = true ->
  mapM (fun c =>
          ci ← Unicode.casing_of c;
          Some (if Unicode.is_upper ci then Unicode.underscore :: Unicode.to_lower ci else [c]))
       (Unicode.of_string s)
  = Some (map Unicode.of_string
            (map (fun c : ascii =>
                    if PyStr.isupper c
                    then String "_" (String (PyStr.lower c) "")
                    else String c "")
                 (list_ascii_of_string s))).
Proof.
  induction s as [|c s IH]; intros Hs; [reflexivity|].
  rewrite ascii_name_cons in Hs. apply andb_prop in Hs as [Hc Hs].
  rewrite of_string_cons. cbn [mapM list_ascii_of_string map].
  rewrite (casing_ascii c Hc). cbn [mbind option_bind Unicode.is_upper Unicode.to_lower].
  rewrite (IH Hs). cbn [mbind option_bind mret option_ret].
  destruct (PyStr.isupper c); reflexivity.
Qed.

(** On ASCII names the transform over code points is [camel_to_snake]. *)
Lemma camel_to_snake_ascii s :
  ascii_name s = true ->
  Unicode.camel_to_snake (Unicode.of_string s) = Some (Unicode.of_string (camel_to_snake s)).
Proof.
  intros Hs. unfold Unicode.camel_to_snake, camel_to_snake.
  rewrite (expand_of_string s Hs). cbn [mbind option_bind].
  now rewrite <- of_string_join_empty, lstrip_of_string.
Qed.

Lemma split_of_string s :
  Unicode.split Unicode.underscore (Unicode.of_string s)
  = map Unicode.of_string (PyStr.split "_" s).
Proof.
  induction s as [|c s IH]; [reflexivity|].
  rewrite of_string_cons. cbn [Unicode.split PyStr.split].
  rewrite underscore_ascii, IH.
  destruct (Ascii.eqb c "_"); [reflexivity|].
  destruct (PyStr.split "_" s); reflexivity.
Qed.

Lemma split_ascii s :
  ascii_name s = true -> Forall (fun p => ascii_name p = true) (PyStr.split "_" s).
Proof.
  induction s as [|c s IH]; intros Hs; [repeat constructor|].
  rewrite ascii_name_cons in Hs. apply andb_prop in Hs as [Hc Hs].
  specialize (IH Hs). cbn [PyStr.split].
  destruct (Ascii.eqb c "_"); [constructor; [reflexivity | exact IH]|].
  destruct (PyStr.split "_" s) as [|p ps].
  - repeat constructor. rewrite ascii_name_cons, Hc. reflexivity.
  - apply Forall_cons in IH as [Hp Hps]. constructor; [|exact Hps].
    rewrite ascii_name_cons, Hc, Hp. reflexivity.
Qed.

Lemma str_lower_of_string s :
  ascii_name s = true ->
  Unicode.str_lower (Unicode.of_string s)
  = Some (Unicode.of_string (PyStr.str_lower s)).
Proof.
  unfold Unicode.str_lower. induction s as [|c s IH]; intros Hs; [reflexivity|].
  rewrite ascii_name_cons in Hs. apply andb_prop in Hs as [Hc Hs].
  specialize (IH Hs). rewrite of_string_cons. cbn [mapM].
  rewrite (casing_ascii c Hc). cbn [mbind option_bind Unicode.to_lower].
  destruct (mapM _ (Unicode.of_string s)) as [parts|]; [|discriminate IH].
  cbn [mbind option_bind mret option_ret] in *. injection IH as IH.
  cbn [concat app]. now rewrite IH.
Qed.

Lemma str_lower_ascii s :
  ascii_name s = true -> ascii_name (PyStr.str_lower s) = true.
Proof.
  induction s as [|c s IH]; intros Hs; [reflexivity|].
  rewrite ascii_name_cons in Hs. apply andb_prop in Hs as [Hc Hs].
  change (PyStr.str_lower (String c s))
    with (String (PyStr.lower c) (PyStr.str_lower s)).
  now rewrite ascii_name_cons, (lower_ascii c Hc), (IH Hs).
Qed.

Lemma capitalize_of_string w :
  ascii_name w = true ->
  Unicode.capitalize (Unicode.of_string w)
  = Some (Unicode.of_string (PyStr.capitalize w)).
Proof.
  destruct w as [|c w]; intros Hw; [reflexivity|].
  rewrite ascii_name_cons in Hw. apply andb_prop in Hw as [Hc Hw].
  rewrite of_string_cons. cbn [Unicode.capitalize PyStr.capitalize].
  rewrite (casing_ascii c Hc). cbn [mbind option_bind Unicode.to_title].
  rewrite (str_lower_of_string w Hw). reflexivity.
Qed.

Lemma capitalize_ascii w :
  ascii_name w = true -> ascii_name (PyStr.capitalize w) = true.
Proof.
  destruct w as [|c w]; intros Hw; [reflexivity|].
  rewrite ascii_name_cons in Hw. apply andb_prop in Hw as [Hc Hw].
  cbn [PyStr.capitalize].
  now rewrite ascii_name_cons, (upper_ascii c Hc), (str_lower_ascii w Hw).
Qed.

Lemma capitalize_parts parts :
  Forall (fun p => ascii_name p = true) parts ->
  mapM Unicode.capitalize (map Unicode.of_string parts)
  = Some (map Unicode.of_string (map PyStr.capitalize parts)).
Proof.
  induction 1 as [|p parts Hp _ IH]; [reflexivity|].
  cbn [map mapM]. rewrite (capitalize_of_string p Hp).
  cbn [mbind option_bind]. rewrite IH. reflexivity.
Qed.

(** On ASCII names the transform over code points is [snake_to_camel]. *)
Lemma snake_to_camel_ascii s :
  ascii_name s = true ->
  Unicode.snake_to_camel (Unicode.of_string s)
  = Some (Unicode.of_string (snake_to_camel s)).
Proof.
  intros Hs. unfold Unicode.snake_to_camel, snake_to_camel.
  rewrite split_of_string, (capitalize_parts _ (split_ascii s Hs)).
  cbn [mbind option_bind]. now rewrite <- of_string_join_empty.
Qed.

Lemma join_ascii sep parts :
  ascii_name sep = true ->
  Forall (fun p => ascii_name p = true) parts ->
  ascii_name (PyStr.join sep parts) = true.
Proof.
  intros Hsep. induction 1 as [|p parts Hp Hps IH]; [reflexivity|].
  destruct parts as [|q parts]; [exact Hp|].
  change (PyStr.join sep (p :: q :: parts))
    with (p +:+ sep +:+ PyStr.join sep (q :: parts)).
  now rewrite !ascii_name_app, Hp, Hsep, IH.
Qed.

Lemma join_empty_ascii parts :
  Forall (fun p => ascii_name p = true) parts ->
  ascii_name (PyStr.join "" parts) = true.
Proof. now apply join_ascii. Qed.

Lemma lstrip_ascii s :
  ascii_name s = true -> ascii_name (PyStr.lstrip "_" s) = true.
Proof.
  induction s as [|c s IH]; intros Hs; [reflexivity|].
  cbn [PyStr.lstrip]. destruct (Ascii.eqb c "_"); [|exact Hs].
  rewrite ascii_name_cons in Hs. apply andb_prop in Hs as [_ Hs]. auto.
Qed.

(** The transforms take ASCII names to ASCII names. *)
Lemma camel_to_snake_stays_ascii s :
  ascii_name s = true -> ascii_name (camel_to_snake s) = true.
Proof.
  intros Hs. unfold camel_to_snake. apply lstrip_ascii, join_empty_ascii.
  induction s as [|c s IH]; [constructor|].
  rewrite ascii_name_cons in Hs. apply andb_prop in Hs as [Hc Hs].
  cbn [list_ascii_of_string map]. constructor; [|exact (IH Hs)].
  destruct (PyStr.isupper c).
  - now rewrite !ascii_name_cons, (lower_ascii c Hc).
  - now rewrite ascii_name_cons, Hc.
Qed.

Lemma snake_to_camel_stays_ascii s :
  ascii_name s = true -> ascii_name (snake_to_camel s) = true.
Proof.
  intros Hs. unfold snake_to_camel. apply join_empty_ascii.
  pose proof (split_ascii s Hs) as Hparts.
  induction Hparts as [|p parts Hp _ IH]; [constructor|].
  cbn [map]. constructor; [now apply capitalize_ascii | exact IH].
Qed.

Lemma isupper_ascii c : PyStr.isupper c = true -> is_ascii c = true.
Proof.
  destruct c as [[] [] [] [] [] [] [] []]; intros Hc; try discriminate Hc;
    reflexivity.
Qed.

Lemma islower_ascii c : PyStr.islower c = true -> is_ascii c = true.
Proof.
  destruct c as [[] [] [] [] [] [] [] []]; intros Hc; try discriminate Hc;
    reflexivity.
Qed.

Lemma str_forall_impl (p q : ascii -> bool) s :
  (forall c, p c = true -> q c = true) ->
  PyStr.str_forall p s = true -> PyStr.str_forall q s = true.
Proof.
  intros Hpq. induction s as [|c s IH]; [reflexivity|].
  cbn [PyStr.str_forall]. intros [Hc Hs]%andb_prop.
  now rewrite (Hpq c Hc), (IH Hs).
Qed.

Lemma camel_word_ascii w : camel_word w = true -> ascii_name w = true.
Proof.
  destruct w as [|c w]; [discriminate|]. cbn [camel_word].
  intros [Hc Hw]%andb_prop. rewrite ascii_name_cons, (isupper_ascii c Hc).
  exact (str_forall_impl _ _ w islower_ascii Hw).
Qed.

Lemma camel_name_ascii ws :
  forallb camel_word ws = true -> ascii_name (camel_name_of ws) = true.
Proof.
  intros Hws. apply join_empty_ascii. apply Forall_forall. intros w Hw.
  apply camel_word_ascii. rewrite forallb_forall in Hws.
  now apply Hws, list_elem_of_In.
Qed.

(** Without uppercase letters and without leading underscore, over code
    points. *)
Lemma no_upper_of_string s :
  ascii_name s = true ->
  PyStr.str_forall (fun c => negb (PyStr.isupper c)) s = true ->
  Forall (fun c => from_option Unicode.is_upper true (Unicode.casing_of c)
                   = false)
         (Unicode.of_string s).
Proof.
  induction s as [|c s IH]; intros Hs Hu; [constructor|].
  rewrite ascii_name_cons in Hs. apply andb_prop in Hs as [Hc Hs].
  cbn [PyStr.str_forall] in Hu. apply andb_prop in Hu as [Hcu Hu].
  rewrite of_string_cons. constructor; [|exact (IH Hs Hu)].
  rewrite (casing_ascii c Hc). cbn [from_option Unicode.is_upper].
  now apply negb_true_iff.
Qed.

End UnicodeFacts.

(** C8, for ASCII names.  [camel_to_snake] is a function that takes every
    name made of one or more words, each an uppercase ASCII letter followed
    by lowercase ASCII letters, to the lower-cased words joined by
    underscores, and [snake_to_camel] takes that result back to the name;
    the transforms over code points, which follow the casing of Python's
    [str], do the same on these names. *)
Theorem camel_snake_roundtrip (ws : list string) :
  ws <> [] ->
  forallb camel_word ws = true ->
  camel_to_snake (camel_name_of ws) = snake_name_of ws /\
  snake_to_camel (camel_to_snake (camel_name_of ws)) = camel_name_of ws /\
  Unicode.camel_to_snake (Unicode.of_string (camel_name_of ws))
  = Some (Unicode.of_string (snake_name_of ws)) /\
  Unicode.snake_to_camel (Unicode.of_string (snake_name_of ws))
  = Some (Unicode.of_string (camel_name_of ws)).
Proof.
  intros Hne Hws.
  pose proof (RoundTrip.camel_to_snake_words ws Hne Hws) as Hsnake.
  pose proof (RoundTrip.snake_to_camel_words ws Hne Hws) as Hcamel.
  pose proof (UnicodeFacts.camel_name_ascii ws Hws) as Hascii.
  split; [exact Hsnake|]. split; [now rewrite Hsnake|]. split.
  - rewrite (UnicodeFacts.camel_to_snake_ascii _ Hascii). now rewrite Hsnake.
  - rewrite UnicodeFacts.snake_to_camel_ascii.
    + now rewrite Hcamel.
    + rewrite <- Hsnake. now apply UnicodeFacts.camel_to_snake_stays_ascii.
Qed.

Lemma camel_snake_roundtrip_witness :
  camel_to_snake "SetImageMatchingType" = "set_image_matching_type" /\
  snake_to_camel (camel_to_snake "SetImageMatchingType") = "SetImageMatchingType".
Proof.
  destruct (camel_snake_roundtrip ["Set"; "Image"; "Matching"; "Type"])
    as (Hsnake & Hback & _).
  - discriminate.
  - reflexivity.
  - split; [exact Hsnake | exact Hback].
Defined.

(** C8 as it is stated, for every name of such words, fails outside ASCII.
    U+01C4 is an uppercase letter and [a] a lowercase one; [camel_to_snake]
    takes the name of these two to U+01C6 followed by [a], and
    [snake_to_camel] takes that to U+01C5 followed by [a], the letter in
    title case, which is another name. *)
Lemma camel_snake_roundtrip_counterexample :
  Unicode.camel_word [452%N; 97%N] = true /\
  Unicode.camel_to_snake [452%N; 97%N] = Some [454%N; 97%N] /\
  Unicode.snake_to_camel [454%N; 97%N] = Some [453%N; 97%N] /\
  (Unicode.camel_to_snake [452%N; 97%N] ≫= Unicode.snake_to_camel)
  <> Some [452%N; 97%N].
Proof.
  split; [reflexivity|]. split; [reflexivity|]. split; [reflexivity|].
  vm_compute. discriminate.
Qed.

(** ** Running coroutines *)

Section RunFacts.
Context {S : Type} (rnd : Z -> Z -> Z).

Lemma run_bind {A C} (c : coro S A) (f : A -> coro S C) (s : S) :
  run rnd (c ≫= f) s =
  let '(a, s1, zs1) := run rnd c s in
  let '(r, s2, zs2) := run rnd (f a) s1 in
  (r, s2, zs1 ++ zs2).
Proof.
  unfold mbind, coro_mbind. revert s.
  induction c as [a|k IH|s' k IH|q k IH|k IH|k IH|lo hi k IH]; intros s; simpl.
  - destruct (run rnd (f a) s) as [[r s2] zs2]. reflexivity.
  - apply IH.
  - apply IH.
  - rewrite IH. destruct (run rnd k s) as [[a s1] zs1].
    destruct (run rnd (f a) s1) as [[r s2] zs2]. reflexivity.
  - apply IH.
  - apply IH.
  - apply IH.
Qed.

Lemma run_async_with_lock {A} (body : coro S A) (s : S) :
  run rnd (async_with_lock body) s = run rnd body s.
Proof.
  unfold async_with_lock. simpl. rewrite run_bind.
  destruct (run rnd body s) as [[a s1] zs1]. simpl. now rewrite app_nil_r.
Qed.

Lemma run_get (s : S) : run rnd get s = (s, s, []).
Proof. reflexivity. Qed.

Lemma run_modify (f : S -> S) (s : S) : run rnd (modify f) s = (tt, f s, []).
Proof. reflexivity. Qed.

Lemma run_sleep (q : Q) (s : S) : run rnd (sleep q) s = (tt, s, [q]).
Proof. reflexivity. Qed.

Lemma run_ret {A} (a : A) (s : S) : run rnd (mret a) s = (a, s, []).
Proof. reflexivity. Qed.

Lemma run_randint (lo hi : Z) (s : S) :
  run rnd (randint lo hi) s = (rnd lo hi, s, []).
Proof. reflexivity. Qed.

End RunFacts.

(** ** The simulated backend: rejected and duplicate registrations *)

Module MockupFacts.
Import Mockup.

Lemma ready_false_iff (st : FpStatus) :
  ready st = false <->
  ~ (run_state st = SYSTEM_READY /\ error_type st = NO_ERROR).
Proof.
  unfold ready. rewrite andb_false_iff, !bool_decide_eq_false. split.
  - intros [H|H] [H1 H2]; contradiction.
  - intros Hn. destruct (decide (run_state st = SYSTEM_READY)); [|now left].
    right. intros He. apply Hn. now split.
Qed.

Lemma add_part_not_ready rnd self database_name check_id check_fp
    part_id' batch_id' part_type' :
  ready (status self) = false ->
  run rnd (add_part database_name check_id check_fp part_id' batch_id' part_type')
      self
  = ([("PartIDsOfDuplicates", VStr "")], self, []).
Proof.
  intros Hr. unfold add_part.
  rewrite run_async_with_lock, run_bind, run_get, Hr. reflexivity.
Qed.

Lemma trace_part_not_ready rnd self database_name ref_database_names
    trace_all batch_ids batchwise part_types typewise :
  ready (status self) = false ->
  run rnd (trace_part database_name ref_database_names trace_all batch_ids
             batchwise part_types typewise) self
  = ([("PartIDsOfDuplicates", VStr "")], self, []).
Proof.
  intros Hr. unfold trace_part.
  rewrite run_async_with_lock, run_bind, run_get, Hr. reflexivity.
Qed.

End MockupFacts.

(** C10. When the status is not both [SYSTEM_READY] and [NO_ERROR] at the
    moment [add_part] or [trace_part] holds the lock, the call returns at
    once (it goes through no sleep) with a result whose only field is an
    empty [PartIDsOfDuplicates]; the status and every fingerprint database
    are as before. *)
Theorem not_ready_call_rejected (rnd : Z -> Z -> Z)
    (self : Mockup.FpMockupSystem) :
  ~ (run_state (Mockup.status self) = SYSTEM_READY /\
     error_type (Mockup.status self) = NO_ERROR) ->
  (forall database_name check_id_duplicates check_fp_duplicates part_id
          batch_id part_type,
      run rnd (Mockup.add_part database_name check_id_duplicates
                 check_fp_duplicates part_id batch_id part_type) self
      = ([("PartIDsOfDuplicates", VStr "")], self, [])) /\
  (forall database_name ref_database_names trace_all_databases batch_ids
          trace_batchwise part_types trace_typewise,
      run rnd (Mockup.trace_part database_name ref_database_names
                 trace_all_databases batch_ids trace_batchwise part_types
                 trace_typewise) self
      = ([("PartIDsOfDuplicates", VStr "")], self, [])).
Proof.
  intros Hn. apply MockupFacts.ready_false_iff in Hn. split; intros.
  - now apply MockupFacts.add_part_not_ready.
  - now apply MockupFacts.trace_part_not_ready.
Qed.

Lemma not_ready_call_rejected_witness :
  run Examples.no_choice
      (Mockup.add_part "DB1" true false "P2" "B1" "T1") Examples.after_duplicate
  = ([("PartIDsOfDuplicates", VStr "")], Examples.after_duplicate, []) /\
  run Examples.no_choice
      (Mockup.trace_part "DB2" "DB1" false "" false "" false)
      Examples.after_duplicate
  = ([("PartIDsOfDuplicates", VStr "")], Examples.after_duplicate, []).
Proof.
  destruct (not_ready_call_rejected Examples.no_choice Examples.after_duplicate)
    as [Hadd Htrace].
  - intros [Hrun _]. discriminate Hrun.
  - split; [apply Hadd | apply Htrace].
Defined.

(** C7. On a ready backend without errors and without databases,
    [add_part("DB1", true, false, "P1", "B1", "T1")] twice: the second call
    sets the error kind to [ID_DUPLICATE_FOUND] and leaves the databases as
    the first call left them, with the part registered once; its
    [PartIDsOfDuplicates] field is the text [None], not the identifiers of
    the duplicates. *)
Theorem add_part_twice_reports_None (rnd : Z -> Z -> Z) :
  let call := Mockup.add_part "DB1" true false "P1" "B1" "T1" in
  let '(res1, self1, _) := run rnd call Examples.fresh_ready in
  let '(res2, self2, _) := run rnd call self1 in
  res1 = [("PartIDsOfDuplicates", VStr "")] /\
  Mockup.status self1 = mkFpStatus SYSTEM_READY RESULT_READY NO_ERROR "" /\
  res2 = [("PartIDsOfDuplicates", VStr "None")] /\
  Mockup.status self2 =
    mkFpStatus SYSTEM_ERROR RESULT_READY ID_DUPLICATE_FOUND "" /\
  Mockup.fp_databases self2 = Mockup.fp_databases self1 /\
  Mockup.fp_databases self2 =
    [("DB1", [Mockup.mkEntry "P1B1T1" "P1" "B1" "T1"])].
Proof. vm_compute. repeat split. Qed.

(** ** Serialization of the mutating calls *)

Section Locking.
Context {S R : Type}.
Implicit Types (c : coro S R) (p : pool S R).

(** The two shapes exclude each other (the object [s] only shows that its
    type has an element). *)
Lemma read_only_not_in_cs (s : S) c : read_only c -> ~ in_cs c.
Proof.
  induction 1 as [r|k _ IH|q k _ IH|lo hi k _ IH]; intros Hcs; inversion Hcs; subst.
  - eapply (IH s); eauto.
  - eapply IH; eauto.
  - eapply (IH 0%Z); eauto.
Qed.

Lemma outside_not_in_cs (s : S) c : outside_cs c -> ~ in_cs c.
Proof.
  intros [k Hk|c' Hro] Hcs.
  - inversion Hcs.
  - now apply (read_only_not_in_cs s c').
Qed.

(** The invariant: every call is either inside or outside its critical
    section, only one is inside, and the lock is taken whenever one is. *)
Record lock_inv p : Prop := mkLockInv {
  inv_shape : forall i c, tasks p !! i = Some c -> in_cs c \/ outside_cs c;
  inv_mutex : mutual_exclusion p;
  inv_locked : forall i c, tasks p !! i = Some c -> in_cs c -> locked p = true
}.

Lemma lock_inv_init (s : S) (cs : list (coro S R)) :
  Forall outside_cs cs -> lock_inv (mkPool s false cs).
Proof.
  intros Hall. rewrite Forall_lookup in Hall. split; simpl.
  - intros i c Hi. right. eauto.
  - intros i j ci cj Hi _ Hci _. exfalso. eapply (outside_not_in_cs s); eauto.
  - intros i c Hi Hc. exfalso. eapply (outside_not_in_cs s); eauto.
Qed.

(** One step of a call in its critical section. *)
Lemma in_cs_step c c' s l s' l' :
  in_cs c -> task_step c (s, l) c' (s', l') ->
  (in_cs c' /\ l' = l) \/ (outside_cs c' /\ l' = false).
Proof.
  intros Hcs Hstep. inversion Hstep; subst; inversion Hcs; subst; eauto.
  right. split; [|reflexivity]. apply outside_read_only. constructor.
Qed.

(** One step of a call outside its critical section. *)
Lemma outside_step c c' s l s' l' :
  outside_cs c -> task_step c (s, l) c' (s', l') ->
  s' = s /\
  ((outside_cs c' /\ l' = l) \/ (in_cs c' /\ l = false /\ l' = true)).
Proof.
  intros [k Hk|c0 Hro] Hstep.
  - inversion Hstep; subst. split; [reflexivity|]. right. auto.
  - inversion Hstep; subst; inversion Hro; subst;
      (split; [reflexivity|]); left; split; try reflexivity;
      apply outside_read_only; eauto.
Qed.

Lemma lock_inv_step i p p' : lock_inv p -> pool_step i p p' -> lock_inv p'.
Proof.
  intros [Hshape Hmutex Hlocked] Hstep.
  inversion Hstep as [i' c c' p0 s' l' Hi Hts]; subst.
  assert (Hlen : i < length (tasks p)) by (eapply lookup_lt_Some; eauto).
  destruct (Hshape i c Hi) as [Hcs|Hout].
  - (* the stepping call is the one in its critical section *)
    destruct (in_cs_step _ _ _ _ _ _ Hcs Hts) as [[Hcs' ->]|[Hout' ->]].
    + split; simpl.
      * intros j cj Hj. destruct (decide (j = i)) as [->|Hne].
        -- rewrite list_lookup_insert_eq in Hj by assumption.
           injection Hj as <-. now left.
        -- rewrite list_lookup_insert_ne in Hj by congruence. eauto.
      * intros j k cj ck Hj Hk Hcj Hck; simpl in Hj, Hk.
        destruct (decide (j = i)) as [->|Hnj], (decide (k = i)) as [->|Hnk];
          try reflexivity.
        -- rewrite list_lookup_insert_ne in Hk by congruence.
           symmetry. eapply Hmutex; eauto.
        -- rewrite list_lookup_insert_ne in Hj by congruence.
           eapply Hmutex; eauto.
        -- rewrite list_lookup_insert_ne in Hj, Hk by congruence.
           eapply Hmutex; eauto.
      * intros j cj Hj Hcj. eapply (Hlocked i c); eauto.
    + assert (Hnone : forall j cj, <[i:=c']> (tasks p) !! j = Some cj -> ~ in_cs cj).
      { intros j cj Hj Hcj. destruct (decide (j = i)) as [->|Hne].
        - rewrite list_lookup_insert_eq in Hj by assumption.
          injection Hj as <-. eapply (outside_not_in_cs (backend p)); eauto.
        - rewrite list_lookup_insert_ne in Hj by congruence.
          apply Hne. eapply Hmutex; eauto. }
      split; simpl.
      * intros j cj Hj. destruct (decide (j = i)) as [->|Hne].
        -- rewrite list_lookup_insert_eq in Hj by assumption.
           injection Hj as <-. now right.
        -- rewrite list_lookup_insert_ne in Hj by congruence. eauto.
      * intros j k cj ck Hj Hk Hcj Hck; simpl in Hj, Hk. exfalso. eapply Hnone; eauto.
      * intros j cj Hj Hcj. exfalso. eapply Hnone; eauto.
  - (* the stepping call is outside *)
    destruct (outside_step _ _ _ _ _ _ Hout Hts)
      as [-> [[Hout' ->]|(Hcs' & Hl & ->)]].
    + split; simpl.
      * intros j cj Hj. destruct (decide (j = i)) as [->|Hne].
        -- rewrite list_lookup_insert_eq in Hj by assumption.
           injection Hj as <-. now right.
        -- rewrite list_lookup_insert_ne in Hj by congruence. eauto.
      * intros j k cj ck Hj Hk Hcj Hck; simpl in Hj, Hk.
        destruct (decide (j = i)) as [->|Hnj].
        { rewrite list_lookup_insert_eq in Hj by assumption.
          injection Hj as <-. exfalso. eapply (outside_not_in_cs (backend p)); eauto. }
        destruct (decide (k = i)) as [->|Hnk].
        { rewrite list_lookup_insert_eq in Hk by assumption.
          injection Hk as <-. exfalso. eapply (outside_not_in_cs (backend p)); eauto. }
        rewrite list_lookup_insert_ne in Hj, Hk by congruence.
        eapply Hmutex; eauto.
      * intros j cj Hj Hcj. destruct (decide (j = i)) as [->|Hne].
        -- rewrite list_lookup_insert_eq in Hj by assumption.
           injection Hj as <-. exfalso. eapply (outside_not_in_cs (backend p)); eauto.
        -- rewrite list_lookup_insert_ne in Hj by congruence. eauto.
    + (* it acquires: nobody was inside *)
      assert (Hnone : forall j cj, tasks p !! j = Some cj -> ~ in_cs cj).
      { intros j cj Hj Hcj. pose proof (Hlocked j cj Hj Hcj). congruence. }
      split; simpl.
      * intros j cj Hj. destruct (decide (j = i)) as [->|Hne].
        -- rewrite list_lookup_insert_eq in Hj by assumption.
           injection Hj as <-. now left.
        -- rewrite list_lookup_insert_ne in Hj by congruence. eauto.
      * intros j k cj ck Hj Hk Hcj Hck; simpl in Hj, Hk.
        destruct (decide (j = i)) as [->|Hnj], (decide (k = i)) as [->|Hnk];
          try reflexivity; exfalso.
        -- rewrite list_lookup_insert_ne in Hk by congruence. eapply Hnone; eauto.
        -- rewrite list_lookup_insert_ne in Hj by congruence. eapply Hnone; eauto.
        -- rewrite list_lookup_insert_ne in Hj by congruence. eapply Hnone; eauto.
      * reflexivity.
Qed.

Lemma lock_inv_steps p q : lock_inv p -> pool_steps p q -> lock_inv q.
Proof.
  intros Hp Hsteps. induction Hsteps as [p|i p q r _ IH Hstep]; [assumption|].
  apply (lock_inv_step i q r); [now apply IH | assumption].
Qed.

Lemma lock_inv_no_interleaving p : lock_inv p -> no_interleaving p.
Proof.
  intros [Hshape Hmutex Hlocked] i ci j p' Hi Hci Hne Hstep.
  inversion Hstep as [j' c c' p0 s' l' Hj Hts]; subst. simpl.
  pose proof (Hlocked i ci Hi Hci) as Hl.
  rewrite list_lookup_insert_ne by congruence.
  destruct (Hshape j c Hj) as [Hcs|Hout].
  - exfalso. apply Hne. eapply Hmutex; eauto.
  - destruct (outside_step _ _ _ _ _ _ Hout Hts)
      as [-> [[_ ->]|(_ & Hfree & _)]]; [auto | congruence].
Qed.

End Locking.

(** The shape of the backend's methods. *)
Module ProgramShape.
Import Mockup.

Section Shape.
Context {S : Type}.

Lemma lock_free_bind {A C} (c : coro S A) (f : A -> coro S C) :
  lock_free c -> (forall a, lock_free (f a)) -> lock_free (c ≫= f).
Proof.
  intros Hc Hf. unfold mbind, coro_mbind.
  induction Hc; simpl; try (constructor; auto); auto.
Qed.

Lemma lock_free_mret {A} (a : A) : lock_free (mret a : coro S A).
Proof. constructor. Qed.

Lemma lock_free_get : lock_free (get : coro S S).
Proof. constructor. intros. constructor. Qed.

Lemma lock_free_modify (f : S -> S) : lock_free (modify f).
Proof. constructor. intros. constructor. constructor. Qed.

Lemma lock_free_sleep (q : Q) : lock_free (sleep q : coro S unit).
Proof. constructor. constructor. Qed.

Lemma lock_free_randint (lo hi : Z) : lock_free (randint lo hi : coro S Z).
Proof. constructor. intros. constructor. Qed.

(** A lock-free body under [async with], with its result mapped, is a call
    that waits for the lock. *)
Lemma in_cs_locked_body {A C} (body : coro S A) (g : A -> C) :
  lock_free body ->
  in_cs (coro_bind (fun a => Ret (g a))
           (coro_bind (fun r => Release (Ret r)) body)).
Proof.
  induction 1; simpl; constructor; auto.
Qed.

Lemma outside_async_with_lock {A C} (body : coro S A) (g : A -> C) :
  lock_free body -> outside_cs (g <$> async_with_lock body).
Proof.
  intros Hb. unfold fmap, coro_fmap, async_with_lock, mbind, coro_mbind. simpl.
  apply outside_waiting. now apply in_cs_locked_body.
Qed.

End Shape.

Lemma lock_free_status_update r q e cmd : lock_free (status_update r q e cmd).
Proof. apply lock_free_modify. Qed.

Ltac lock_free_step :=
  first
    [ apply lock_free_bind
    | apply lock_free_mret
    | apply lock_free_get
    | apply lock_free_modify
    | apply lock_free_sleep
    | apply lock_free_randint
    | apply lock_free_status_update
    | match goal with
      | |- lock_free (if ?b then _ else _) => destruct b
      | |- lock_free (match ?x with _ => _ end) => destruct x
      end
    | intro ].

Ltac solve_lock_free := cbv zeta; repeat lock_free_step.

Lemma program_outside reset (c : call) : outside_cs (program reset c).
Proof.
  destruct c;
    unfold program, reset_system, set_image_matching_type, add_part, trace_part.
  - apply outside_async_with_lock. solve_lock_free.
  - apply outside_read_only. unfold get_status, sleep, mbind, coro_mbind. simpl.
    repeat constructor.
  - apply outside_async_with_lock. solve_lock_free.
  - apply outside_async_with_lock. solve_lock_free.
  - apply outside_async_with_lock. solve_lock_free.
Qed.

(** The mutating calls are the ones that take the lock, and they take it
    before anything else. *)
Lemma mutating_program_acquires reset (c : call) :
  is_mutating c = true -> exists body, program reset c = Acquire body /\ in_cs body.
Proof.
  intros Hm. pose proof (program_outside reset c) as Hout.
  inversion Hout as [k Hk Heq|c' Hro Heq].
  - eauto.
  - destruct c; try discriminate Hm; exfalso;
      unfold program, fmap, coro_fmap in Hro; simpl in Hro; inversion Hro.
Qed.

End ProgramShape.

(** C9. Every mutating call ([reset_system], [set_image_matching_type],
    [add_part], [trace_part]) starts by acquiring [task_lock] and holds it
    to its end.  However the event loop interleaves a set of calls on one
    backend (among them [get_status], which takes no lock), at most one call
    is in the critical section, and while one is, a step of any other call
    changes neither the backend's state nor the lock nor that call. *)
Theorem mutating_calls_serialized (FpStatus_reset : FpStatus -> FpStatus)
    (calls : list call) (self : Mockup.FpMockupSystem)
    (p : pool Mockup.FpMockupSystem pyret) :
  pool_steps (mkPool self false (map (program FpStatus_reset) calls)) p ->
  (forall c, is_mutating c = true ->
     exists body, program FpStatus_reset c = Acquire body /\ in_cs body) /\
  mutual_exclusion p /\ no_interleaving p.
Proof.
  intros Hsteps.
  assert (Hinv : lock_inv p).
  { eapply lock_inv_steps; [|exact Hsteps]. apply lock_inv_init.
    apply Forall_forall. intros c Hc. apply list_elem_of_In in Hc.
    apply in_map_iff in Hc as (x & <- & _). apply ProgramShape.program_outside. }
  split; [apply ProgramShape.mutating_program_acquires|].
  split; [apply Hinv | now apply lock_inv_no_interleaving].
Qed.

Lemma mutating_calls_serialized_witness :
  exists p1, pool_step 0 LockExample.pool0 p1 /\ locked p1 = true /\
             mutual_exclusion p1 /\ no_interleaving p1.
Proof.
  assert (Hstep : { p1 | pool_step 0 LockExample.pool0 p1 /\ locked p1 = true }).
  { eexists. split.
    - eapply pool_step_task; [reflexivity|]. apply step_acquire.
    - reflexivity. }
  destruct Hstep as [p1 [Hstep Hl]]. exists p1.
  split; [exact Hstep|]. split; [exact Hl|].
  apply (mutating_calls_serialized id LockExample.two_calls Examples.fresh_ready p1).
  eapply pool_steps_step; [apply pool_steps_refl | exact Hstep].
Defined.

(** ** Interface linking *)

(** Projections of updated server states. *)
Ltac server_simpl :=
  cbn [fp_system variables event_gens tasks_running loaded_type_definitions
       service_backends linked_methods attribute_values events_emitted
       loop_tasks log set_fp_system set_event_gens set_tasks_running
       set_service_backends set_linked_methods set_attribute_values
       set_events_emitted set_loop_tasks add_log forget_log fst snd] in *.

Section Linking.
Context {B : Type} `{FpSystem B}.
Implicit Types (st : FpOpcuaServer B) (asp : AddressSpace).














End Linking.



(** ** Publishing the status *)

Section Publishing.
Context {B : Type} `{FpSystem B}.
Implicit Types (st : FpOpcuaServer B).

Lemma update_state_published status st :
  (forall k v, (k, v) ∈ status -> is_Some (state_variable k) ->
               is_Some (variables st !! k)) ->
  update_state status st
  = (Ok tt, set_attribute_values
              (published (variables st) status (attribute_values st)) st).
Proof.
  revert st. induction status as [|[k v] rest IH]; intros st Hvars.
  - destruct st; reflexivity.
  - assert (Hrest : forall st', variables st' = variables st ->
              forall k' v', (k', v') ∈ rest -> is_Some (state_variable k') ->
                            is_Some (variables st' !! k')).
    { intros st' -> k' v' Hin. apply (Hvars k' v'). now right. }
    specialize (Hvars k v (list_elem_of_here _ _)).
    unfold published, state_variable in *. cbn [update_state fold_left fst snd].
    destruct (bool_decide (k ∈ ["RunState"; "ResultState"; "ErrorType"])).
    + destruct Hvars as [node Hnode]; [eauto|].
      unfold mbind, act_bind, write_attribute_value. rewrite Hnode.
      rewrite IH by (apply Hrest; reflexivity). destruct st; reflexivity.
    + destruct (PyStr.is_substring k "CurrentCommand").
      * destruct Hvars as [node Hnode]; [eauto|].
        unfold mbind, act_bind, write_attribute_value. rewrite Hnode.
        rewrite IH by (apply Hrest; reflexivity). destruct st; reflexivity.
      * rewrite IH by (apply Hrest; reflexivity). reflexivity.
Qed.

Lemma published_other vars status attrs node :
  (forall k, k ∈ dict_keys status -> vars !! k <> Some node) ->
  published vars status attrs !! node = attrs !! node.
Proof.
  revert attrs. induction status as [|[k v] rest IH]; intros attrs Hno; [reflexivity|].
  unfold published in *. cbn [fold_left fst snd].
  rewrite IH by (intros k' Hk'; apply Hno; now right).
  destruct (state_variable k); [|reflexivity].
  destruct (vars !! k) as [n|] eqn:Hk; [|reflexivity].
  rewrite lookup_insert_ne; [reflexivity|].
  intros ->. apply (Hno k); [now left | assumption].
Qed.

Lemma published_lookup vars status attrs k v ty node :
  NoDup (dict_keys status) ->
  (forall k1 k2 n, k1 ∈ dict_keys status -> k2 ∈ dict_keys status ->
                   vars !! k1 = Some n -> vars !! k2 = Some n -> k1 = k2) ->
  (k, v) ∈ status -> state_variable k = Some ty -> vars !! k = Some node ->
  published vars status attrs !! node = Some (v, ty).
Proof.
  revert attrs. induction status as [|[k0 v0] rest IH];
    intros attrs Hnd Hinj Hin Hty Hnode; [inversion Hin|].
  cbn [dict_keys map fst] in Hnd. apply NoDup_cons in Hnd as [Hk0 Hnd].
  unfold published in *. cbn [fold_left fst snd].
  apply elem_of_cons in Hin as [Heq|Hin].
  - injection Heq as <- <-. rewrite Hty, Hnode.
    fold (published vars rest (<[node:=(v, ty)]> attrs)).
    rewrite published_other; [apply lookup_insert_eq|].
    intros k' Hk' Hk'n. apply Hk0.
    rewrite (Hinj k k' node); auto; [now left | now right].
  - apply IH; auto.
    intros k1 k2 n H1 H2. apply Hinj; now right.
Qed.

Lemma status_variables_linked_spec vars status :
  status_variables_linked vars status ->
  NoDup (dict_keys status) /\
  (forall k v, (k, v) ∈ status -> is_Some (state_variable k) ->
               is_Some (vars !! k)) /\
  (forall k k' n, k ∈ dict_keys status -> k' ∈ dict_keys status ->
                  vars !! k = Some n -> vars !! k' = Some n -> k = k').
Proof.
  intros (Hnd & Hex & Hinj). rewrite Forall_forall in Hex, Hinj.
  split; [exact Hnd|]. split.
  - intros k v Hin. apply Hex. unfold dict_keys.
    apply list_elem_of_fmap. exists (k, v). auto.
  - intros k k' n Hk Hk' Hn Hn'. specialize (Hinj k Hk).
    rewrite Forall_forall in Hinj. apply (Hinj k' Hk'); [eauto | congruence].
Qed.

Lemma publish_status_shows st :
  status_variables_linked (variables st) (fp_get_status (fp_system st)) ->
  exists st',
    publish_status st = (Ok tt, st') /\
    st' = set_attribute_values
            (published (variables st) (fp_get_status (fp_system st))
                       (attribute_values st)) st /\
    shows_status st' (fp_get_status (fp_system st)).
Proof.
  intros (Hnd & Hex & Hinj)%status_variables_linked_spec.
  eexists. split; [|split; [reflexivity|]].
  - unfold publish_status, mbind, act_bind, read_status.
    now rewrite update_state_published.
  - intros k v ty Hin Hty. destruct (Hex k v Hin) as [node Hnode]; [eauto|].
    exists node. split; [exact Hnode|]. server_simpl.
    eapply published_lookup; eauto.
Qed.

(** [finally] runs whatever the body did. *)
Lemma try_finally_runs {A} (body : Act B A) (fin : Act B unit) st :
  exists r st1 rf st2,
    body st = (r, st1) /\ fin st1 = (rf, st2) /\
    try_finally body fin st
    = (match rf with Ok _ => r | Exc e => Exc e end, st2).
Proof.
  unfold try_finally. destruct (body st) as [r st1] eqn:Hb.
  destruct (fin st1) as [rf st2] eqn:Hf.
  exists r, st1, rf, st2. split; [reflexivity|]. split; [exact Hf|].
  destruct rf; reflexivity.
Qed.

End Publishing.

(** ** What the actions leave unchanged *)

Section Frames.
Context {B : Type} `{FpSystem B} {X : Type} (f : FpOpcuaServer B -> X).

Lemma keeps_ret {A} (a : A) : keeps f (mret a : Act B A).
Proof. intros st r st' Heq. injection Heq as _ <-. reflexivity. Qed.

Lemma keeps_raise {A} (e : exn) : keeps f (raise e : Act B A).
Proof. intros st r st' Heq. injection Heq as _ <-. reflexivity. Qed.

Lemma keeps_lift_result {A} (x : result A) : keeps f (lift_result x : Act B A).
Proof. intros st r st' Heq. injection Heq as _ <-. reflexivity. Qed.

Lemma keeps_bind {A C} (a : Act B A) (k : A -> Act B C) :
  keeps f a -> (forall x, keeps f (k x)) -> keeps f (a ≫= k).
Proof.
  intros Ha Hk st r st' Heq. unfold mbind, act_bind in Heq.
  destruct (a st) as [[x|e] st1] eqn:Hst1.
  - rewrite (Hk x _ _ _ Heq). eapply Ha; eauto.
  - injection Heq as _ <-. eapply Ha; eauto.
Qed.

Lemma keeps_try_finally {A} (body : Act B A) (fin : Act B unit) :
  keeps f body -> keeps f fin -> keeps f (try_finally body fin).
Proof.
  intros Hb Hf st r st' Heq. unfold try_finally in Heq.
  destruct (body st) as [rb st1] eqn:Hst1.
  destruct (fin st1) as [[u|e] st2] eqn:Hst2; injection Heq as _ <-;
    rewrite (Hf _ _ _ Hst2); eapply Hb; eauto.
Qed.

Lemma keeps_logger lvl msg :
  (forall st, f (add_log lvl msg st) = f st) -> keeps f (logger lvl msg).
Proof. intros Hf st r st' Heq. injection Heq as _ <-. apply Hf. Qed.

Lemma keeps_lookup_event_gen service_name :
  keeps f (lookup_event_gen service_name).
Proof.
  intros st r st' Heq. unfold lookup_event_gen in Heq.
  destruct (event_gens st !! service_name); injection Heq as _ <-; reflexivity.
Qed.

Lemma keeps_event_gen_setattr service_name name val :
  (forall g st, f (set_event_gens g st) = f st) ->
  keeps f (event_gen_setattr service_name name val).
Proof. intros Hf st r st' Heq. injection Heq as _ <-. apply Hf. Qed.

Lemma keeps_trigger service_name :
  (forall es st, f (set_events_emitted es st) = f st) ->
  keeps f (trigger service_name).
Proof.
  intros Hf. apply keeps_bind; [apply keeps_lookup_event_gen|].
  intros g. repeat case_match; try apply keeps_raise.
  intros st r st' Heq. injection Heq as _ <-. apply Hf.
Qed.

Lemma keeps_items_of res : keeps f (items_of res).
Proof. destruct res; [apply keeps_ret | apply keeps_raise]. Qed.

Lemma keeps_as_mapping res : keeps f (as_mapping res).
Proof. destruct res; [apply keeps_ret | apply keeps_raise]. Qed.

Lemma keeps_fill_event service_name items :
  (forall g st, f (set_event_gens g st) = f st) ->
  (forall lvl msg st, f (add_log lvl msg st) = f st) ->
  keeps f (fill_event service_name items).
Proof.
  intros Hg Hl. induction items as [|[name val] rest IH]; [apply keeps_ret|].
  cbn [fill_event]. apply keeps_bind; [|intros _; exact IH].
  now apply keeps_event_gen_setattr.
Qed.

Lemma keeps_read_status : keeps f read_status.
Proof. intros st r st' Heq. injection Heq as _ <-. reflexivity. Qed.

Lemma keeps_write_attribute_value name v :
  (forall m st, f (set_attribute_values m st) = f st) ->
  keeps f (write_attribute_value name v).
Proof.
  intros Hf st r st' Heq. unfold write_attribute_value in Heq.
  destruct (variables st !! name); injection Heq as _ <-; [apply Hf | reflexivity].
Qed.

Lemma keeps_update_state status :
  (forall m st, f (set_attribute_values m st) = f st) ->
  keeps f (update_state status).
Proof.
  intros Hf. induction status as [|[k v] rest IH]; [apply keeps_ret|].
  cbn [update_state]. repeat case_match; try exact IH;
    (apply keeps_bind; [now apply keeps_write_attribute_value | intros _; exact IH]).
Qed.

Lemma keeps_publish_status :
  (forall m st, f (set_attribute_values m st) = f st) ->
  keeps f publish_status.
Proof.
  intros Hf. apply keeps_bind; [apply keeps_read_status|].
  intros status. now apply keeps_update_state.
Qed.

Lemma keeps_backend_call how func args :
  (forall b st, f (set_fp_system b st) = f st) ->
  keeps f (backend_call how func args).
Proof.
  intros Hf st r st' Heq. unfold backend_call in Heq.
  destruct (how func args (fp_system st)) as [r' b'].
  injection Heq as _ <-. apply Hf.
Qed.

(** The completion event touches only the event generators, the emitted
    events and the log. *)
Lemma keeps_emit_completion service_name res :
  (forall g st, f (set_event_gens g st) = f st) ->
  (forall es st, f (set_events_emitted es st) = f st) ->
  (forall lvl msg st, f (add_log lvl msg st) = f st) ->
  keeps f (emit_completion service_name res).
Proof.
  intros Hg He Hl. unfold emit_completion.
  apply keeps_bind; [now apply keeps_event_gen_setattr|]. intros _.
  apply keeps_bind; [apply keeps_items_of|]. intros items.
  apply keeps_bind; [now apply keeps_fill_event|]. intros _.
  now apply keeps_trigger.
Qed.

Lemma keeps_event_triggering_body func service_name input_args :
  (forall b st, f (set_fp_system b st) = f st) ->
  (forall g st, f (set_event_gens g st) = f st) ->
  (forall es st, f (set_events_emitted es st) = f st) ->
  (forall lvl msg st, f (add_log lvl msg st) = f st) ->
  keeps f (event_triggering_body func service_name input_args).
Proof.
  intros Hb Hg He Hl st r st' Heq. unfold event_triggering_body in Heq.
  destruct (backend_call py_await_call func input_args st) as [[res|e] st1] eqn:Hcall.
  - rewrite <- (keeps_backend_call _ _ _ Hb _ _ _ Hcall).
    eapply keeps_emit_completion; eauto.
  - injection Heq as _ <-. eapply keeps_backend_call; eauto.
Qed.

End Frames.

(** ** Background execution *)

Section Background.
Context {B : Type} `{FpSystem B}.
Implicit Types (st : FpOpcuaServer B).

(** The backend after the body is the backend after the awaited call. *)
Lemma event_triggering_body_backend func service_name input_args st r st1 :
  event_triggering_body func service_name input_args st = (r, st1) ->
  fp_system st1 = snd (py_await_call func input_args (fp_system st)) /\
  variables st1 = variables st.
Proof.
  intros Heq. split.
  - unfold event_triggering_body, backend_call in Heq.
    destruct (py_await_call func input_args (fp_system st)) as [[res|e] b'].
    + apply (keeps_emit_completion fp_system) in Heq; auto.
    + injection Heq as _ <-. reflexivity.
  - apply (keeps_event_triggering_body variables) in Heq; auto.
Qed.

(** A raised exception leaves the body as it came, with nothing emitted and
    the event generators untouched. *)
Lemma event_triggering_body_raises func service_name input_args st e b' :
  py_await_call func input_args (fp_system st) = (Exc e, b') ->
  event_triggering_body func service_name input_args st
  = (Exc e, set_fp_system b' st).
Proof.
  intros Hcall. unfold event_triggering_body, backend_call. now rewrite Hcall.
Qed.

End Background.

(** C6. A background execution ends by reading the status from the backend
    as the backend method left it, whether that method returned or raised,
    and writing it to the state variables: afterwards every state variable
    shows the value of its status field. *)
Theorem status_republished_after_background {B : Type} `{FpSystem B}
    (func : pycallable B) (service_name : string) (input_args : list value)
    (st : FpOpcuaServer B) :
  let b' := snd (py_await_call func input_args (fp_system st)) in
  status_variables_linked (variables st) (fp_get_status b') ->
  exists r st',
    event_triggering_func func service_name input_args st = (r, st') /\
    fp_system st' = b' /\
    shows_status st' (fp_get_status b') /\
    (forall e, fst (py_await_call func input_args (fp_system st)) = Exc e ->
               r = Exc e).
Proof.
  intros b' Hlinked. unfold event_triggering_func.
  destruct (try_finally_runs (event_triggering_body func service_name input_args)
              publish_status st) as (r & st1 & rf & st2 & Hbody & Hfin & ->).
  destruct (event_triggering_body_backend _ _ _ _ _ _ Hbody) as [Hb Hv].
  fold b' in Hb.
  destruct (publish_status_shows st1) as (st2' & Hpub & -> & Hshows).
  { now rewrite Hv, Hb. }
  rewrite Hpub in Hfin. injection Hfin as <- <-.
  exists r, (set_attribute_values
               (published (variables st1) (fp_get_status (fp_system st1))
                          (attribute_values st1)) st1).
  split; [reflexivity|]. split; [exact Hb|]. split; [now rewrite <- Hb|].
  intros e He. unfold event_triggering_body, backend_call in Hbody.
  destruct (py_await_call func input_args (fp_system st)) as [[res|e'] b''];
    simpl in He; [discriminate|].
  injection He as ->. now injection Hbody as <- _.
Qed.

Lemma status_republished_after_background_witness :
  exists r st',
    event_triggering_func (H := LinkExample.backend)
      (LinkExample.method "add_part") "AddPart" LinkExample.add_part_args
      LinkExample.linked_server = (r, st') /\
    shows_status st'
      (FpStatus_as_dict (mkFpStatus SYSTEM_READY RESULT_READY NO_ERROR "")).
Proof.
  destruct (@status_republished_after_background _ LinkExample.backend
              (LinkExample.method "add_part") "AddPart"
              LinkExample.add_part_args LinkExample.linked_server)
    as (r & st' & Heq & _ & Hshows & _).
  - apply (bool_decide_unpack _). vm_compute. exact I.
  - exists r, st'. split; [exact Heq | exact Hshows].
Defined.

(** ** The dispatch adapter *)

(** Unfolding of the primitive actions. *)
Ltac unfold_acts :=
  repeat (progress
    (unfold mbind, act_bind, mret, act_ret, logger, lookup_event_gen,
       create_task, tasks_running_add, add_done_callback, read_status,
       lift_result, backend_call, as_mapping, raise;
     server_simpl)).

Section Dispatch.
Context {B : Type} `{FpSystem B}.
Implicit Types (st : FpOpcuaServer B) (h : Handler B).

Lemma construct_declared (T : DataType) (kwargs : dict) :
  Forall (fun k => k ∈ dt_fields T) (dict_keys kwargs) ->
  construct T kwargs = Ok (mkExtObject (dt_name T) kwargs).
Proof.
  intros Hall. unfold construct.
  replace (forallb _ _) with true; [reflexivity|].
  symmetry. apply forallb_forall. intros k Hk.
  apply bool_decide_eq_true. rewrite Forall_forall in Hall.
  apply Hall. now apply list_elem_of_In.
Qed.


(** The delayed handler, step by step. *)
Lemma async_handler_run h input_args st prior b' :
  h_returns_async h = true ->
  estimates h input_args (fp_system st) default_prior_info = Some (prior, b') ->
  is_Some (event_gens st !! h_service_name h) ->
  status_variables_linked (variables st) (fp_get_status b') ->
  Forall (fun k => k ∈ dt_fields (h_immediate_result_datatype h))
         (dict_keys prior) ->
  exists st',
    let task := fresh (dom (loop_tasks st)) in
    service_responding_func h input_args st
    = (Ok (Variant (mkExtObject (dt_name (h_immediate_result_datatype h)) prior)
                   ExtensionObject), st') /\
    loop_tasks st' =
      <[task := mkTask (EventTriggeringFunc (h_func h) (h_service_name h) input_args)
                       Pending [TasksRunningDiscard]]> (loop_tasks st) /\
    tasks_running st' = {[task]} ∪ tasks_running st /\
    fp_system st' = b' /\
    events_emitted st' = events_emitted st /\
    event_gens st' = event_gens st.
Proof.
  intros Hasync Hest [g Hg] Hlinked Hkeys.
  apply status_variables_linked_spec in Hlinked as (_ & Hex & _).
  pose proof (construct_declared _ _ Hkeys) as Hcons.
  unfold service_responding_func. rewrite Hasync.
  unfold service_responding_func_async, get_prior_info, estimates in *.
  unfold publish_status.
  destruct (h_func_prior_info h) as [fpi|].
  - unfold_acts.
    destruct (py_call fpi input_args (fp_system st)) as [[[d|]|e] b''] eqn:Hcall;
      try discriminate.
    injection Hest as -> ->. unfold_acts. rewrite Hg. unfold_acts.
    rewrite update_state_published by (server_simpl; exact Hex).
    rewrite Hcons.
    eexists. cbv zeta. split; [reflexivity|]. server_simpl.
    rewrite alter_insert_eq. cbn [t_coro t_state t_callbacks app].
    repeat split.
  - injection Hest as <- <-.
    unfold_acts. rewrite Hg. unfold_acts.
    rewrite update_state_published by (server_simpl; exact Hex).
    rewrite Hcons.
    eexists. cbv zeta. split; [reflexivity|]. server_simpl.
    rewrite alter_insert_eq. cbn [t_coro t_state t_callbacks app].
    repeat split.
Qed.

End Dispatch.

(** C1. A handler of a service that returns delayed, called with a backend
    whose estimator (if there is one) answers with a mapping: the reply is
    the object of the handler's result type built from the prior info.
    With an estimator the prior info is the mapping the estimator returns;
    without one it is the default: expected duration -1.0, trigger result
    1, an empty message and result code 1.  When the handler returns, the
    background execution of the backend method is a pending task of the
    event loop, new and registered in [tasks_running]; the backend is as
    the estimator left it and no event was emitted.  The reply is the same
    whatever the backend method is. *)
Theorem async_reply_is_prior_info {B : Type} `{FpSystem B}
    (h : Handler B) (input_args : list value) (st : FpOpcuaServer B)
    (prior : dict) (b' : B) :
  h_returns_async h = true ->
  estimates h input_args (fp_system st) default_prior_info = Some (prior, b') ->
  is_Some (event_gens st !! h_service_name h) ->
  status_variables_linked (variables st) (fp_get_status b') ->
  Forall (fun k => k ∈ dt_fields (h_immediate_result_datatype h))
         (dict_keys prior) ->
  let immediate_result :=
    Variant (mkExtObject (dt_name (h_immediate_result_datatype h)) prior)
            ExtensionObject in
  exists st' task,
    service_responding_func h input_args st = (Ok immediate_result, st') /\
    loop_tasks st !! task = None /\
    loop_tasks st' !! task =
      Some (mkTask (EventTriggeringFunc (h_func h) (h_service_name h) input_args)
                   Pending [TasksRunningDiscard]) /\
    task ∈ tasks_running st' /\
    fp_system st' = b' /\
    events_emitted st' = events_emitted st /\
    (forall func',
        fst (service_responding_func (with_func func' h) input_args st)
        = Ok immediate_result) /\
    (forall func_prior_info,
        h_func_prior_info h = Some func_prior_info ->
        py_call func_prior_info input_args (fp_system st)
        = (Ok (RetDict prior), b')) /\
    (h_func_prior_info h = None ->
     service_responding_func h input_args st
     = (Ok (Variant
              (mkExtObject (dt_name (h_immediate_result_datatype h))
                 [ ("ExpectedServiceExecutionDuration", VFloat (-1));
                   ("ServiceTriggerResult", VInt 1);
                   ("ServiceResultMessage", VStr "");
                   ("ServiceResultCode", VInt 1) ])
              ExtensionObject), st') /\
     b' = fp_system st).
Proof.
  intros Hasync Hest Hgen Hlinked Hkeys immediate_result.
  destruct (async_handler_run h input_args st prior b')
    as (st' & Hrun & Htasks & Hrunning & Hb & Hev & _); try assumption.
  exists st', (fresh (dom (loop_tasks st))). cbv zeta in *.
  split; [exact Hrun|]. split.
  { apply not_elem_of_dom. apply is_fresh. }
  split; [rewrite Htasks; apply lookup_insert_eq|].
  split; [rewrite Hrunning; apply elem_of_union_l, elem_of_singleton; reflexivity|].
  split; [exact Hb|]. split; [exact Hev|]. split; [|split].
  - intros func'.
    destruct (async_handler_run (with_func func' h) input_args st prior b')
      as (st'' & Hrun' & _); try assumption.
    cbv zeta in Hrun'. rewrite Hrun'. reflexivity.
  - intros func_prior_info Hsome. unfold estimates in Hest.
    rewrite Hsome in Hest.
    destruct (py_call func_prior_info input_args (fp_system st))
      as [[[d|]|e] b'']; try discriminate.
    now injection Hest as -> ->.
  - intros Hnone. unfold estimates in Hest. rewrite Hnone in Hest.
    injection Hest as <- <-. split; [exact Hrun | reflexivity].
Qed.

Lemma async_reply_is_prior_info_witness :
  (exists st',
     service_responding_func (H := LinkExample.backend)
       (LinkExample.handler "AddPart") LinkExample.add_part_args
       LinkExample.linked_server
     = (Ok (Variant (mkExtObject "ServiceExecutionAsyncResultDataType"
                       (Mockup.add_part_prior_info LinkExample.add_part_args))
                    ExtensionObject), st') /\
     fp_system st' = Examples.fresh_ready) /\
  (exists st',
     service_responding_func (H := LinkExample.backend)
       LinkExample.handler_without_estimator LinkExample.add_part_args
       LinkExample.linked_server
     = (Ok (Variant (mkExtObject "ServiceExecutionAsyncResultDataType"
                       [ ("ExpectedServiceExecutionDuration", VFloat (-1));
                         ("ServiceTriggerResult", VInt 1);
                         ("ServiceResultMessage", VStr "");
                         ("ServiceResultCode", VInt 1) ])
                    ExtensionObject), st')).
Proof.
  split.
  - destruct (@async_reply_is_prior_info _ LinkExample.backend
                (LinkExample.handler "AddPart") LinkExample.add_part_args
                LinkExample.linked_server
                (Mockup.add_part_prior_info LinkExample.add_part_args)
                Examples.fresh_ready)
      as (st' & task & Hrun & _ & _ & _ & Hb & _).
    + vm_compute. reflexivity.
    + vm_compute. reflexivity.
    + vm_compute. eauto.
    + apply (bool_decide_unpack _). vm_compute. exact I.
    + apply (bool_decide_unpack _). vm_compute. exact I.
    + exists st'. split; [exact Hrun | exact Hb].
  - destruct (@async_reply_is_prior_info _ LinkExample.backend
                LinkExample.handler_without_estimator LinkExample.add_part_args
                LinkExample.linked_server default_prior_info
                Examples.fresh_ready)
      as (st' & task & _ & _ & _ & _ & _ & _ & _ & _ & Hdefault).
    + reflexivity.
    + reflexivity.
    + vm_compute. eauto.
    + apply (bool_decide_unpack _). vm_compute. exact I.
    + apply (bool_decide_unpack _). vm_compute. exact I.
    + exists st'. apply Hdefault. reflexivity.
Defined.

(** ** Background failures and the immediate path *)

(** C2. A backend method that raises during its background execution: the
    exception is the outcome of the task; no completion event is emitted and
    the event generator gets no error outcome.  The status is published as
    usual, and the task leaves the registry when the event loop runs its
    done callback. *)
Theorem background_exception_is_reraised :
  let '(_, st1) :=
    service_responding_func (H := FaultyExample.backend) FaultyExample.handler
      FaultyExample.trace_part_args FaultyExample.linked_server in
  let task := fresh (dom (loop_tasks FaultyExample.linked_server)) in
  exists st2 st3,
    loop_run_task (H := FaultyExample.backend) task st1 = Some st2 /\
    t_state <$> loop_tasks st2 !! task
      = Some (Finished (Exc (Raised "image acquisition failed"))) /\
    events_emitted st2 = [] /\
    eg_attrs <$> event_gens st2 !! "TracePart" = Some [] /\
    attribute_values st2 !! 1 = Some (VRunState SYSTEM_ERROR, SByte) /\
    loop_run_callbacks task st2 = Some st3 /\
    tasks_running st3 = ∅ /\
    events_emitted st3 = [] /\
    attribute_values st3 !! 1 = Some (VRunState SYSTEM_ERROR, SByte).
Proof.
  vm_compute. do 2 eexists. split; [reflexivity|]. vm_compute.
  repeat split.
Qed.

(** The handler of a service that returns immediately, step by step: the
    reply is built from the backend's result alone. *)
Lemma sync_handler_run {B : Type} `{FpSystem B} (h : Handler B)
    (input_args : list value) (st : FpOpcuaServer B) prior b1 f sync_results b2 :
  h_returns_async h = false ->
  estimates h input_args (fp_system st) [] = Some (prior, b1) ->
  h_func h = Def f ->
  f input_args b1 = (Ok (RetDict sync_results), b2) ->
  status_variables_linked (variables st) (fp_get_status b2) ->
  Forall (fun k => k ∈ dt_fields (h_immediate_result_datatype h))
         (dict_keys sync_results) ->
  exists st',
    service_responding_func h input_args st
    = (Ok (Variant (mkExtObject (dt_name (h_immediate_result_datatype h))
                                sync_results) ExtensionObject), st') /\
    fp_system st' = b2.
Proof.
  intros Hsync Hest Hdef Hf Hlinked Hkeys.
  apply status_variables_linked_spec in Hlinked as (_ & Hex & _).
  pose proof (construct_declared _ _ Hkeys) as Hcons.
  unfold service_responding_func. rewrite Hsync.
  unfold service_responding_func_sync, get_prior_info, estimates in *.
  unfold publish_status.
  destruct (h_func_prior_info h) as [fpi|].
  - unfold_acts.
    destruct (py_call fpi input_args (fp_system st)) as [[[d|]|e] b''] eqn:Hcall;
      try discriminate.
    injection Hest as -> ->. unfold_acts. rewrite Hdef. unfold py_call.
    rewrite Hf. unfold_acts.
    rewrite update_state_published by (server_simpl; exact Hex).
    rewrite Hcons. eexists. split; reflexivity.
  - injection Hest as <- <-. unfold_acts. rewrite Hdef. unfold py_call.
    rewrite Hf. unfold_acts.
    rewrite update_state_published by (server_simpl; exact Hex).
    rewrite Hcons. eexists. split; reflexivity.
Qed.

(** C3. A handler of a service that returns immediately, in front of a
    backend whose [get_status] is a plain function and whose estimator
    answers with three fields: the reply holds the fields of the backend's
    result and none of the estimator's, although the merged dictionary
    holds them. *)
Theorem sync_reply_drops_prior_info :
  let '(r, _) :=
    service_responding_func (H := SyncExample.backend) SyncExample.handler []
      SyncExample.server0 in
  r = Ok (Variant (mkExtObject "GetStatusServiceExecutionSyncResultDataType"
                     (FpStatus_as_dict SyncExample.ready_status))
                  ExtensionObject) /\
  dict_get "ServiceResultCode" (FpStatus_as_dict SyncExample.ready_status)
    = None /\
  dict_get "ServiceResultCode"
    (dict_update SyncExample.sync_success_prior_info
                 (FpStatus_as_dict SyncExample.ready_status))
    = Some (VInt 0).
Proof. vm_compute. repeat split. Qed.

(** In front of the simulated backend, whose methods are coroutine
    functions, the same handler calls [get_status] without awaiting it and
    fails on unpacking the coroutine. *)
Example sync_handler_on_coroutine_function :
  fst (service_responding_func (H := LinkExample.backend)
         SyncExample.mockup_handler [] LinkExample.linked_server)
  = Exc (TypeError "object is not a mapping").
Proof. vm_compute. reflexivity. Qed.

(** ** The task registry *)

Section Registry.
Context {B : Type} `{FpSystem B}.
Implicit Types (st : FpOpcuaServer B) (h : Handler B).

Lemma act_bind_run {A C} (a : Act B A) (k : A -> Act B C) st :
  (a ≫= k) st
  = match a st with
    | (Ok x, st1) => k x st1
    | (Exc e, st1) => (Exc e, st1)
    end.
Proof. reflexivity. Qed.

Lemma keeps_get_prior_info {X} (f : FpOpcuaServer B -> X) h input_args without :
  (forall b st, f (set_fp_system b st) = f st) ->
  (forall lvl msg st, f (add_log lvl msg st) = f st) ->
  keeps f (get_prior_info h input_args without).
Proof.
  intros Hb Hl. unfold get_prior_info. destruct (h_func_prior_info h).
  - apply keeps_bind; [now apply keeps_backend_call|].
    intros r. apply keeps_as_mapping.
  - apply keeps_bind; [now apply keeps_logger | intros _; apply keeps_ret].
Qed.

Lemma sync_handler_registry h input_args :
  keeps registry (service_responding_func_sync h input_args).
Proof.
  unfold service_responding_func_sync.
  apply keeps_bind; [now apply keeps_logger|]. intros _.
  apply keeps_bind; [now apply keeps_get_prior_info|]. intros prior.
  apply keeps_bind; [now apply keeps_backend_call|]. intros res.
  apply keeps_bind; [apply keeps_as_mapping|]. intros kwargs. cbv zeta.
  apply keeps_bind; [now apply keeps_publish_status|]. intros _.
  apply keeps_bind; [apply keeps_lift_result | intros obj; apply keeps_ret].
Qed.

Lemma async_handler_registry h input_args st r st' :
  service_responding_func_async h input_args st = (r, st') ->
  registry st' = registry st \/
  spawned (EventTriggeringFunc (h_func h) (h_service_name h) input_args) st st'.
Proof.
  unfold service_responding_func_async. intros Hrun.
  rewrite act_bind_run in Hrun.
  destruct (logger INFO _ st) as [[[]|e] st1] eqn:H1;
    [|discriminate H1].
  apply (keeps_logger registry) in H1; [|reflexivity].
  rewrite act_bind_run in Hrun.
  destruct (get_prior_info h input_args default_prior_info st1)
    as [[prior|e] st2] eqn:H2;
    apply (keeps_get_prior_info registry) in H2; try reflexivity;
    [|injection Hrun as _ <-; left; congruence].
  rewrite act_bind_run in Hrun.
  destruct (lookup_event_gen (h_service_name h) st2) as [[g|e] st3] eqn:H3;
    apply (keeps_lookup_event_gen registry) in H3;
    [|injection Hrun as _ <-; left; congruence].
  assert (Hreg : registry st3 = registry st) by congruence.
  clear H1 H2 H3. unfold registry in Hreg. injection Hreg as Hlt Htr.
  rewrite act_bind_run in Hrun. unfold create_task at 1 in Hrun.
  rewrite act_bind_run in Hrun. unfold tasks_running_add at 1 in Hrun.
  rewrite act_bind_run in Hrun. unfold add_done_callback at 1 in Hrun.
  match type of Hrun with
  | (_ ≫= _) ?s = _ => set (st4 := s) in Hrun
  end.
  assert (Hsp : spawned (EventTriggeringFunc (h_func h) (h_service_name h)
                           input_args) st st4).
  { unfold spawned, st4. server_simpl. rewrite alter_insert_eq.
    cbn [t_coro t_state t_callbacks app]. rewrite Hlt, Htr. split; reflexivity. }
  clearbody st4.
  assert (Hk : registry st' = registry st4).
  { revert Hrun. generalize st4 r st'.
    change (keeps registry
      (publish_status;;
       immediate_result ← lift_result
         (construct (h_immediate_result_datatype h) prior);
       mret (Variant immediate_result ExtensionObject))).
    apply keeps_bind; [now apply keeps_publish_status|]. intros _.
    apply keeps_bind; [apply keeps_lift_result | intros obj; apply keeps_ret]. }
  right. unfold registry in Hk. injection Hk as Hlt' Htr'.
  unfold spawned in *. rewrite Hlt', Htr'. exact Hsp.
Qed.

Lemma init_threads_spawned st :
  spawned (PeriodicStateUpdate (25 # 100)) st (snd (init_threads st)).
Proof.
  unfold init_threads, spawned. unfold_acts. rewrite alter_insert_eq.
  split; reflexivity.
Qed.

Lemma run_done_callbacks_registry t cbs st :
  loop_tasks (fold_left (fun st cb => run_done_callback t cb st) cbs st)
  = loop_tasks st /\
  tasks_running (fold_left (fun st cb => run_done_callback t cb st) cbs st)
  = fold_left (fun s cb => match cb with TasksRunningDiscard => s ∖ {[t]} end)
              cbs (tasks_running st).
Proof.
  revert st. induction cbs as [|[] cbs IH]; intros st; [split; reflexivity|].
  cbn [fold_left]. destruct (IH (run_done_callback t TasksRunningDiscard st))
    as [-> ->]. split; reflexivity.
Qed.

Lemma finish_task_finished t r st0 st :
  registry st = registry st0 ->
  (exists task, loop_tasks st0 !! t = Some task /\ t_state task = Pending) ->
  finished_at t st0 (finish_task t r st).
Proof.
  intros Hreg (task & Ht & Hp). unfold registry in Hreg. injection Hreg as Hlt Htr.
  exists task, r. split; [exact Ht|]. split; [exact Hp|].
  unfold finish_task. rewrite Hlt, Ht. server_simpl.
  rewrite Htr. split; reflexivity.
Qed.

(** What a round of the event loop does to the registry. *)
Lemma loop_run_task_registry t st st' :
  loop_run_task t st = Some st' ->
  registry st' = registry st \/ finished_at t st st'.
Proof.
  unfold loop_run_task. intros Hrun.
  destruct (loop_tasks st !! t) as [[c [|r] cbs]|] eqn:Ht; try discriminate;
    [|destruct c; discriminate].
  destruct c as [func service_name input_args|interval].
  - destruct (event_triggering_func func service_name input_args st)
      as [r st1] eqn:Hbody. injection Hrun as <-. right.
    apply finish_task_finished; [|eauto].
    revert Hbody. apply keeps_try_finally.
    + now apply keeps_event_triggering_body.
    + now apply keeps_publish_status.
  - destruct (publish_status st) as [[u|e] st1] eqn:Hpub;
      injection Hrun as <-;
      apply (keeps_publish_status registry) in Hpub; try reflexivity.
    + now left.
    + right. apply finish_task_finished; eauto.
Qed.

(** What running the done callbacks of a task does to the registry. *)
Lemma loop_run_callbacks_released t st st' :
  loop_run_callbacks t st = Some st' -> released_at t st st'.
Proof.
  unfold loop_run_callbacks. intros Hrun.
  destruct (loop_tasks st !! t) as [[c [|r] [|cb cbs]]|] eqn:Ht;
    try discriminate.
  injection Hrun as <-. exists (mkTask c (Finished r) (cb :: cbs)), r.
  split; [exact Ht|]. split; [reflexivity|]. split; [discriminate|].
  cbn [t_coro t_callbacks].
  destruct (run_done_callbacks_registry t (cb :: cbs)
              (set_loop_tasks
                 (<[t:=mkTask c (Finished r) []]> (loop_tasks st)) st))
    as [Hlt Htr].
  split; [exact Hlt | exact Htr].
Qed.

Lemma registry_inv_same st st' :
  registry st' = registry st -> registry_inv st -> registry_inv st'.
Proof.
  unfold registry, registry_inv. intros Heq. injection Heq as -> ->. auto.
Qed.

Lemma registry_inv_spawned c st st' :
  spawned c st st' -> registry_inv st -> registry_inv st'.
Proof.
  intros [Hlt Htr] [Hreg Hcb]. cbv zeta in *.
  assert (Hfresh : loop_tasks st !! fresh (dom (loop_tasks st)) = None).
  { apply not_elem_of_dom, is_fresh. }
  split.
  - intros t. rewrite Htr, Hlt, elem_of_union, elem_of_singleton, Hreg.
    destruct (decide (t = fresh (dom (loop_tasks st)))) as [->|Hne].
    + rewrite lookup_insert_eq. split; [eauto|auto].
    + rewrite lookup_insert_ne by congruence. tauto.
  - intros t task. rewrite Hlt.
    destruct (decide (t = fresh (dom (loop_tasks st)))) as [->|Hne].
    + rewrite lookup_insert_eq. intros [= <-]. now left.
    + rewrite lookup_insert_ne by congruence. apply Hcb.
Qed.

Lemma registry_inv_finished t st st' :
  finished_at t st st' -> registry_inv st -> registry_inv st'.
Proof.
  intros (task & r & Ht & Hp & Hlt & Htr) [Hreg Hcb].
  assert (Hcbs : t_callbacks task = [TasksRunningDiscard]).
  { destruct (Hcb t task Ht) as [Hc|[_ Hf]]; [exact Hc|].
    unfold is_finished in Hf. rewrite Hp in Hf. discriminate. }
  split.
  - intros t'. rewrite Htr, Hlt, Hreg.
    destruct (decide (t' = t)) as [->|Hne].
    + rewrite lookup_insert_eq. split.
      * intros _. eexists. split; [reflexivity|]. exact Hcbs.
      * intros _. eauto.
    + rewrite lookup_insert_ne by congruence. tauto.
  - intros t' task'. rewrite Hlt.
    destruct (decide (t' = t)) as [->|Hne].
    + rewrite lookup_insert_eq. intros [= <-]. now left.
    + rewrite lookup_insert_ne by congruence. apply Hcb.
Qed.

Lemma registry_inv_released t st st' :
  released_at t st st' -> registry_inv st -> registry_inv st'.
Proof.
  intros (task & r & Ht & Hs & Hne & Hlt & Htr) [Hreg Hcb].
  assert (Hcbs : t_callbacks task = [TasksRunningDiscard]).
  { destruct (Hcb t task Ht) as [Hc|[Hc _]]; [exact Hc | contradiction]. }
  rewrite Hcbs in Htr. cbn [fold_left] in Htr. split.
  - intros t'. rewrite Htr, Hlt, elem_of_difference, elem_of_singleton, Hreg.
    destruct (decide (t' = t)) as [->|Hne'].
    + rewrite lookup_insert_eq. split; [tauto|].
      intros (task' & [= <-] & Hc). discriminate Hc.
    + rewrite lookup_insert_ne by congruence. tauto.
  - intros t' task'. rewrite Hlt.
    destruct (decide (t' = t)) as [->|Hne'].
    + rewrite lookup_insert_eq. intros [= <-]. right. split; reflexivity.
    + rewrite lookup_insert_ne by congruence. apply Hcb.
Qed.

Lemma registry_inv_step st st' :
  server_step st st' -> registry_inv st -> registry_inv st'.
Proof.
  intros Hstep Hinv.
  destruct Hstep as [st|h input_args st|t st st' Hrun|t st st' Hrun].
  - eapply registry_inv_spawned; [apply init_threads_spawned | exact Hinv].
  - unfold service_responding_func.
    destruct (h_returns_async h).
    + destruct (service_responding_func_async h input_args st) as [r st'] eqn:Hr.
      destruct (async_handler_registry _ _ _ _ _ Hr) as [Hsame|Hsp].
      * eapply registry_inv_same; eauto.
      * eapply registry_inv_spawned; eauto.
    + destruct (service_responding_func_sync h input_args st) as [r st'] eqn:Hr.
      eapply registry_inv_same; [|exact Hinv].
      eapply sync_handler_registry; eauto.
  - destruct (loop_run_task_registry _ _ _ Hrun) as [Hsame|Hfin].
    + eapply registry_inv_same; eauto.
    + eapply registry_inv_finished; eauto.
  - apply (registry_inv_released t st st'); [|exact Hinv].
    apply loop_run_callbacks_released. exact Hrun.
Qed.

Lemma registry_inv_reachable st : reachable st -> registry_inv st.
Proof.
  intros (st0 & Htr & Hlt & Hsteps).
  induction Hsteps as [st0|st0 st1 st2 _ IH Hstep].
  - split.
    + intros t. rewrite Htr, Hlt. split; [set_solver|].
      intros (task & Ht & _). rewrite lookup_empty in Ht. discriminate.
    + intros t task. rewrite Hlt, lookup_empty. discriminate.
  - eapply registry_inv_step; eauto.
Qed.

(** Running the done callbacks of a task takes its handle out of the
    registry; it was there, the task was finished, and the callbacks cannot
    run again. *)
Lemma loop_run_callbacks_discards t st st' :
  registry_inv st -> loop_run_callbacks t st = Some st' ->
  t ∈ tasks_running st /\
  (exists task, loop_tasks st !! t = Some task /\ is_finished task = true) /\
  tasks_running st' = tasks_running st ∖ {[t]} /\
  loop_run_callbacks t st' = None.
Proof.
  intros [Hreg Hcb] Hrun.
  destruct (loop_run_callbacks_released _ _ _ Hrun)
    as (task & r & Ht & Hs & Hne & Hlt & Htr).
  assert (Hcbs : t_callbacks task = [TasksRunningDiscard]).
  { destruct (Hcb t task Ht) as [Hc|[Hc _]]; [exact Hc | contradiction]. }
  rewrite Hcbs in Htr. cbn [fold_left] in Htr.
  split; [apply Hreg; eauto|]. split.
  { exists task. split; [exact Ht|]. unfold is_finished. now rewrite Hs. }
  split; [exact Htr|].
  unfold loop_run_callbacks. now rewrite Hlt, lookup_insert_eq.
Qed.

End Registry.

Section RegistryCounts.
Context {B : Type} `{FpSystem B}.
Implicit Types (st : FpOpcuaServer B).

Lemma elem_of_dispatched st t :
  t ∈ dispatched st <->
  exists task, loop_tasks st !! t = Some task /\ is_dispatch task = true.
Proof.
  unfold dispatched. rewrite elem_of_dom. unfold is_Some.
  setoid_rewrite map_lookup_filter_Some. reflexivity.
Qed.

Lemma elem_of_completed st t :
  t ∈ completed st <->
  exists task, loop_tasks st !! t = Some task /\
               is_dispatch task = true /\ is_finished task = true.
Proof.
  unfold completed. rewrite elem_of_dom. unfold is_Some.
  setoid_rewrite map_lookup_filter_Some. reflexivity.
Qed.

Lemma elem_of_released st t :
  t ∈ released st <->
  exists task, loop_tasks st !! t = Some task /\
               is_dispatch task = true /\ callbacks_run task = true.
Proof.
  unfold released. rewrite elem_of_dom. unfold is_Some.
  setoid_rewrite map_lookup_filter_Some. reflexivity.
Qed.

Lemma elem_of_publishers_registered st t :
  t ∈ publishers_registered st <->
  exists task, loop_tasks st !! t = Some task /\
               is_dispatch task = false /\ callbacks_run task = false.
Proof.
  unfold publishers_registered. rewrite elem_of_dom. unfold is_Some.
  setoid_rewrite map_lookup_filter_Some. reflexivity.
Qed.

Lemma completed_subseteq st : completed st ⊆ dispatched st.
Proof.
  intros t. rewrite elem_of_completed, elem_of_dispatched.
  intros (task & ? & ? & ?). eauto.
Qed.

Lemma released_subseteq st : released st ⊆ dispatched st.
Proof.
  intros t. rewrite elem_of_released, elem_of_dispatched.
  intros (task & ? & ? & ?). eauto.
Qed.

(** Under the invariant, the callback of a task is pending or has run. *)
Lemma registered_iff_callbacks st (task : Task B) t :
  registry_inv st -> loop_tasks st !! t = Some task ->
  (t_callbacks task = [TasksRunningDiscard] <-> callbacks_run task = false) /\
  (callbacks_run task = true -> is_finished task = true).
Proof.
  intros [_ Hcb] Ht. unfold callbacks_run.
  destruct (Hcb t task Ht) as [->|[-> Hf]]; split; try tauto;
    try (split; congruence); discriminate.
Qed.

(** A callback that has run belongs to a completed call. *)
Lemma released_completed st : registry_inv st -> released st ⊆ completed st.
Proof.
  intros Hinv t. rewrite elem_of_released, elem_of_completed.
  intros (task & Ht & Hd & Hc). exists task. split; [exact Ht|].
  split; [exact Hd|]. now apply (registered_iff_callbacks st task t).
Qed.

(** The handles of async dispatches in the registry are those dispatched
    whose done callback has not run; the rest of the registry are
    publishers whose callback has not run. *)
Lemma registry_split st :
  registry_inv st ->
  tasks_running st ∩ dispatched st = dispatched st ∖ released st /\
  tasks_running st = (dispatched st ∖ released st) ∪ publishers_registered st /\
  (dispatched st ∖ released st) ## publishers_registered st.
Proof.
  intros Hinv. pose proof Hinv as [Hreg _]. split; [|split].
  - apply set_eq. intros t.
    rewrite elem_of_intersection, elem_of_difference, Hreg,
      elem_of_dispatched, elem_of_released. split.
    + intros [(task & Ht & Hc) (task' & Ht' & Hd)]. split; [eauto|].
      intros (task'' & Ht'' & _ & Hc'').
      apply (registered_iff_callbacks st task t Hinv Ht) in Hc. congruence.
    + intros [(task & Ht & Hd) Hn]. split; [|eauto].
      exists task. split; [exact Ht|].
      apply (registered_iff_callbacks st task t Hinv Ht).
      destruct (callbacks_run task) eqn:Hc; [|reflexivity].
      exfalso. apply Hn. eauto.
  - apply set_eq. intros t.
    rewrite elem_of_union, elem_of_difference, Hreg, elem_of_dispatched,
      elem_of_released, elem_of_publishers_registered. split.
    + intros (task & Ht & Hc).
      apply (registered_iff_callbacks st task t Hinv Ht) in Hc.
      destruct (is_dispatch task) eqn:Hd.
      * left. split; [eauto|]. intros (task' & Ht' & _ & Hc'). congruence.
      * right. eauto.
    + intros [[(task & Ht & Hd) Hn]|(task & Ht & _ & Hc)].
      * exists task. split; [exact Ht|].
        apply (registered_iff_callbacks st task t Hinv Ht).
        destruct (callbacks_run task) eqn:Hc; [|reflexivity].
        exfalso. apply Hn. eauto.
      * exists task. split; [exact Ht|].
        now apply (registered_iff_callbacks st task t Hinv Ht).
  - intros t. rewrite elem_of_difference, elem_of_dispatched,
      elem_of_publishers_registered.
    intros [(task & Ht & Hd) _] (task' & Ht' & Hd' & _). congruence.
Qed.

(** A handle that a handler call adds to the dispatched ones is in the
    registry when the handler returns. *)
Lemma handler_registers st (h : Handler B) input_args t :
  registry_inv st ->
  let st' := snd (service_responding_func h input_args st) in
  t ∈ dispatched st' -> t ∉ dispatched st -> t ∈ tasks_running st'.
Proof.
  intros Hinv st' Hnew Hold.
  assert (Hinv' : registry_inv st').
  { eapply registry_inv_step; [apply step_service_call | exact Hinv]. }
  assert (Hcase : registry st' = registry st \/
                  exists c, spawned c st st').
  { unfold st', service_responding_func. destruct (h_returns_async h).
    - destruct (service_responding_func_async h input_args st) as [r s1] eqn:Hr.
      destruct (async_handler_registry _ _ _ _ _ Hr); eauto.
    - destruct (service_responding_func_sync h input_args st) as [r s1] eqn:Hr.
      left. eapply sync_handler_registry; eauto. }
  apply elem_of_dispatched in Hnew as (task & Ht & Hd).
  destruct Hcase as [Hsame|[c [Hlt Htr]]].
  - exfalso. apply Hold. apply elem_of_dispatched.
    unfold registry in Hsame. injection Hsame as Hlt _. rewrite <- Hlt. eauto.
  - cbv zeta in *. rewrite Htr, elem_of_union, elem_of_singleton.
    destruct (decide (t = fresh (dom (loop_tasks st)))) as [->|Hne]; [now left|].
    exfalso. apply Hold. apply elem_of_dispatched.
    rewrite Hlt, lookup_insert_ne in Ht by congruence. eauto.
Qed.

End RegistryCounts.

(** C4, as the code has it.  In every state a server reaches: a handle is in
    [tasks_running] exactly until the done callback of its task has run; a
    task that is not finished is registered, so no handle is removed before
    completion; the event loop runs the callback of a finished task in a
    later iteration, which removes the handle and cannot happen twice; a
    handle that a handler call dispatches is in the registry when the
    handler returns.  The handles of async dispatches in the registry are
    the dispatched ones whose callback has not run: as many as dispatched
    minus released, which is at least dispatched minus completed, and none
    once the callbacks of all dispatched calls have run.  The registry as a
    whole also holds the handles of the periodic publishers whose callback
    has not run. *)
Theorem registry_tracks_unfinished_tasks {B : Type} `{FpSystem B}
    (st : FpOpcuaServer B) :
  reachable st ->
  (forall t, t ∈ tasks_running st <->
     exists task, loop_tasks st !! t = Some task /\
                  callbacks_run task = false) /\
  (forall t task, loop_tasks st !! t = Some task -> t_state task = Pending ->
                  t ∈ tasks_running st) /\
  (forall t st', loop_run_callbacks t st = Some st' ->
     t ∈ tasks_running st /\
     (exists task, loop_tasks st !! t = Some task /\ is_finished task = true) /\
     tasks_running st' = tasks_running st ∖ {[t]} /\
     loop_run_callbacks t st' = None) /\
  (forall h input_args t,
     let st' := snd (service_responding_func h input_args st) in
     t ∈ dispatched st' -> t ∉ dispatched st -> t ∈ tasks_running st') /\
  tasks_running st ∩ dispatched st = dispatched st ∖ released st /\
  released st ⊆ completed st /\
  size (tasks_running st ∩ dispatched st)
    = size (dispatched st) - size (released st) /\
  size (dispatched st) - size (completed st)
    <= size (tasks_running st ∩ dispatched st) /\
  (dispatched st ⊆ released st -> tasks_running st ∩ dispatched st = ∅) /\
  size (tasks_running st)
    = size (dispatched st) - size (released st)
      + size (publishers_registered st).
Proof.
  intros Hreach. pose proof (registry_inv_reachable st Hreach) as Hinv.
  destruct (registry_split st Hinv) as (Hdisp & Hall & Hdisj).
  pose proof Hinv as [Hreg Hcb].
  assert (Hsize : size (tasks_running st ∩ dispatched st)
                  = size (dispatched st) - size (released st)).
  { rewrite Hdisp. apply size_difference, released_subseteq. }
  split.
  { intros t. rewrite Hreg. split; intros (task & Ht & Hc); exists task;
      (split; [exact Ht|]); now apply (registered_iff_callbacks st task t). }
  split.
  { intros t task Ht Hp. apply Hreg. exists task. split; [exact Ht|].
    destruct (Hcb t task Ht) as [Hc|[_ Hf]]; [exact Hc|].
    unfold is_finished in Hf. rewrite Hp in Hf. discriminate. }
  split; [intros t st'; now apply loop_run_callbacks_discards|].
  split; [intros h input_args t; now apply handler_registers|].
  split; [exact Hdisp|]. split; [now apply released_completed|].
  split; [exact Hsize|]. split; [|split].
  - rewrite Hsize.
    pose proof (subseteq_size _ _ (released_completed st Hinv)). lia.
  - intros Hsub. rewrite Hdisp. apply elem_of_equiv_empty_L.
    intros t [Hin Hn]%elem_of_difference. apply Hn, Hsub, Hin.
  - rewrite Hall, size_union by exact Hdisj.
    rewrite size_difference by apply released_subseteq. reflexivity.
Qed.

Lemma registry_tracks_unfinished_tasks_witness :
  size (tasks_running LinkExample.idle_server
        ∩ dispatched LinkExample.idle_server)
    = size (dispatched LinkExample.idle_server)
      - size (released LinkExample.idle_server) /\
  size (dispatched LinkExample.idle_server) = 1 /\
  size (completed LinkExample.idle_server) = 1 /\
  size (released LinkExample.idle_server) = 0 /\
  size (tasks_running LinkExample.idle_server) = 2.
Proof.
  destruct (@registry_tracks_unfinished_tasks _ LinkExample.backend
              LinkExample.idle_server)
    as (_ & _ & _ & _ & _ & _ & Hsize & _ & _ & Htotal).
  - exists LinkExample.linked_server.
    split; [reflexivity|]. split; [reflexivity|].
    eapply server_steps_step;
      [eapply server_steps_step;
         [eapply server_steps_step; [apply server_steps_refl|] |] |].
    + apply step_init_threads.
    + apply (step_service_call (LinkExample.handler "AddPart")
               LinkExample.add_part_args).
    + apply (step_loop_run LinkExample.add_part_task). vm_compute. reflexivity.
  - split; [exact Hsize|]. rewrite Htotal. vm_compute. repeat split.
Defined.

(** The size of the registry as C4 states it fails in two ways.  On a
    server whose publisher was started and that has dispatched nothing, the
    registry holds the publisher's handle.  And on a server whose one
    dispatched call has completed, the handle of that call is still in the
    registry until the event loop has run the task's done callback; only
    then is it gone. *)
Lemma registry_size_counterexample :
  reachable (H := LinkExample.backend) LinkExample.started_server /\
  dispatched LinkExample.started_server = ∅ /\
  completed LinkExample.started_server = ∅ /\
  ~ (size (tasks_running LinkExample.started_server)
     <= size (dispatched LinkExample.started_server)
        - size (completed LinkExample.started_server)) /\
  size (tasks_running LinkExample.started_server) <> 0 /\
  reachable (H := LinkExample.backend) LinkExample.idle_server /\
  completed LinkExample.idle_server = dispatched LinkExample.idle_server /\
  ~ (size (tasks_running LinkExample.idle_server
           ∩ dispatched LinkExample.idle_server)
     <= size (dispatched LinkExample.idle_server)
        - size (completed LinkExample.idle_server)) /\
  loop_run_callbacks LinkExample.add_part_task
    LinkExample.idle_server = Some LinkExample.settled_server /\
  tasks_running LinkExample.settled_server
  ∩ dispatched LinkExample.settled_server = ∅.
Proof.
  assert (Hstarted : reachable (H := LinkExample.backend)
                       LinkExample.started_server).
  { exists LinkExample.linked_server.
    split; [reflexivity|]. split; [reflexivity|].
    eapply server_steps_step; [apply server_steps_refl | apply step_init_threads]. }
  assert (Hidle : reachable (H := LinkExample.backend) LinkExample.idle_server).
  { exists LinkExample.linked_server.
    split; [reflexivity|]. split; [reflexivity|].
    eapply server_steps_step;
      [eapply server_steps_step;
         [eapply server_steps_step; [apply server_steps_refl|] |] |].
    + apply step_init_threads.
    + apply (step_service_call (LinkExample.handler "AddPart")
               LinkExample.add_part_args).
    + apply (step_loop_run LinkExample.add_part_task). vm_compute. reflexivity. }
  split; [exact Hstarted|].
  split; [vm_compute; reflexivity|]. split; [vm_compute; reflexivity|].
  split; [vm_compute; lia|]. split; [vm_compute; lia|].
  split; [exact Hidle|].
  split; [vm_compute; reflexivity|]. split; [vm_compute; lia|].
  split; [vm_compute; reflexivity|]. vm_compute. reflexivity.
Qed.

(** * Further properties of the code *)

(** ** The name transforms on arbitrary names *)

Module NameTransforms.
Import PyStr NameFacts RoundTrip.

Definition not_upper (c : ascii) : bool := negb (isupper c).

Lemma lower_is_not_upper c : isupper (lower c) = false.
Proof.
  destruct c as [[] [] [] [] [] [] [] []]; vm_compute; congruence.
Qed.

Lemma underscore_not_upper : isupper "_" = false.
Proof. reflexivity. Qed.

Lemma str_forall_app p (a b : string) :
  str_forall p (a +:+ b) = str_forall p a && str_forall p b.
Proof.
  induction a as [|c a IH]; [reflexivity|].
  rewrite append_cons. simpl. now rewrite IH, andb_assoc.
Qed.

Lemma expand_not_upper (s : string) : str_forall not_upper (expand s) = true.
Proof.
  induction s as [|c s IH]; [reflexivity|].
  rewrite expand_cons, str_forall_app, IH, andb_true_r.
  unfold not_upper. destruct (isupper c) eqn:Hc; simpl.
  - now rewrite lower_is_not_upper.
  - now rewrite Hc.
Qed.

Lemma lstrip_forall p ch (s : string) :
  str_forall p s = true -> str_forall p (lstrip ch s) = true.
Proof.
  induction s as [|c s IH]; [reflexivity|]. intros Hs. simpl.
  destruct (Ascii.eqb c ch); [|exact Hs].
  simpl in Hs. apply andb_prop in Hs as [_ Hs]. auto.
Qed.

(** A string that does not start with the character. *)
Definition not_leading (ch : ascii) (s : string) : bool :=
  match s with
  | EmptyString => true
  | String c _ => negb (Ascii.eqb c ch)
  end.

Lemma lstrip_not_leading ch (s : string) : not_leading ch (lstrip ch s) = true.
Proof.
  induction s as [|c s IH]; [reflexivity|]. simpl.
  destruct (Ascii.eqb c ch) eqn:Hc; [exact IH|]. simpl. now rewrite Hc.
Qed.

Lemma lstrip_fixed ch (s : string) : not_leading ch s = true -> lstrip ch s = s.
Proof.
  destruct s as [|c s]; [reflexivity|]. simpl. intros Hc.
  apply negb_true_iff in Hc. now rewrite Hc.
Qed.

Lemma expand_fixed (s : string) : str_forall not_upper s = true -> expand s = s.
Proof.
  induction s as [|c s IH]; [reflexivity|]. simpl. intros Hs.
  apply andb_prop in Hs as [Hc Hs]. apply negb_true_iff in Hc.
  rewrite expand_cons, Hc, IH by assumption. reflexivity.
Qed.

(** A name already in the backend's convention is left as it is. *)
Lemma camel_to_snake_fixed (s : string) :
  str_forall not_upper s = true -> not_leading "_" s = true ->
  camel_to_snake s = s.
Proof.
  intros Hs Hl. unfold camel_to_snake. fold (expand s).
  rewrite (expand_fixed _ Hs). now apply lstrip_fixed.
Qed.

End NameTransforms.

(** X1. For every name of ASCII characters, [camel_to_snake] gives a name
    of ASCII characters without uppercase letters that does not start with
    an underscore; the transform over code points gives the same name. *)
Theorem camel_to_snake_lowercase (s : string) :
  ascii_name s = true ->
  Unicode.camel_to_snake (Unicode.of_string s)
  = Some (Unicode.of_string (camel_to_snake s)) /\
  ascii_name (camel_to_snake s) = true /\
  PyStr.str_forall NameTransforms.not_upper (camel_to_snake s) = true /\
  NameTransforms.not_leading "_" (camel_to_snake s) = true.
Proof.
  intros Hs.
  split; [now apply UnicodeFacts.camel_to_snake_ascii|].
  split; [now apply UnicodeFacts.camel_to_snake_stays_ascii|].
  unfold camel_to_snake. fold (RoundTrip.expand s). split.
  - apply NameTransforms.lstrip_forall, NameTransforms.expand_not_upper.
  - apply NameTransforms.lstrip_not_leading.
Qed.

Lemma camel_to_snake_lowercase_witness :
  Unicode.camel_to_snake (Unicode.of_string "AddPart")
  = Some (Unicode.of_string "add_part") /\
  PyStr.str_forall NameTransforms.not_upper "add_part" = true.
Proof.
  destruct (camel_to_snake_lowercase "AddPart") as (Hu & _ & Hl & _).
  - reflexivity.
  - split; [exact Hu | exact Hl].
Defined.

(** X2. On names of ASCII characters [camel_to_snake] is idempotent: a
    transformed name is transformed to itself, also by the transform over
    code points. *)
Theorem camel_to_snake_idempotent (s : string) :
  ascii_name s = true ->
  camel_to_snake (camel_to_snake s) = camel_to_snake s /\
  exists r, Unicode.camel_to_snake (Unicode.of_string s) = Some r /\
            Unicode.camel_to_snake r = Some r.
Proof.
  intros Hs.
  assert (Hidem : camel_to_snake (camel_to_snake s) = camel_to_snake s).
  { apply NameTransforms.camel_to_snake_fixed.
    - apply NameTransforms.lstrip_forall, NameTransforms.expand_not_upper.
    - apply NameTransforms.lstrip_not_leading. }
  split; [exact Hidem|].
  exists (Unicode.of_string (camel_to_snake s)).
  split; [now apply UnicodeFacts.camel_to_snake_ascii|].
  rewrite UnicodeFacts.camel_to_snake_ascii
    by now apply UnicodeFacts.camel_to_snake_stays_ascii.
  now rewrite Hidem.
Qed.

Lemma camel_to_snake_idempotent_witness :
  camel_to_snake (camel_to_snake "SetImageMatchingType")
  = camel_to_snake "SetImageMatchingType".
Proof.
  destruct (camel_to_snake_idempotent "SetImageMatchingType") as [Hidem _].
  - reflexivity.
  - exact Hidem.
Defined.

(** X4. The case of the first letter is lost: a name and the same name with
    its first letter in lower case have the same backend name. *)
Theorem camel_to_snake_first_letter (c : ascii) (s : string) :
  PyStr.isupper c = true ->
  camel_to_snake (String (PyStr.lower c) s) = camel_to_snake (String c s).
Proof.
  intros Hc. unfold camel_to_snake.
  fold (RoundTrip.expand (String (PyStr.lower c) s)).
  fold (RoundTrip.expand (String c s)).
  rewrite !RoundTrip.expand_cons, Hc, NameTransforms.lower_is_not_upper.
  rewrite !RoundTrip.append_cons, !RoundTrip.append_empty_l. simpl.
  now rewrite (NameFacts.lower_upper_not_underscore _ Hc).
Qed.

Lemma camel_to_snake_first_letter_witness :
  camel_to_snake "addPart" = camel_to_snake "AddPart".
Proof. apply (camel_to_snake_first_letter "A" "ddPart"). reflexivity. Defined.

Module SnakeNames.
Import PyStr NameFacts RoundTrip.

(** A word of the backend's convention: lowercase ASCII letters, at least
    one. *)
Definition snake_word (w : string) : bool :=
  match w with
  | EmptyString => false
  | String _ _ => str_forall islower w
  end.

Lemma upper_of_lower_is_upper c : islower c = true -> isupper (upper c) = true.
Proof.
  destruct c as [[] [] [] [] [] [] [] []]; vm_compute; congruence.
Qed.

Lemma lower_of_upper_of_lower c : islower c = true -> lower (upper c) = c.
Proof.
  destruct c as [[] [] [] [] [] [] [] []]; vm_compute; congruence.
Qed.

Lemma lowercase_no_underscore (w : string) :
  str_forall islower w = true -> no_underscore w = true.
Proof.
  induction w as [|c w IH]; [reflexivity|]. simpl. intros Hw.
  apply andb_prop in Hw as [Hc Hw]. unfold no_underscore. simpl.
  rewrite (lower_not_underscore _ Hc). simpl. now apply IH.
Qed.

Lemma capitalize_snake_word (w : string) :
  snake_word w = true -> camel_word (capitalize w) = true.
Proof.
  destruct w as [|c w]; [discriminate|]. simpl. intros Hw.
  apply andb_prop in Hw as [Hc Hw].
  rewrite (upper_of_lower_is_upper _ Hc). simpl.
  now rewrite (str_lower_lowercase _ Hw).
Qed.

Lemma lower_capitalize_snake_word (w : string) :
  snake_word w = true -> str_lower (capitalize w) = w.
Proof.
  destruct w as [|c w]; [discriminate|]. simpl. intros Hw.
  apply andb_prop in Hw as [Hc Hw].
  change (str_lower (String (upper c) (str_lower w)))
    with (String (lower (upper c)) (str_lower (str_lower w))).
  rewrite (lower_of_upper_of_lower _ Hc).
  now rewrite !(str_lower_lowercase _ Hw).
Qed.

Lemma snake_to_camel_join (ws : list string) :
  ws <> [] -> forallb snake_word ws = true ->
  snake_to_camel (join "_" ws) = camel_name_of (map capitalize ws).
Proof.
  intros Hne Hws. unfold snake_to_camel, camel_name_of.
  rewrite split_join; [reflexivity | exact Hne |].
  clear Hne. induction ws as [|w ws IH]; [reflexivity|].
  simpl in Hws. apply andb_prop in Hws as [Hw Hws]. simpl.
  rewrite IH by assumption. rewrite andb_true_r.
  apply lowercase_no_underscore. destruct w; [discriminate | exact Hw].
Qed.

End SnakeNames.

(** X3. The round trip from the backend's side: for a name made of one or
    more words of lowercase ASCII letters ([a] to [z]) joined by single
    underscores, [snake_to_camel] gives the capitalized words put together
    and [camel_to_snake] gives the name back; the transforms over code
    points do the same on these names. *)
Theorem snake_camel_roundtrip (ws : list string) :
  ws <> [] ->
  forallb SnakeNames.snake_word ws = true ->
  snake_to_camel (PyStr.join "_" ws) = PyStr.join "" (map PyStr.capitalize ws) /\
  camel_to_snake (snake_to_camel (PyStr.join "_" ws)) = PyStr.join "_" ws /\
  Unicode.snake_to_camel (Unicode.of_string (PyStr.join "_" ws))
  = Some (Unicode.of_string (PyStr.join "" (map PyStr.capitalize ws))) /\
  Unicode.camel_to_snake
    (Unicode.of_string (PyStr.join "" (map PyStr.capitalize ws)))
  = Some (Unicode.of_string (PyStr.join "_" ws)).
Proof.
  intros Hne Hws.
  pose proof (SnakeNames.snake_to_camel_join ws Hne Hws) as Hcamel.
  assert (Hback : camel_to_snake (snake_to_camel (PyStr.join "_" ws))
                  = PyStr.join "_" ws).
  { rewrite Hcamel. rewrite RoundTrip.camel_to_snake_words.
    - unfold snake_name_of. f_equal. rewrite map_map.
      clear Hne Hcamel. induction ws as [|w ws IH]; [reflexivity|].
      simpl in Hws. apply andb_prop in Hws as [Hw Hws]. simpl.
      now rewrite (SnakeNames.lower_capitalize_snake_word _ Hw), IH.
    - destruct ws; [congruence | discriminate].
    - clear Hne Hcamel. induction ws as [|w ws IH]; [reflexivity|].
      simpl in Hws. apply andb_prop in Hws as [Hw Hws]. simpl.
      now rewrite (SnakeNames.capitalize_snake_word _ Hw), IH. }
  assert (Hascii : ascii_name (PyStr.join "_" ws) = true).
  { apply UnicodeFacts.join_ascii; [reflexivity|].
    apply Forall_forall. intros w Hw. rewrite forallb_forall in Hws.
    apply list_elem_of_In, Hws in Hw. destruct w as [|c w]; [discriminate|].
    exact (UnicodeFacts.str_forall_impl _ _ _ UnicodeFacts.islower_ascii Hw). }
  split; [exact Hcamel|]. split; [exact Hback|]. split.
  - rewrite (UnicodeFacts.snake_to_camel_ascii _ Hascii). now rewrite Hcamel.
  - unfold camel_name_of in Hcamel. rewrite <- Hcamel.
    rewrite UnicodeFacts.camel_to_snake_ascii
      by now apply UnicodeFacts.snake_to_camel_stays_ascii.
    now rewrite Hback.
Qed.

Lemma snake_camel_roundtrip_witness :
  snake_to_camel "set_image_matching_type" = "SetImageMatchingType" /\
  camel_to_snake (snake_to_camel "set_image_matching_type")
  = "set_image_matching_type".
Proof.
  destruct (snake_camel_roundtrip ["set"; "image"; "matching"; "type"])
    as (Hcamel & Hback & _).
  - discriminate.
  - reflexivity.
  - split; [exact Hcamel | exact Hback].
Defined.

(** ** [update_state] on arbitrary snapshots *)

Section UpdateState.
Context {B : Type} `{FpSystem B}.
Implicit Types (st : FpOpcuaServer B) (status : dict).

Lemma set_attribute_values_twice m m' st :
  set_attribute_values m (set_attribute_values m' st) = set_attribute_values m st.
Proof. reflexivity. Qed.

Lemma update_state_app pre rest st :
  update_state (pre ++ rest) st
  = match update_state pre st with
    | (Ok _, st1) => update_state rest st1
    | (Exc e, st1) => (Exc e, st1)
    end.
Proof.
  revert st. induction pre as [|[k v] pre IH]; intros st; [reflexivity|].
  rewrite <- app_comm_cons. cbn [update_state].
  destruct (bool_decide (k ∈ ["RunState"; "ResultState"; "ErrorType"])).
  { rewrite !act_bind_run.
    destruct (write_attribute_value k _ st) as [[u|e] st1]; auto. }
  destruct (PyStr.is_substring k "CurrentCommand"); [|apply IH].
  rewrite !act_bind_run.
  destruct (write_attribute_value k _ st) as [[u|e] st1]; auto.
Qed.

(** Only the attribute values change, whatever the outcome. *)
Lemma update_state_only_attributes status st r st' :
  update_state status st = (r, st') ->
  st' = set_attribute_values (attribute_values st') st.
Proof.
  revert st. induction status as [|[k v] rest IH]; intros st Hrun.
  - injection Hrun as _ <-. destruct st; reflexivity.
  - cbn [update_state] in Hrun.
    assert (Hwrite : forall ty,
      (write_attribute_value k (v, ty);; update_state rest) st = (r, st') ->
      st' = set_attribute_values (attribute_values st') st).
    { intros ty Hw. rewrite act_bind_run in Hw. unfold write_attribute_value in Hw.
      destruct (variables st !! k) as [node|].
      - apply IH in Hw. rewrite Hw. reflexivity.
      - injection Hw as _ <-. destruct st; reflexivity. }
    repeat case_match; eauto.
Qed.

(** The value the snapshot leaves at a node: that of the last entry written
    to the node, if there is one. *)
Fixpoint last_write (vars : gmap string nat) (status : dict) (node : nat) :
    option (value * VariantType) :=
  match status with
  | [] => None
  | (k, v) :: rest =>
      match last_write vars rest node with
      | Some x => Some x
      | None =>
          match state_variable k, vars !! k with
          | Some ty, Some n => if decide (n = node) then Some (v, ty) else None
          | _, _ => None
          end
      end
  end.

Lemma published_last_write vars status attrs node :
  published vars status attrs !! node
  = match last_write vars status node with
    | Some x => Some x
    | None => attrs !! node
    end.
Proof.
  revert attrs. induction status as [|[k v] rest IH]; intros attrs; [reflexivity|].
  unfold published in *. cbn [fold_left fst snd last_write]. rewrite IH.
  destruct (last_write vars rest node); [reflexivity|].
  destruct (state_variable k); [|reflexivity].
  destruct (vars !! k) as [n|]; [|reflexivity].
  destruct (decide (n = node)) as [->|Hne].
  - apply lookup_insert_eq.
  - now apply lookup_insert_ne.
Qed.

Lemma published_idempotent vars status attrs :
  published vars status (published vars status attrs)
  = published vars status attrs.
Proof.
  apply map_eq. intros node. rewrite !published_last_write.
  destruct (last_write vars status node); reflexivity.
Qed.

Lemma last_write_none vars status node :
  (forall k, k ∈ dict_keys status -> vars !! k <> Some node) ->
  last_write vars status node = None.
Proof.
  induction status as [|[k v] rest IH]; intros Hno; [reflexivity|].
  cbn [last_write]. rewrite IH by (intros k' Hk'; apply Hno; now right).
  destruct (state_variable k); [|reflexivity].
  destruct (vars !! k) as [n|] eqn:Hk; [|reflexivity].
  destruct (decide (n = node)) as [->|]; [|reflexivity].
  exfalso. apply (Hno k); [now left | exact Hk].
Qed.

(** A successful run found a node for every entry it writes. *)
Lemma update_state_ok_inv status st u st' :
  update_state status st = (Ok u, st') ->
  forall k v, (k, v) ∈ status -> is_Some (state_variable k) ->
              is_Some (variables st !! k).
Proof.
  revert st. induction status as [|[k0 v0] rest IH]; intros st Hrun k v Hin Hsv.
  - inversion Hin.
  - cbn [update_state] in Hrun. unfold state_variable in Hsv.
    assert (Hwrite : forall ty,
      (write_attribute_value k0 (v0, ty);; update_state rest) st = (Ok u, st') ->
      is_Some (variables st !! k0) /\
      (forall k v, (k, v) ∈ rest -> is_Some (state_variable k) ->
                   is_Some (variables st !! k))).
    { intros ty Hw. rewrite act_bind_run in Hw. unfold write_attribute_value in Hw.
      destruct (variables st !! k0) as [node|]; [|discriminate].
      split; [eauto|]. intros k1 v1 Hin1 Hsv1.
      apply (IH _ Hw k1 v1 Hin1 Hsv1). }
    apply elem_of_cons in Hin as [Heq|Hin].
    + injection Heq as -> ->.
      destruct (bool_decide (k0 ∈ ["RunState"; "ResultState"; "ErrorType"])).
      { now apply (Hwrite SByte). }
      destruct (PyStr.is_substring k0 "CurrentCommand").
      { now apply (Hwrite String_). }
      destruct Hsv as [x Hx]. discriminate.
    + destruct (bool_decide (k0 ∈ ["RunState"; "ResultState"; "ErrorType"])).
      { destruct (Hwrite SByte Hrun) as [_ Hrest]. eauto. }
      destruct (PyStr.is_substring k0 "CurrentCommand").
      { destruct (Hwrite String_ Hrun) as [_ Hrest]. eauto. }
      eapply IH; eauto.
Qed.

End UpdateState.

(** X5. A snapshot entry that [update_state] writes but that has no node
    among the state variables ends the update with [KeyError] for its name:
    the entries before it are written, the entries after it are not. *)
Theorem update_state_missing_variable {B : Type} `{FpSystem B}
    (pre post : dict) (k : string) (v : value) (ty : VariantType)
    (st : FpOpcuaServer B) :
  (forall k' v', (k', v') ∈ pre -> is_Some (state_variable k') ->
                 is_Some (variables st !! k')) ->
  state_variable k = Some ty ->
  variables st !! k = None ->
  update_state (pre ++ (k, v) :: post) st
  = (Exc (KeyError k),
     set_attribute_values
       (published (variables st) pre (attribute_values st)) st).
Proof.
  intros Hpre Hty Hk. rewrite update_state_app, update_state_published by exact Hpre.
  cbn [update_state]. unfold state_variable in Hty.
  destruct (bool_decide (k ∈ ["RunState"; "ResultState"; "ErrorType"])).
  - rewrite act_bind_run. unfold write_attribute_value. server_simpl.
    now rewrite Hk.
  - destruct (PyStr.is_substring k "CurrentCommand"); [|discriminate].
    rewrite act_bind_run. unfold write_attribute_value. server_simpl.
    now rewrite Hk.
Qed.

(** X6. Writing the same snapshot again changes nothing: when
    [update_state] succeeds, a second run on the result succeeds and gives
    the same server. *)
Theorem update_state_idempotent {B : Type} `{FpSystem B}
    (status : dict) (st st1 : FpOpcuaServer B) :
  update_state status st = (Ok tt, st1) ->
  update_state status st1 = (Ok tt, st1).
Proof.
  intros Hrun. pose proof (update_state_ok_inv _ _ _ _ Hrun) as Hvars.
  rewrite update_state_published in Hrun by exact Hvars.
  injection Hrun as <-.
  rewrite update_state_published by (server_simpl; exact Hvars).
  server_simpl. now rewrite published_idempotent.
Qed.

(** X7. [update_state] touches nothing but the attribute values, and among
    them only the nodes of the variables named in the snapshot, whether it
    succeeds or raises. *)
Theorem update_state_writes_only_named {B : Type} `{FpSystem B}
    (status : dict) (st st' : FpOpcuaServer B) (r : result unit) :
  update_state status st = (r, st') ->
  st' = set_attribute_values (attribute_values st') st /\
  (forall node,
      (forall k, k ∈ dict_keys status -> variables st !! k <> Some node) ->
      attribute_values st' !! node = attribute_values st !! node).
Proof.
  intros Hrun. split; [eapply update_state_only_attributes; eauto|].
  revert st Hrun. induction status as [|[k v] rest IH]; intros st Hrun node Hno.
  - injection Hrun as _ <-. reflexivity.
  - cbn [update_state] in Hrun.
    assert (Hrest : forall st1 : FpOpcuaServer B, variables st1 = variables st ->
              forall k', k' ∈ dict_keys rest -> variables st1 !! k' <> Some node).
    { intros st1 -> k' Hk'. apply Hno. now right. }
    assert (Hwrite : forall ty,
      (write_attribute_value k (v, ty);; update_state rest) st = (r, st') ->
      attribute_values st' !! node = attribute_values st !! node).
    { intros ty Hw. rewrite act_bind_run in Hw. unfold write_attribute_value in Hw.
      destruct (variables st !! k) as [n|] eqn:Hk.
      - rewrite (IH _ Hw node) by (apply Hrest; reflexivity). server_simpl.
        apply lookup_insert_ne. intros ->. apply (Hno k); [now left | exact Hk].
      - injection Hw as _ <-. reflexivity. }
    repeat case_match; eauto.
Qed.

Lemma update_state_missing_variable_witness :
  let '(r, st') := update_state PublishExample.odd_status LinkExample.server0 in
  r = Exc (KeyError "Command") /\
  attribute_values st' !! 1 = Some (VRunState SYSTEM_READY, SByte) /\
  attribute_values st' !! 2 = None.
Proof.
  assert (Hrun := @update_state_missing_variable _ LinkExample.backend
             [("RunState", VRunState SYSTEM_READY)]
             [("ResultState", VResultState RESULT_READY)]
             "Command" (VStr "add_part") String_ LinkExample.server0).
  simpl app in Hrun. unfold PublishExample.odd_status. rewrite Hrun.
  - vm_compute. repeat split.
  - intros k' v' Hin _. apply list_elem_of_singleton in Hin.
    injection Hin as -> ->. vm_compute. eauto.
  - reflexivity.
  - reflexivity.
Defined.

Lemma update_state_idempotent_witness :
  let st1 := snd (update_state PublishExample.ready_status LinkExample.server0) in
  update_state PublishExample.ready_status st1 = (Ok tt, st1).
Proof.
  apply (@update_state_idempotent _ LinkExample.backend
           PublishExample.ready_status LinkExample.server0).
  vm_compute. reflexivity.
Defined.

Lemma update_state_writes_only_named_witness :
  attribute_values
    (snd (update_state PublishExample.ready_status LinkExample.server0)) !! 7
  = attribute_values LinkExample.server0 !! 7.
Proof.
  destruct (update_state PublishExample.ready_status LinkExample.server0)
    as [r st'] eqn:Hrun.
  destruct (@update_state_writes_only_named _ LinkExample.backend _ _ _ _ Hrun)
    as [_ Hnodes].
  apply Hnodes. intros k Hk.
  apply list_elem_of_In in Hk. simpl in Hk.
  destruct Hk as [<-|[<-|[<-|[<-|[]]]]]; vm_compute; discriminate.
Defined.

(** ** Handlers that fail *)

Section HandlerFailures.
Context {B : Type} `{FpSystem B}.
Implicit Types (st : FpOpcuaServer B) (h : Handler B).

(** The server after the estimator ran: the backend it left and, without
    estimator, the warning in the log. *)
Definition after_estimate h (b' : B) st : FpOpcuaServer B :=
  set_fp_system b'
    (match h_func_prior_info h with
     | None => add_log WARNING (NoPriorInfoMethod (h_service_name h)) st
     | Some _ => st
     end).

Lemma get_prior_info_run h input_args without st prior b' :
  estimates h input_args (fp_system st) without = Some (prior, b') ->
  get_prior_info h input_args without st = (Ok prior, after_estimate h b' st).
Proof.
  unfold estimates, get_prior_info, after_estimate.
  destruct (h_func_prior_info h) as [fpi|].
  - unfold_acts.
    destruct (py_call fpi input_args (fp_system st)) as [[[d|]|e] b''];
      try discriminate.
    intros [= -> ->]. reflexivity.
  - intros [= <- <-]. unfold_acts. destruct st; reflexivity.
Qed.


Lemma construct_result (T : DataType) (kwargs : dict) obj :
  construct T kwargs = Ok obj -> obj = mkExtObject (dt_name T) kwargs.
Proof. unfold construct. case_match; congruence. Qed.

End HandlerFailures.

(** X8. An exception of the backend method of a service that returns
    immediately reaches the caller of the handler as it is; the status is
    not published, no task is created and no event is emitted. *)
Theorem sync_handler_propagates {B : Type} `{FpSystem B} (h : Handler B)
    (input_args : list value) (st : FpOpcuaServer B) (prior : dict) (b1 b2 : B)
    (f : list value -> B -> result pyret * B) (e : exn) :
  h_returns_async h = false ->
  estimates h input_args (fp_system st) [] = Some (prior, b1) ->
  h_func h = Def f ->
  f input_args b1 = (Exc e, b2) ->
  exists st',
    service_responding_func h input_args st = (Exc e, st') /\
    fp_system st' = b2 /\
    attribute_values st' = attribute_values st /\
    registry st' = registry st /\
    events_emitted st' = events_emitted st.
Proof.
  intros Hsync Hest Hdef Hf.
  unfold service_responding_func. rewrite Hsync.
  unfold service_responding_func_sync.
  rewrite act_bind_run. unfold logger at 1.
  rewrite act_bind_run, (get_prior_info_run h input_args _ (add_log _ _ st) _ _ Hest).
  rewrite act_bind_run. unfold backend_call, after_estimate. server_simpl.
  rewrite Hdef. unfold py_call. rewrite Hf.
  eexists. split; [reflexivity|]. destruct (h_func_prior_info h); repeat split.
Qed.

(** X9. A backend method that is a coroutine function behind a service that
    returns immediately is called but never awaited: its body does not run,
    and the handler raises [TypeError] when it unpacks the coroutine. *)
Theorem sync_handler_coroutine_function {B : Type} `{FpSystem B}
    (h : Handler B) (input_args : list value) (st : FpOpcuaServer B)
    (prior : dict) (b1 : B) (f : list value -> B -> result pyret * B) :
  h_returns_async h = false ->
  estimates h input_args (fp_system st) [] = Some (prior, b1) ->
  h_func h = AsyncDef f ->
  exists st',
    service_responding_func h input_args st
    = (Exc (TypeError "object is not a mapping"), st') /\
    fp_system st' = b1 /\
    attribute_values st' = attribute_values st.
Proof.
  intros Hsync Hest Hdef.
  unfold service_responding_func. rewrite Hsync.
  unfold service_responding_func_sync.
  rewrite act_bind_run. unfold logger at 1.
  rewrite act_bind_run, (get_prior_info_run h input_args _ (add_log _ _ st) _ _ Hest).
  rewrite act_bind_run. unfold backend_call, after_estimate. server_simpl.
  rewrite Hdef. unfold py_call.
  eexists. split; [reflexivity|]. destruct (h_func_prior_info h); repeat split.
Qed.


(** X11. Once the estimator has answered and the event generator is found,
    the handler hands the background execution to the event loop before it
    publishes the status and builds its reply: the task is created and
    registered whether the handler then returns or raises, and a reply, if
    there is one, is the object built from the prior info. *)
Theorem async_handler_dispatches_first {B : Type} `{FpSystem B}
    (h : Handler B) (input_args : list value) (st : FpOpcuaServer B)
    (prior : dict) (b' : B) :
  h_returns_async h = true ->
  estimates h input_args (fp_system st) default_prior_info = Some (prior, b') ->
  is_Some (event_gens st !! h_service_name h) ->
  exists r st',
    service_responding_func h input_args st = (r, st') /\
    spawned (EventTriggeringFunc (h_func h) (h_service_name h) input_args) st st' /\
    fp_system st' = b' /\
    (forall immediate_result, r = Ok immediate_result ->
       immediate_result
       = Variant (mkExtObject (dt_name (h_immediate_result_datatype h)) prior)
                 ExtensionObject).
Proof.
  intros Hasync Hest [g Hg].
  destruct (service_responding_func h input_args st) as [r st'] eqn:Hrun.
  exists r, st'. split; [reflexivity|].
  unfold service_responding_func in Hrun. rewrite Hasync in Hrun.
  unfold service_responding_func_async in Hrun.
  rewrite act_bind_run in Hrun. unfold logger at 1 in Hrun.
  rewrite act_bind_run, (get_prior_info_run h input_args _ (add_log _ _ st) _ _ Hest) in Hrun.
  rewrite act_bind_run in Hrun. unfold lookup_event_gen at 1 in Hrun.
  unfold after_estimate in Hrun. server_simpl.
  replace (event_gens _ !! h_service_name h) with (Some g) in Hrun
    by (destruct (h_func_prior_info h); server_simpl; now rewrite Hg).
  cbv zeta in Hrun.
  rewrite act_bind_run in Hrun. unfold create_task at 1 in Hrun.
  rewrite act_bind_run in Hrun. unfold tasks_running_add at 1 in Hrun.
  rewrite act_bind_run in Hrun. unfold add_done_callback at 1 in Hrun.
  rewrite act_bind_run in Hrun.
  match type of Hrun with
  | match publish_status ?s with _ => _ end = _ => set (st4 := s) in Hrun
  end.
  assert (Hsp : spawned (EventTriggeringFunc (h_func h) (h_service_name h)
                           input_args) st st4 /\ fp_system st4 = b').
  { unfold spawned, st4, make_it_event_triggering.
    destruct (h_func_prior_info h); server_simpl; rewrite alter_insert_eq;
      cbn [t_coro t_state t_callbacks app]; repeat split. }
  clearbody st4. destruct Hsp as [[Hlt Htr] Hb].
  destruct (publish_status st4) as [[u|e] st5] eqn:Hpub.
  - pose proof (keeps_publish_status registry (fun _ _ => eq_refl) _ _ _ Hpub)
      as Hreg.
    pose proof (keeps_publish_status fp_system (fun _ _ => eq_refl) _ _ _ Hpub)
      as Hb5.
    unfold registry in Hreg. injection Hreg as Hlt5 Htr5.
    rewrite act_bind_run in Hrun. unfold lift_result at 1 in Hrun.
    destruct (construct (h_immediate_result_datatype h) prior) as [obj|e] eqn:Hc;
      injection Hrun as <- <-.
    + split; [split; congruence|]. split; [congruence|].
      intros ir [= <-]. now rewrite (construct_result _ _ _ Hc).
    + split; [split; congruence|]. split; [congruence|]. discriminate.
  - injection Hrun as <- <-.
    pose proof (keeps_publish_status registry (fun _ _ => eq_refl) _ _ _ Hpub)
      as Hreg.
    pose proof (keeps_publish_status fp_system (fun _ _ => eq_refl) _ _ _ Hpub)
      as Hb5.
    unfold registry in Hreg. injection Hreg as Hlt5 Htr5.
    split; [split; congruence|]. split; [congruence|]. discriminate.
Qed.

Lemma sync_handler_propagates_witness :
  exists st',
    service_responding_func (H := SyncExample.backend)
      FailureExample.failing_handler [] SyncExample.server0
    = (Exc (Raised "device not reachable"), st') /\
    attribute_values st' = ∅.
Proof.
  destruct (@sync_handler_propagates _ SyncExample.backend
              FailureExample.failing_handler [] SyncExample.server0
              SyncExample.sync_success_prior_info SyncExample.ready_status
              SyncExample.ready_status
              (fun _ status => (Exc (Raised "device not reachable"), status))
              (Raised "device not reachable"))
    as (st' & Hrun & _ & Hattr & _); try reflexivity.
  exists st'. split; [exact Hrun | exact Hattr].
Defined.

Lemma sync_handler_coroutine_function_witness :
  exists st',
    service_responding_func (H := LinkExample.backend)
      SyncExample.mockup_handler [] LinkExample.linked_server
    = (Exc (TypeError "object is not a mapping"), st') /\
    fp_system st' = Examples.fresh_ready.
Proof.
  edestruct (@sync_handler_coroutine_function _ LinkExample.backend
               SyncExample.mockup_handler [] LinkExample.linked_server
               (Mockup.get_status_prior_info []) Examples.fresh_ready)
    as (st' & Hrun & Hb & _).
  - reflexivity.
  - vm_compute. reflexivity.
  - vm_compute. reflexivity.
  - exists st'. split; [exact Hrun | exact Hb].
Defined.


Lemma async_handler_dispatches_first_witness :
  exists st',
    service_responding_func (H := LinkExample.backend)
      (LinkExample.handler "AddPart") LinkExample.add_part_args
      FailureExample.no_variables_server = (Exc (KeyError "RunState"), st') /\
    tasks_running st' = {[ 0 ]}.
Proof.
  destruct (@async_handler_dispatches_first _ LinkExample.backend
              (LinkExample.handler "AddPart") LinkExample.add_part_args
              FailureExample.no_variables_server
              (Mockup.add_part_prior_info LinkExample.add_part_args)
              Examples.fresh_ready)
    as (r & st' & Hrun & [_ Htr] & _).
  - vm_compute. reflexivity.
  - vm_compute. reflexivity.
  - vm_compute. eauto.
  - exists st'. split.
    + rewrite Hrun. f_equal.
      assert (Hr : fst (service_responding_func (H := LinkExample.backend)
                          (LinkExample.handler "AddPart")
                          LinkExample.add_part_args
                          FailureExample.no_variables_server)
                   = Exc (KeyError "RunState")) by (vm_compute; reflexivity).
      rewrite Hrun in Hr. exact Hr.
    + rewrite Htr. vm_compute. reflexivity.
Defined.

(** ** Completion events *)

Section DictFacts.
Context {A : Type}.
Implicit Types (d : pydict A).

Lemma dict_get_set_eq k (v : A) d : dict_get k (dict_set k v d) = Some v.
Proof.
  induction d as [|[k' v'] d IH]; simpl.
  - now rewrite String.eqb_refl.
  - destruct (String.eqb k k') eqn:Hk; simpl; rewrite ?String.eqb_refl, ?Hk; auto.
Qed.

Lemma dict_get_set_ne k k' (v : A) d :
  k <> k' -> dict_get k (dict_set k' v d) = dict_get k d.
Proof.
  intros Hne. apply String.eqb_neq in Hne.
  induction d as [|[k0 v0] d IH]; simpl.
  - now rewrite Hne.
  - destruct (String.eqb k' k0) eqn:Hk; simpl.
    + apply String.eqb_eq in Hk as <-. now rewrite Hne.
    + now rewrite IH.
Qed.

End DictFacts.

Section Filled.
Implicit Types (items attrs : dict).

Lemma filled_absent items attrs k :
  k ∉ dict_keys items ->
  dict_get k (filled items attrs) = dict_get k attrs.
Proof.
  revert attrs. induction items as [|[k0 v0] items IH]; intros attrs Hk;
    [reflexivity|].
  unfold filled in *. cbn [fold_left fst snd].
  cbn [dict_keys map fst] in Hk. apply not_elem_of_cons in Hk as [Hne Hk].
  rewrite IH by exact Hk. now apply dict_get_set_ne.
Qed.

Lemma filled_set items attrs k v :
  NoDup (dict_keys items) -> (k, v) ∈ items ->
  dict_get k (filled items attrs) = Some v.
Proof.
  revert attrs. induction items as [|[k0 v0] items IH];
    intros attrs Hnd Hin; [inversion Hin|].
  cbn [dict_keys map fst] in Hnd. apply NoDup_cons in Hnd as [Hk0 Hnd].
  unfold filled in *. cbn [fold_left fst snd].
  apply elem_of_cons in Hin as [Heq|Hin].
  - injection Heq as <- <-.
    fold (filled items (dict_set k v attrs)).
    rewrite filled_absent by exact Hk0. apply dict_get_set_eq.
  - now apply IH.
Qed.

Lemma dict_keys_set k (v : value) attrs k' :
  k' ∈ dict_keys (dict_set k v attrs) -> k' = k \/ k' ∈ dict_keys attrs.
Proof.
  induction attrs as [|[k0 v0] attrs IH]; cbn [dict_set dict_keys map fst].
  - intros Hin. apply list_elem_of_singleton in Hin. now left.
  - destruct (String.eqb k k0) eqn:Hk; cbn [dict_keys map fst]; intros Hin;
      apply elem_of_cons in Hin as [->|Hin].
    + now left.
    + right. now apply list_elem_of_further.
    + right. apply list_elem_of_here.
    + destruct (IH Hin) as [->|Hin']; [now left|].
      right. now apply list_elem_of_further.
Qed.

Lemma intact_forall attrs :
  intact attrs = true <-> forall k, k ∈ dict_keys attrs -> k ∉ generator_names.
Proof.
  unfold intact. rewrite forallb_forall. split.
  - intros Hall k Hk. apply list_elem_of_In, Hall in Hk.
    apply negb_true_iff in Hk. now apply bool_decide_eq_false in Hk.
  - intros Hall k Hk. apply list_elem_of_In, Hall in Hk.
    apply negb_true_iff. now apply bool_decide_eq_false.
Qed.

Lemma intact_set k v attrs :
  k ∉ generator_names -> intact attrs = true ->
  intact (dict_set k v attrs) = true.
Proof.
  rewrite !intact_forall. intros Hk Hall k' Hk'.
  apply dict_keys_set in Hk' as [->|Hk']; auto.
Qed.

Lemma intact_filled items attrs :
  intact items = true -> intact attrs = true ->
  intact (filled items attrs) = true.
Proof.
  revert attrs. induction items as [|[k v] items IH]; intros attrs Hi Ha;
    [exact Ha|].
  unfold filled in *. cbn [fold_left fst snd].
  rewrite intact_forall in Hi. apply IH.
  - apply intact_forall. intros k' Hk'. apply Hi.
    cbn [dict_keys map fst]. now apply list_elem_of_further.
  - apply intact_set; [|exact Ha]. apply Hi. apply list_elem_of_here.
Qed.

Lemma intact_completion_attrs g d :
  intact (eg_attrs g) = true -> intact d = true ->
  intact (completion_attrs g d) = true.
Proof.
  intros Hg Hd. apply intact_filled; [exact Hd|].
  apply intact_set; [|exact Hg].
  intros Hin. apply list_elem_of_In in Hin. cbn in Hin.
  destruct Hin as [Hin|[Hin|[Hin|[]]]]; discriminate.
Qed.

End Filled.

Section Completion.
Context {B : Type} `{FpSystem B}.
Implicit Types (st : FpOpcuaServer B).

(** The loop over the items, run on a generator that exists. *)
Lemma fill_event_run service_name items st g :
  event_gens st !! service_name = Some g ->
  exists st',
    fill_event service_name items st = (Ok tt, st') /\
    event_gens st' =
      <[service_name := mkEventGen (eg_event_type g)
                          (filled items (eg_attrs g)) (eg_event g)]>
        (event_gens st) /\
    events_emitted st' = events_emitted st /\
    registry st' = registry st /\
    fp_system st' = fp_system st /\
    variables st' = variables st /\
    attribute_values st' = attribute_values st.
Proof.
  revert st g. induction items as [|[name val] rest IH]; intros st g Hg.
  - exists st. split; [reflexivity|]. split; [|repeat split].
    unfold filled. simpl. rewrite insert_id; [reflexivity|].
    rewrite Hg. now destruct g.
  - cbn [fill_event]. rewrite act_bind_run.
    unfold event_gen_setattr at 1.
    match goal with
    | |- context [fill_event service_name rest ?s] => set (st1 := s)
    end.
    destruct (IH st1 (mkEventGen (eg_event_type g)
                        (dict_set name val (eg_attrs g)) (eg_event g)))
      as (st' & Hrun & Hgens & Hrest).
    { unfold st1. server_simpl. rewrite lookup_alter_eq, Hg. reflexivity. }
    exists st'. split; [exact Hrun|]. split; [|exact Hrest].
    rewrite Hgens. unfold st1. server_simpl.
    unfold filled. cbn [fold_left fst snd eg_event_type eg_attrs eg_event].
    apply map_eq. intros k.
    destruct (decide (k = service_name)) as [->|Hne].
    + now rewrite !lookup_insert_eq.
    + now rewrite !lookup_insert_ne, lookup_alter_ne by congruence.
Qed.

(** The completion event of a result that is a dictionary. *)
Lemma emit_completion_run service_name d st g :
  event_gens st !! service_name = Some g ->
  intact (completion_attrs g d) = true ->
  exists st',
    emit_completion service_name (RetDict d) st = (Ok tt, st') /\
    events_emitted st' =
      events_emitted st ++ [(eg_event_type g, eg_event g)] /\
    event_gens st' = <[service_name := completion_gen g d]> (event_gens st) /\
    registry st' = registry st /\
    fp_system st' = fp_system st /\
    variables st' = variables st /\
    attribute_values st' = attribute_values st.
Proof.
  intros Hg Hintact. unfold emit_completion.
  rewrite act_bind_run. unfold event_gen_setattr at 1.
  rewrite act_bind_run. unfold items_of, mret, act_ret.
  rewrite act_bind_run.
  match goal with
  | |- context [fill_event service_name d ?s] => set (st1 := s)
  end.
  destruct (fill_event_run service_name d st1
              (mkEventGen (eg_event_type g)
                 (dict_set "ServiceExecutionResult" (VInt 0) (eg_attrs g))
                 (eg_event g)))
    as (st2 & Hrun & Hgens & Hev & Hreg & Hb & Hv & Ha).
  { unfold st1. server_simpl. rewrite lookup_alter_eq, Hg. reflexivity. }
  rewrite Hrun. unfold trigger. rewrite act_bind_run.
  unfold lookup_event_gen. rewrite Hgens, lookup_insert_eq.
  cbn [eg_event_type eg_attrs eg_event] in *.
  fold (completion_attrs g d). rewrite Hintact.
  eexists. split; [reflexivity|]. unfold registry in *. server_simpl.
  injection Hreg as Hlt Htr.
  rewrite Hev, Hgens, Hlt, Htr, Hb, Hv, Ha. unfold st1. server_simpl.
  split; [reflexivity|]. split; [|repeat split].
  unfold completion_gen. fold (completion_attrs g d).
  apply map_eq. intros k. destruct (decide (k = service_name)) as [->|Hne].
  - now rewrite !lookup_insert_eq.
  - now rewrite !lookup_insert_ne, lookup_alter_ne by congruence.
Qed.

End Completion.

Section CompletionRuns.
Context {B : Type} `{FpSystem B}.
Implicit Types (st : FpOpcuaServer B).

(** A background execution whose backend method returns a dictionary: what
    is emitted, and what the generator holds afterwards. *)
Lemma event_triggering_func_returns func service_name input_args st d b' g :
  py_await_call func input_args (fp_system st) = (Ok (RetDict d), b') ->
  event_gens st !! service_name = Some g ->
  intact (eg_attrs g) = true -> intact d = true ->
  exists r st',
    event_triggering_func func service_name input_args st = (r, st') /\
    events_emitted st' =
      events_emitted st ++ [(eg_event_type g, eg_event g)] /\
    event_gens st' = <[service_name := completion_gen g d]> (event_gens st) /\
    fp_system st' = b'.
Proof.
  intros Hcall Hg Hig Hid. unfold event_triggering_func.
  destruct (try_finally_runs (event_triggering_body func service_name input_args)
              publish_status st) as (r & st1 & rf & st2 & Hbody & Hfin & ->).
  unfold event_triggering_body, backend_call in Hbody. rewrite Hcall in Hbody.
  destruct (emit_completion_run service_name d (set_fp_system b' st) g Hg)
    as (st1' & Hrun & Hev & Hgens & _ & Hb & _).
  { now apply intact_completion_attrs. }
  rewrite Hrun in Hbody. injection Hbody as <- <-.
  do 2 eexists. split; [reflexivity|].
  rewrite (keeps_publish_status events_emitted (fun _ _ => eq_refl) _ _ _ Hfin).
  rewrite (keeps_publish_status event_gens (fun _ _ => eq_refl) _ _ _ Hfin).
  rewrite (keeps_publish_status fp_system (fun _ _ => eq_refl) _ _ _ Hfin).
  rewrite Hev, Hgens, Hb. repeat split.
Qed.

End CompletionRuns.

(** X12. A background execution whose backend method returns a dictionary
    emits one event of the service's event type, also when the status
    publication that follows fails.  The event is the generator's event
    object as it was before the call: the outcome and the result fields are
    set as attributes of the generator object
    ([event_gen.ServiceExecutionResult = 0], [setattr(event_gen, ..)]), not
    of the event it sends, so none of them reaches the event.  Stated for
    results and generators without an attribute of the name [trigger],
    [event] or [isession]. *)
Theorem completion_event_content {B : Type} `{FpSystem B}
    (func : pycallable B) (service_name : string) (input_args : list value)
    (st : FpOpcuaServer B) (d : dict) (b' : B) (g : EventGen) :
  py_await_call func input_args (fp_system st) = (Ok (RetDict d), b') ->
  event_gens st !! service_name = Some g ->
  intact (eg_attrs g) = true -> intact d = true ->
  NoDup (dict_keys d) ->
  exists r st' g',
    event_triggering_func func service_name input_args st = (r, st') /\
    events_emitted st' =
      events_emitted st ++ [(eg_event_type g, eg_event g)] /\
    event_gens st' !! service_name = Some g' /\
    eg_event g' = eg_event g /\
    (forall k v, (k, v) ∈ d -> dict_get k (eg_attrs g') = Some v) /\
    ("ServiceExecutionResult" ∉ dict_keys d ->
     dict_get "ServiceExecutionResult" (eg_attrs g') = Some (VInt 0)).
Proof.
  intros Hcall Hg Hig Hid Hnd.
  destruct (event_triggering_func_returns _ _ _ _ _ _ _ Hcall Hg Hig Hid)
    as (r & st' & Hrun & Hev & Hgens & _).
  exists r, st', (completion_gen g d). split; [exact Hrun|].
  split; [exact Hev|]. split; [now rewrite Hgens, lookup_insert_eq|].
  split; [reflexivity|]. unfold completion_gen, completion_attrs.
  cbn [eg_attrs]. split.
  - intros k v Hin. now apply filled_set.
  - intros Hser. rewrite filled_absent by exact Hser. apply dict_get_set_eq.
Qed.

(** X13. The completion events of a service are all alike.  The generator
    is one object for all calls of the service and its event object is
    never written: two background executions in a row, whatever their
    results, emit the same event twice, while the generator object keeps
    the fields of the first result that the second does not name.  Stated
    for results and generators without an attribute of the name [trigger],
    [event] or [isession]. *)
Theorem completion_events_all_alike {B : Type} `{FpSystem B}
    (func1 func2 : pycallable B) (service_name : string)
    (args1 args2 : list value) (st : FpOpcuaServer B) (d1 d2 : dict)
    (b1 b2 : B) (g : EventGen) :
  py_await_call func1 args1 (fp_system st) = (Ok (RetDict d1), b1) ->
  py_await_call func2 args2 b1 = (Ok (RetDict d2), b2) ->
  event_gens st !! service_name = Some g ->
  intact (eg_attrs g) = true -> intact d1 = true -> intact d2 = true ->
  NoDup (dict_keys d1) ->
  exists r1 st1 r2 st2 g2,
    event_triggering_func func1 service_name args1 st = (r1, st1) /\
    event_triggering_func func2 service_name args2 st1 = (r2, st2) /\
    events_emitted st2 =
      events_emitted st ++ [(eg_event_type g, eg_event g);
                            (eg_event_type g, eg_event g)] /\
    event_gens st2 !! service_name = Some g2 /\
    (forall k v, (k, v) ∈ d1 -> k ∉ dict_keys d2 ->
                 k <> "ServiceExecutionResult" ->
                 dict_get k (eg_attrs g2) = Some v).
Proof.
  intros Hcall1 Hcall2 Hg Hig Hid1 Hid2 Hnd.
  destruct (event_triggering_func_returns _ _ _ _ _ _ _ Hcall1 Hg Hig Hid1)
    as (r1 & st1 & Hrun1 & Hev1 & Hgens1 & Hb1).
  assert (Hg1 : event_gens st1 !! service_name = Some (completion_gen g d1))
    by now rewrite Hgens1, lookup_insert_eq.
  rewrite <- Hb1 in Hcall2.
  destruct (event_triggering_func_returns _ _ _ _ _ _ _ Hcall2 Hg1)
    as (r2 & st2 & Hrun2 & Hev2 & Hgens2 & _).
  { now apply intact_completion_attrs. }
  { exact Hid2. }
  exists r1, st1, r2, st2, (completion_gen (completion_gen g d1) d2).
  split; [exact Hrun1|]. split; [exact Hrun2|]. split.
  { rewrite Hev2, Hev1, <- app_assoc. reflexivity. }
  split; [now rewrite Hgens2, lookup_insert_eq|].
  intros k v Hin Hk Hne. unfold completion_gen at 1, completion_attrs at 1.
  cbn [eg_attrs]. rewrite filled_absent by exact Hk.
  rewrite dict_get_set_ne by exact Hne.
  unfold completion_gen, completion_attrs. cbn [eg_attrs].
  now apply filled_set.
Qed.

(** X14. A backend method whose awaited result is no dictionary: the outcome
    field of the generator is already set to 0 when [res.items()] fails, no
    event is emitted, and the background execution ends with an
    exception. *)
Theorem completion_of_non_mapping {B : Type} `{FpSystem B}
    (func : pycallable B) (service_name : string) (input_args : list value)
    (st : FpOpcuaServer B) (b' : B) :
  py_await_call func input_args (fp_system st) = (Ok RetObject, b') ->
  exists e st',
    event_triggering_func func service_name input_args st = (Exc e, st') /\
    events_emitted st' = events_emitted st /\
    (forall g, event_gens st !! service_name = Some g ->
       eg_attrs <$> event_gens st' !! service_name
       = Some (dict_set "ServiceExecutionResult" (VInt 0) (eg_attrs g))) /\
    (status_variables_linked (variables st) (fp_get_status b') ->
     e = AttributeError "items").
Proof.
  intros Hcall. unfold event_triggering_func.
  destruct (try_finally_runs (event_triggering_body func service_name input_args)
              publish_status st) as (r & st1 & rf & st2 & Hbody & Hfin & ->).
  unfold event_triggering_body, backend_call in Hbody. rewrite Hcall in Hbody.
  unfold emit_completion in Hbody. rewrite act_bind_run in Hbody.
  unfold event_gen_setattr at 1 in Hbody. rewrite act_bind_run in Hbody.
  unfold items_of, raise in Hbody. injection Hbody as <- <-.
  assert (Hev : events_emitted st2 = events_emitted st).
  { now rewrite (keeps_publish_status events_emitted (fun _ _ => eq_refl) _ _ _ Hfin). }
  assert (Hgens : forall g, event_gens st !! service_name = Some g ->
     eg_attrs <$> event_gens st2 !! service_name
     = Some (dict_set "ServiceExecutionResult" (VInt 0) (eg_attrs g))).
  { intros g Hg.
    rewrite (keeps_publish_status event_gens (fun _ _ => eq_refl) _ _ _ Hfin).
    server_simpl. now rewrite lookup_alter_eq, Hg. }
  destruct rf as [u|e].
  - exists (AttributeError "items"), st2. repeat split; auto.
  - exists e, st2. split; [reflexivity|]. split; [exact Hev|].
    split; [exact Hgens|]. intros Hlinked. exfalso.
    match type of Hfin with publish_status ?s = _ =>
      destruct (publish_status_shows s) as (st3 & Hpub & _)
    end.
    { server_simpl. exact Hlinked. }
    rewrite Hpub in Hfin. discriminate.
Qed.

Section RunsOnce.
Context {B : Type} `{FpSystem B}.
Implicit Types (st : FpOpcuaServer B).

(** An action emits at most one event. *)
Definition emits_at_most_one {A} (a : Act B A) : Prop :=
  forall st r st', a st = (r, st') ->
    events_emitted st' = events_emitted st \/
    exists ev, events_emitted st' = events_emitted st ++ [ev].

Lemma emit_completion_events service_name res :
  emits_at_most_one (emit_completion service_name res).
Proof.
  intros st r st' Hrun. unfold emit_completion in Hrun.
  rewrite act_bind_run in Hrun. unfold event_gen_setattr at 1 in Hrun.
  rewrite act_bind_run in Hrun.
  destruct res as [d|]; [|injection Hrun as _ <-; now left].
  unfold items_of, mret, act_ret in Hrun. rewrite act_bind_run in Hrun.
  match type of Hrun with
  | context [fill_event service_name d ?s] => set (st1 := s) in Hrun
  end.
  destruct (fill_event service_name d st1) as [[u|e] st2] eqn:Hfill;
    apply (keeps_fill_event events_emitted) in Hfill; try reflexivity.
  - unfold trigger in Hrun. rewrite act_bind_run in Hrun.
    unfold lookup_event_gen in Hrun.
    destruct (event_gens st2 !! service_name) as [g|];
      [|injection Hrun as _ <-; left; exact Hfill].
    unfold raise in Hrun.
    destruct (intact (eg_attrs g));
      [injection Hrun as _ <-; server_simpl; rewrite Hfill; eauto|].
    repeat case_match; injection Hrun as _ <-; left; exact Hfill.
  - injection Hrun as _ <-. left. exact Hfill.
Qed.

Lemma event_triggering_func_events func service_name input_args :
  emits_at_most_one (event_triggering_func func service_name input_args).
Proof.
  intros st r st' Hrun. unfold event_triggering_func in Hrun.
  destruct (try_finally_runs (event_triggering_body func service_name input_args)
              publish_status st) as (r1 & st1 & rf & st2 & Hbody & Hfin & Heq).
  rewrite Heq in Hrun. injection Hrun as _ <-.
  rewrite (keeps_publish_status events_emitted (fun _ _ => eq_refl) _ _ _ Hfin).
  unfold event_triggering_body in Hbody.
  destruct (backend_call py_await_call func input_args st) as [[res|e] st0] eqn:Hcall;
    apply (keeps_backend_call events_emitted) in Hcall; try reflexivity.
  - rewrite <- Hcall. eapply emit_completion_events; eauto.
  - injection Hbody as _ <-. now left.
Qed.

Lemma run_done_callbacks_events t cbs st :
  events_emitted (fold_left (fun st cb => run_done_callback t cb st) cbs st)
  = events_emitted st.
Proof.
  revert st. induction cbs as [|[] cbs IH]; intros st; [reflexivity|].
  cbn [fold_left]. now rewrite IH.
Qed.

Lemma finish_task_events t r st :
  events_emitted (finish_task t r st) = events_emitted st.
Proof.
  unfold finish_task. now destruct (loop_tasks st !! t) as [task|].
Qed.

End RunsOnce.

(** X15. The background execution of a dispatched call runs once: after the
    event loop ran it, the task is finished and cannot run again, and the
    run emitted at most one event. *)
Theorem background_execution_runs_once {B : Type} `{FpSystem B}
    (t : nat) (task : Task B) (st st' : FpOpcuaServer B) :
  loop_tasks st !! t = Some task ->
  is_dispatch task = true ->
  loop_run_task t st = Some st' ->
  loop_run_task t st' = None /\
  (exists r, t_state <$> loop_tasks st' !! t = Some (Finished r)) /\
  (events_emitted st' = events_emitted st \/
   exists ev, events_emitted st' = events_emitted st ++ [ev]).
Proof.
  intros Ht Hd Hrun. unfold loop_run_task in Hrun. rewrite Ht in Hrun.
  destruct task as [c s cbs]. unfold is_dispatch in Hd. cbn [t_coro] in Hd.
  destruct c as [func service_name input_args|]; [|discriminate].
  destruct s as [|r0]; [|discriminate].
  destruct (event_triggering_func func service_name input_args st)
    as [r st1] eqn:Hbody. injection Hrun as <-.
  assert (Hreg : registry st1 = registry st).
  { revert Hbody. apply keeps_try_finally.
    - now apply keeps_event_triggering_body.
    - now apply keeps_publish_status. }
  destruct (finish_task_finished t r st st1 Hreg) as (task & r' & Ht' & _ & Hlt & _).
  { eauto. }
  rewrite Ht in Ht'. injection Ht' as <-. cbn [t_coro t_callbacks] in Hlt.
  split; [|split].
  - unfold loop_run_task. now rewrite Hlt, lookup_insert_eq.
  - exists r'. now rewrite Hlt, lookup_insert_eq.
  - rewrite finish_task_events.
    eapply event_triggering_func_events; eauto.
Qed.

(** X16. A registration that the simulated backend rejects because it is
    not ready is handled like a success: the background execution emits
    the completion event as for any finished call, sets the outcome
    attribute of the generator to 0 and its [PartIDsOfDuplicates] to the
    empty text, and the backend is left as it was.  Stated for a generator
    without an attribute of the name [trigger], [event] or [isession]. *)
Theorem rejected_add_part_reports_success (rnd : Z -> Z -> Z)
    (FpStatus_reset : FpStatus -> FpStatus)
    (st : FpOpcuaServer Mockup.FpMockupSystem) (g : EventGen)
    (database_name : string) (check_id_duplicates check_fp_duplicates : bool)
    (part_id batch_id part_type : string) :
  ~ (run_state (Mockup.status (fp_system st)) = SYSTEM_READY /\
     error_type (Mockup.status (fp_system st)) = NO_ERROR) ->
  event_gens st !! "AddPart" = Some g ->
  intact (eg_attrs g) = true ->
  exists func r st' g',
    MockupBinding.getattr rnd FpStatus_reset "add_part" = Some func /\
    event_triggering_func (H := MockupBinding.fp_system_of rnd FpStatus_reset)
      func "AddPart"
      [ VStr database_name; VBool check_id_duplicates;
        VBool check_fp_duplicates; VStr part_id; VStr batch_id;
        VStr part_type ] st = (r, st') /\
    fp_system st' = fp_system st /\
    events_emitted st' = events_emitted st ++ [(eg_event_type g, eg_event g)] /\
    event_gens st' !! "AddPart" = Some g' /\
    dict_get "ServiceExecutionResult" (eg_attrs g') = Some (VInt 0) /\
    dict_get "PartIDsOfDuplicates" (eg_attrs g') = Some (VStr "").
Proof.
  intros Hn Hg Hig. apply MockupFacts.ready_false_iff in Hn.
  eexists.
  edestruct (@event_triggering_func_returns _
               (MockupBinding.fp_system_of rnd FpStatus_reset))
    as (r & st' & Hrun & Hev & Hgens & Hb); [| exact Hg | exact Hig | |].
  3: { exists r, st', (completion_gen g [("PartIDsOfDuplicates", VStr "")]).
       split; [reflexivity|]. split; [exact Hrun|]. split; [exact Hb|].
       split; [exact Hev|]. split; [now rewrite Hgens, lookup_insert_eq|].
       unfold completion_gen, completion_attrs. cbn [eg_attrs]. split.
       - rewrite filled_absent; [apply dict_get_set_eq|].
         intros Hin. apply list_elem_of_singleton in Hin. discriminate.
       - apply filled_set; [repeat constructor; set_solver | now left]. }
  - unfold py_await_call, MockupBinding.awaited.
    rewrite (MockupFacts.add_part_not_ready rnd _ _ _ _ _ _ _ Hn). reflexivity.
  - reflexivity.
Qed.

Lemma completion_event_content_witness :
  exists r st' g',
    event_triggering_func (H := LinkExample.backend)
      (LinkExample.method "trace_part") "TracePart"
      CompletionExample.trace_part_args CompletionExample.after_add = (r, st') /\
    events_emitted st'
    = events_emitted CompletionExample.after_add
      ++ [("TracePartServiceFinishedEventType",
           LinkExample.event_fields "TracePartServiceFinishedEventType")] /\
    event_gens st' !! "TracePart" = Some g' /\
    dict_get "PartID" (eg_attrs g') = Some (VStr "P1") /\
    dict_get "PartID" (eg_event g') = Some VNone.
Proof.
  edestruct (@completion_event_content _ LinkExample.backend
               (LinkExample.method "trace_part") "TracePart"
               CompletionExample.trace_part_args CompletionExample.after_add)
    as (r & st' & g' & Hrun & Hev & Hg' & Hevent & Hset & _).
  - vm_compute. reflexivity.
  - vm_compute. reflexivity.
  - reflexivity.
  - vm_compute. reflexivity.
  - apply (bool_decide_unpack _). vm_compute. exact I.
  - exists r, st', g'. split; [exact Hrun|]. split; [exact Hev|].
    split; [exact Hg'|]. split.
    + apply Hset. apply list_elem_of_further, list_elem_of_here.
    + rewrite Hevent. reflexivity.
Defined.

Lemma completion_events_all_alike_witness :
  exists r1 st1 r2 st2,
    event_triggering_func (H := LinkExample.backend)
      (LinkExample.method "add_part") "AddPart" LinkExample.add_part_args
      LinkExample.linked_server = (r1, st1) /\
    event_triggering_func (H := LinkExample.backend)
      (LinkExample.method "add_part") "AddPart" LinkExample.add_part_args
      st1 = (r2, st2) /\
    events_emitted st2
    = [ ("AddPartServiceFinishedEventType",
         LinkExample.event_fields "AddPartServiceFinishedEventType");
        ("AddPartServiceFinishedEventType",
         LinkExample.event_fields "AddPartServiceFinishedEventType") ].
Proof.
  edestruct (@completion_events_all_alike _ LinkExample.backend
               (LinkExample.method "add_part") (LinkExample.method "add_part")
               "AddPart" LinkExample.add_part_args LinkExample.add_part_args
               LinkExample.linked_server)
    as (r1 & st1 & r2 & st2 & g2 & Hrun1 & Hrun2 & Hev & _).
  - vm_compute. reflexivity.
  - vm_compute. reflexivity.
  - vm_compute. reflexivity.
  - reflexivity.
  - vm_compute. reflexivity.
  - vm_compute. reflexivity.
  - apply (bool_decide_unpack _). vm_compute. exact I.
  - exists r1, st1, r2, st2. split; [exact Hrun1|]. split; [exact Hrun2|].
    exact Hev.
Defined.

Lemma completion_of_non_mapping_witness :
  exists st',
    event_triggering_func (H := LinkExample.backend)
      (LinkExample.method "get_status") "GetStatus" []
      LinkExample.linked_server = (Exc (AttributeError "items"), st') /\
    events_emitted st' = [].
Proof.
  destruct (@completion_of_non_mapping _ LinkExample.backend
              (LinkExample.method "get_status") "GetStatus" []
              LinkExample.linked_server Examples.fresh_ready)
    as (e & st' & Hrun & Hev & _ & He).
  - vm_compute. reflexivity.
  - exists st'. rewrite Hrun, He; [split; [reflexivity | exact Hev]|].
    apply (bool_decide_unpack _). vm_compute. exact I.
Defined.

Lemma background_execution_runs_once_witness :
  loop_run_task (H := LinkExample.backend) LinkExample.add_part_task
    LinkExample.idle_server = None.
Proof.
  edestruct (@background_execution_runs_once _ LinkExample.backend
               LinkExample.add_part_task
               (mkTask (EventTriggeringFunc
                          (h_func (LinkExample.handler "AddPart")) "AddPart"
                          LinkExample.add_part_args)
                       Pending [TasksRunningDiscard])
               LinkExample.busy_server
               LinkExample.idle_server) as (Hnone & _).
  - vm_compute. reflexivity.
  - reflexivity.
  - vm_compute. reflexivity.
  - exact Hnone.
Defined.

Lemma rejected_add_part_reports_success_witness :
  exists r st' g',
    event_triggering_func (H := LinkExample.backend)
      (LinkExample.method "add_part") "AddPart" LinkExample.add_part_args
      CompletionExample.after_second_add = (r, st') /\
    events_emitted st'
    = events_emitted CompletionExample.after_second_add
      ++ [("AddPartServiceFinishedEventType",
           LinkExample.event_fields "AddPartServiceFinishedEventType")] /\
    event_gens st' !! "AddPart" = Some g' /\
    dict_get "ServiceExecutionResult" (eg_attrs g') = Some (VInt 0) /\
    dict_get "PartIDsOfDuplicates" (eg_attrs g') = Some (VStr "").
Proof.
  edestruct (rejected_add_part_reports_success Examples.no_choice id
               CompletionExample.after_second_add)
    as (func & r & st' & g' & Hf & Hrun & _ & Hev & Hg' & Hser & Hdup).
  - intros [Hr _]. vm_compute in Hr. discriminate.
  - vm_compute. reflexivity.
  - reflexivity.
  - exists r, st', g'.
    split; [|split; [exact Hev | split; [exact Hg' | split; [exact Hser | exact Hdup]]]].
    injection Hf as <-. exact Hrun.
Defined.

(** ** What linking stores *)

Section Descriptors.
Context {B : Type} `{FpSystem B}.
Implicit Types (st : FpOpcuaServer B) (asp : AddressSpace).

(** One round of the loop, in full. *)
Lemma link_round_full asp n rest st :
  exists st',
    loaded_type_definitions st' = loaded_type_definitions st /\
    (forall t, is_Some (event_gens st !! t) -> is_Some (event_gens st' !! t)) /\
    (linked_methods st' = linked_methods st \/
     exists h, descriptor_of asp (loaded_type_definitions st) n h /\
               linked_methods st' = <[n := h]> (linked_methods st) /\
               (h_returns_async h = true -> is_Some (event_gens st' !! n))) /\
    (link_services_loop asp (n :: rest) st = link_services_loop asp rest st' \/
     link_services_loop asp (n :: rest) st = st').
Proof.
  assert (Hkeep : forall (g : EventGen) t,
            is_Some (event_gens st !! t) ->
            is_Some (<[n := g]> (event_gens st) !! t)).
  { intros g t Ht. destruct (decide (n = t)) as [->|Hne].
    - rewrite lookup_insert_eq. eauto.
    - now rewrite lookup_insert_ne. }
  cbn [link_services_loop]. server_simpl.
  destruct (bool_decide (n ∈ ["register"; "unregister"])) eqn:Hres.
  { exists st. repeat split; auto. }
  apply bool_decide_eq_false in Hres.
  destruct (fp_getattr (camel_to_snake n)) as [f|] eqn:Hf.
  2: { eexists. split; [|split; [|split; [left|left; reflexivity]]];
       server_simpl; auto. }
  destruct (bool_decide (n +:+ "ServiceFinishedEventType"
                         ∈ service_finished_event_types asp)) eqn:Hev.
  - destruct (loaded_type_definitions st !! async_result_type_name asp)
      as [T|] eqn:HT.
    2: { eexists. split; [|split; [|split; [left|left; reflexivity]]];
         server_simpl; auto. }
    destruct (link_method_ok asp n).
    + eexists. split; [|split; [|split; [right|left; reflexivity]]];
        server_simpl; auto.
      eexists. split; [|split; [reflexivity|]].
      * unfold descriptor_of, make_it_service_responding.
        cbn [h_service_name h_func h_func_prior_info h_returns_async
             h_immediate_result_datatype].
        rewrite Hev. repeat split; auto. discriminate.
      * intros _. rewrite lookup_insert_eq. eauto.
    + eexists. split; [|split; [|split; [left|right; reflexivity]]];
        server_simpl; auto.
  - destruct (bool_decide (n +:+ "ServiceExecutionSyncResultDataType"
                           ∈ sync_result_data_types asp)) eqn:Hsy.
    2: { eexists. split; [|split; [|split; [left|left; reflexivity]]];
         server_simpl; auto. }
    apply bool_decide_eq_true in Hsy.
    destruct (loaded_type_definitions st
                !! (n +:+ "ServiceExecutionSyncResultDataType")) as [T|] eqn:HT.
    2: { eexists. split; [|split; [|split; [left|left; reflexivity]]];
         server_simpl; auto. }
    destruct (link_method_ok asp n).
    + eexists. split; [|split; [|split; [right|left; reflexivity]]];
        server_simpl; auto.
      eexists. split; [|split; [reflexivity|]].
      * unfold descriptor_of, make_it_service_responding.
        cbn [h_service_name h_func h_func_prior_info h_returns_async
             h_immediate_result_datatype].
        rewrite Hev. repeat split; auto.
      * discriminate.
    + eexists. split; [|split; [|split; [left|right; reflexivity]]];
        server_simpl; auto.
Qed.

Lemma link_loop_descriptors asp nodes st :
  let st' := link_services_loop asp nodes st in
  (forall t, is_Some (event_gens st !! t) -> is_Some (event_gens st' !! t)) /\
  (forall t h, linked_methods st' !! t = Some h ->
     linked_methods st !! t = Some h \/
     (t ∈ nodes /\ descriptor_of asp (loaded_type_definitions st) t h /\
      (h_returns_async h = true -> is_Some (event_gens st' !! t)))).
Proof.
  revert st. induction nodes as [|n rest IH]; intros st; cbv zeta.
  - split; auto.
  - destruct (link_round_full asp n rest st)
      as (st1 & Htypes & Hgens & Hlinked & Hgo).
    assert (Hstep : forall t h, linked_methods st1 !! t = Some h ->
       linked_methods st !! t = Some h \/
       (t = n /\ descriptor_of asp (loaded_type_definitions st) t h /\
        (h_returns_async h = true -> is_Some (event_gens st1 !! t)))).
    { intros t h Ht. destruct Hlinked as [Heq|(h1 & Hd & Heq & Hg)].
      - left. now rewrite <- Heq.
      - rewrite Heq in Ht. destruct (decide (n = t)) as [->|Hne].
        + rewrite lookup_insert_eq in Ht. injection Ht as <-. right. auto.
        + rewrite lookup_insert_ne in Ht by exact Hne. now left. }
    destruct Hgo as [-> | ->].
    + destruct (IH st1) as [Hgens' Hlinked']. cbv zeta in *. split.
      * intros t Ht. apply Hgens', Hgens, Ht.
      * intros t h Ht. destruct (Hlinked' t h Ht) as [Hold|(Hin & Hd & Hg)].
        -- destruct (Hstep t h Hold) as [Hst|(-> & Hd & Hg)]; [now left|].
           right. split; [now left|]. split; [exact Hd|].
           intros Ha. apply Hgens'. auto.
        -- right. split; [now right|]. split; [now rewrite <- Htypes|exact Hg].
    + split; [exact Hgens|].
      intros t h Ht. destruct (Hstep t h Ht) as [Hst|(-> & Hd & Hg)]; [now left|].
      right. split; [now left|]. auto.
Qed.

End Descriptors.

(** X17. A service that linking makes callable gets the handler its name
    determines: it is one of the declared services and not [register] or
    [unregister]; the handler wraps the backend's method of the transformed
    name and its estimator, if the backend has one; it returns delayed
    exactly when the service has a finished-event type (also when it has a
    sync result type as well), and its result type is the loaded definition
    of that mode. *)
Theorem linked_handler_is_determined {B : Type} `{FpSystem B}
    (asp : AddressSpace) (nodes : list string) (st : FpOpcuaServer B)
    (t : string) (h : Handler B) :
  linked_methods st !! t = None ->
  linked_methods (link_services_loop asp nodes st) !! t = Some h ->
  t ∈ nodes /\ descriptor_of asp (loaded_type_definitions st) t h.
Proof.
  intros Hnone Ht.
  destruct (link_loop_descriptors asp nodes st) as [_ Hlinked]. cbv zeta in Hlinked.
  destruct (Hlinked t h Ht) as [Hold|(Hin & Hd & _)]; [congruence | auto].
Qed.

(** X19. Linking stores the event generator of every service it links as
    delayed, under the name the handler looks it up with: the lookup of the
    generator in a linked handler finds it. *)
Theorem linked_async_has_generator {B : Type} `{FpSystem B}
    (asp : AddressSpace) (nodes : list string) (st : FpOpcuaServer B)
    (t : string) (h : Handler B) :
  linked_methods st !! t = None ->
  linked_methods (link_services_loop asp nodes st) !! t = Some h ->
  h_returns_async h = true ->
  is_Some (event_gens (link_services_loop asp nodes st) !! h_service_name h).
Proof.
  intros Hnone Ht Ha.
  destruct (link_loop_descriptors asp nodes st) as [_ Hlinked]. cbv zeta in Hlinked.
  destruct (Hlinked t h Ht) as [Hold|(_ & Hd & Hg)]; [congruence|].
  destruct Hd as (_ & -> & _). auto.
Qed.

(** X18. When [server.link_method] refuses a service, linking ends there:
    the services after it are not looked at, the callable set stays as it
    was before the refused service, and an error about it is logged; the
    handler built for it is already stored as an attribute of the server. *)
Theorem link_refusal_ends_linking {B : Type} `{FpSystem B}
    (asp : AddressSpace) (n : string) (post : list string)
    (st : FpOpcuaServer B) :
  link_outcome_of asp (loaded_type_definitions st) n = LinkRefused ->
  let st' := link_services_loop asp (n :: post) st in
  st' = link_services_loop asp [n] st /\
  linked_methods st' = linked_methods st /\
  is_Some (service_backends st' !! ("service_backend_" +:+ camel_to_snake n)) /\
  log st' = log st ++ [(ERROR, CouldNotLink n ("service_backend_" +:+ camel_to_snake n))].
Proof.
  unfold link_outcome_of. cbn [link_services_loop]. server_simpl.
  intros Hout. repeat case_match; try discriminate; server_simpl;
    (split; [reflexivity|]); (split; [reflexivity|]);
    (split; [rewrite lookup_insert_eq; eauto | reflexivity]).
Qed.

Lemma linked_handler_is_determined_witness :
  descriptor_of (H := LinkExample.backend) DescriptorExample.both_shapes
    (loaded_type_definitions LinkExample.server0) "ResetSystem"
    DescriptorExample.reset_handler.
Proof.
  apply (@linked_handler_is_determined _ LinkExample.backend
           DescriptorExample.both_shapes
           (service_nodes DescriptorExample.both_shapes) LinkExample.server0
           "ResetSystem" DescriptorExample.reset_handler).
  - reflexivity.
  - vm_compute. reflexivity.
Defined.

Lemma linked_async_has_generator_witness :
  is_Some (event_gens LinkExample.linked_server !! "AddPart").
Proof.
  apply (@linked_async_has_generator _ LinkExample.backend
           LinkExample.address_space (service_nodes LinkExample.address_space)
           LinkExample.server0 "AddPart" (LinkExample.handler "AddPart")).
  - reflexivity.
  - vm_compute. reflexivity.
  - vm_compute. reflexivity.
Defined.

Lemma link_refusal_ends_linking_witness :
  linked_methods
    (link_services (H := LinkExample.backend) DescriptorExample.refusing
       LinkExample.server0) = ∅.
Proof.
  destruct (@link_refusal_ends_linking _ LinkExample.backend
              DescriptorExample.refusing "ResetSystem" ["AddPart"]
              LinkExample.server0) as (_ & Hlinked & _).
  - vm_compute. reflexivity.
  - exact Hlinked.
Defined.


(** ** The simulated backend, call by call *)

Section Outcome.
Context {S : Type} (rnd : Z -> Z -> Z).

Lemma outcome_async_with_lock {R} (body : coro S R) (s : S) :
  outcome rnd (async_with_lock body) s = outcome rnd body s.
Proof. unfold outcome. now rewrite run_async_with_lock. Qed.

Lemma outcome_ret {R} (r : R) (s : S) : outcome rnd (mret r) s = (r, s).
Proof. reflexivity. Qed.

Lemma outcome_get {R} (f : S -> coro S R) (s : S) :
  outcome rnd (get ≫= f) s = outcome rnd (f s) s.
Proof. reflexivity. Qed.

Lemma outcome_modify {R} (g : S -> S) (f : unit -> coro S R) (s : S) :
  outcome rnd (modify g ≫= f) s = outcome rnd (f tt) (g s).
Proof. reflexivity. Qed.

Lemma outcome_sleep {R} (q : Q) (f : unit -> coro S R) (s : S) :
  outcome rnd (sleep q ≫= f) s = outcome rnd (f tt) s.
Proof.
  unfold outcome. change (run rnd (sleep q ≫= f) s)
    with (let '(r, s', zs) := run rnd (f tt) s in (r, s', q :: zs)).
  now destruct (run rnd (f tt) s) as [[r s'] zs].
Qed.

Lemma outcome_randint {R} (lo hi : Z) (f : Z -> coro S R) (s : S) :
  outcome rnd (randint lo hi ≫= f) s = outcome rnd (f (rnd lo hi)) s.
Proof. reflexivity. Qed.

(** One call after the other. *)
Lemma outcome_bind {A R} (c : coro S A) (f : A -> coro S R) (s : S) :
  outcome rnd (c ≫= f) s
  = outcome rnd (f (fst (outcome rnd c s))) (snd (outcome rnd c s)).
Proof.
  unfold outcome. rewrite run_bind.
  destruct (run rnd c s) as [[a s1] zs1]. cbn [fst snd].
  now destruct (run rnd (f a) s1) as [[r s2] zs2].
Qed.

End Outcome.

Ltac outcome_steps :=
  repeat first
    [ rewrite outcome_async_with_lock
    | rewrite outcome_get
    | rewrite outcome_modify
    | rewrite outcome_sleep
    | rewrite outcome_randint
    | rewrite outcome_ret ].

Section DictSets.
Context {A : Type}.

Lemma dict_set_set k (v w : A) d : dict_set k v (dict_set k w d) = dict_set k v d.
Proof.
  induction d as [|[k' v'] d IH]; simpl.
  - now rewrite String.eqb_refl.
  - destruct (String.eqb k k') eqn:E; simpl.
    + now rewrite String.eqb_refl.
    + now rewrite E, IH.
Qed.

Lemma dict_get_In k (v : A) d : dict_get k d = Some v -> In (k, v) d.
Proof.
  induction d as [|[k' v'] d IH]; simpl; [discriminate|].
  destruct (String.eqb k k') eqn:E.
  - apply String.eqb_eq in E as ->. intros [= ->]. now left.
  - intros H. right. auto.
Qed.

End DictSets.

Module MockupCallFacts.
Import Mockup MockupCalls.

Lemma rjust_zero fill (s : string) : PyStr.rjust 0 fill s = s.
Proof. reflexivity. Qed.

Lemma database_in_all_entries name self e :
  e ∈ database name self -> e ∈ all_entries self.
Proof.
  unfold database, all_entries.
  destruct (dict_get name (fp_databases self)) as [db|] eqn:Hdb; cbn [default].
  - intros He. apply dict_get_In in Hdb.
    apply list_elem_of_In. apply in_concat. exists db. split.
    + apply in_map_iff. now exists (name, db).
    + now apply list_elem_of_In.
  - intros He. inversion He.
Qed.

Lemma filter_none {X} (f : X -> bool) (l : list X) :
  (forall x, x ∈ l -> f x = false) -> List.filter f l = [].
Proof.
  induction l as [|x l IH]; intros H; simpl; [reflexivity|].
  rewrite (H x) by apply list_elem_of_here.
  apply IH. intros y Hy. apply H. now apply list_elem_of_further.
Qed.

Lemma filter_some {X} (f : X -> bool) (l : list X) x :
  x ∈ l -> f x = true -> (0 <? length (List.filter f l))%nat = true.
Proof.
  intros Hx Hf. assert (Hin : In x (List.filter f l)).
  { apply filter_In. split; [now apply list_elem_of_In | assumption]. }
  destruct (List.filter f l); [destruct Hin | reflexivity].
Qed.

Lemma set_add_here e db : e ∈ set_add e db.
Proof.
  unfold set_add. case_bool_decide as H; [assumption|].
  apply elem_of_app. right. apply list_elem_of_here.
Qed.

Lemma set_add_keeps e e' db : e' ∈ db -> e' ∈ set_add e db.
Proof.
  intros H. unfold set_add. case_bool_decide; [assumption|].
  apply elem_of_app. now left.
Qed.

(** [add_part] on a ready backend, by the three ways it can end. *)
Lemma add_part_outcome rnd self database_name check_id check_fp p b t :
  ready (status self) = true ->
  outcome rnd (add_part database_name check_id check_fp p b t) self
  = let ids := List.filter (fun e => check_id && String.eqb (part_id e) p)
                 (all_entries self) in
    let fps := List.filter
                 (fun e => check_fp
                           && String.eqb (fingerprint e) (fingerprint_of p b t))
                 (all_entries self) in
    if (0 <? length ids)%nat then
      ([("PartIDsOfDuplicates", VStr "None")],
       with_status (FpStatus_update SYSTEM_ERROR RESULT_READY
                      ID_DUPLICATE_FOUND "") self)
    else if (0 <? length fps)%nat then
      ([("PartIDsOfDuplicates", VStr "None")],
       with_status (FpStatus_update SYSTEM_ERROR RESULT_READY
                      FP_DUPLICATE_FOUND "") self)
    else
      ([("PartIDsOfDuplicates", VStr "")],
       with_status (FpStatus_update SYSTEM_READY RESULT_READY NO_ERROR "")
         (with_fp_databases
            (dict_set database_name
               (set_add (entry_of p b t) (database database_name self))
               (fp_databases self)) self)).
Proof.
  intros Hr. unfold add_part. outcome_steps. rewrite Hr. cbn [negb].
  unfold status_update. outcome_steps. cbv zeta.
  change (FINGERPRINT_SIZE / 3)%nat with 0%nat.
  change (FINGERPRINT_SIZE / 3 + FINGERPRINT_SIZE mod 3)%nat with 0%nat.
  rewrite !rjust_zero.
  change (fp_databases (with_status _ (with_status _ self)))
    with (fp_databases self).
  fold (all_entries self). fold (fingerprint_of p b t).
  destruct (0 <? length (List.filter _ (all_entries self)))%nat.
  { outcome_steps. reflexivity. }
  destruct (0 <? length (List.filter _ (all_entries self)))%nat.
  { outcome_steps. reflexivity. }
  outcome_steps. unfold database, entry_of.
  destruct self as [stt im dbs]. unfold with_status, with_fp_databases.
  cbn [status image_matching fp_databases].
  destruct (dict_get database_name dbs) as [target|] eqn:Hdb.
  - rewrite Hdb. reflexivity.
  - rewrite dict_get_set_eq. cbn [default]. now rewrite dict_set_set.
Qed.

(** [trace_part] on a ready backend, by the ways it can end. *)
Lemma trace_part_outcome rnd self database_name refs trace_all bs bw ts tw :
  ready (status self) = true ->
  outcome rnd (trace_part database_name refs trace_all bs bw ts tw) self
  = match first_candidates (fp_databases self) (fits bs bw ts tw)
            (visited database_name refs trace_all self) with
    | None =>
        (no_part_found,
         with_status (FpStatus_update SYSTEM_READY RESULT_READY NO_ERROR "") self)
    | Some (ref_db_name, candidates) =>
        match candidates
              !! Z.to_nat (rnd 0%Z (Z.of_nat (length candidates) - 1)%Z) with
        | None =>
            ([], with_status (FpStatus_update COMMAND_RUNNING RESULT_UNDEFINED
                                NO_ERROR "trace_part") self)
        | Some e =>
            (part_found e,
             with_status (FpStatus_update SYSTEM_READY RESULT_READY NO_ERROR "")
               (with_fp_databases
                  (moved e ref_db_name database_name (fp_databases self)) self))
        end
    end.
Proof.
  intros Hr. unfold trace_part. outcome_steps. rewrite Hr. cbn [negb].
  unfold status_update. outcome_steps. cbv zeta.
  change (fp_databases (with_status _ (with_status _ self)))
    with (fp_databases self).
  fold (visited database_name refs trace_all self).
  fold (fits bs bw ts tw).
  destruct (first_candidates _ _ _) as [[ref_db_name candidates]|].
  - outcome_steps.
    destruct (candidates !! _) as [e|]; outcome_steps; [|reflexivity].
    unfold moved. destruct self as [stt im dbs].
    unfold with_status, with_fp_databases.
    cbn [status image_matching fp_databases].
    now destruct (dict_get database_name _).
  - outcome_steps. reflexivity.
Qed.

Lemma first_candidates_Some dbs f names ref_db_name candidates :
  first_candidates dbs f names = Some (ref_db_name, candidates) ->
  exists ref_db, dict_get ref_db_name dbs = Some ref_db /\
                 candidates = List.filter f ref_db /\
                 (0 < length candidates)%nat.
Proof.
  induction names as [|n names IH]; simpl; [discriminate|].
  destruct (dict_get n dbs) as [ref_db|] eqn:Hdb; [|exact IH].
  destruct (0 <? length (List.filter f ref_db))%nat eqn:Hlen; [|exact IH].
  intros [= <- <-]. exists ref_db. repeat split; [assumption|].
  now apply Nat.ltb_lt.
Qed.

Lemma first_candidates_nothing_fits dbs f names :
  (forall e, f e = false) -> first_candidates dbs f names = None.
Proof.
  intros Hf. induction names as [|n names IH]; simpl; [reflexivity|].
  destruct (dict_get n dbs) as [ref_db|]; [|exact IH].
  rewrite filter_none by auto. exact IH.
Qed.

Lemma dict_get_database name self db :
  dict_get name (fp_databases self) = Some db -> database name self = db.
Proof. unfold database. now intros ->. Qed.

Lemma ready_update_ready self :
  ready (status (with_status
           (FpStatus_update SYSTEM_READY RESULT_READY NO_ERROR "") self)) = true.
Proof. reflexivity. Qed.

End MockupCallFacts.

Section MockupCallProperties.
Import Mockup MockupCalls MockupCallFacts.

Lemma database_with name v dbs f self :
  database name (with_status f (with_fp_databases (dict_set name v dbs) self))
  = v.
Proof.
  unfold database. cbn [fp_databases with_status with_fp_databases].
  now rewrite dict_get_set_eq.
Qed.

(** X20. [add_part] on a ready backend, when the duplicate checks that are
    switched on find nothing: the reply's [PartIDsOfDuplicates] is empty, the
    backend ends ready with the result available, the part is an entry of
    the named database (created if it did not exist), what that database
    held before is still there, and every other database is as it was. *)
Theorem add_part_stores_the_part (rnd : Z -> Z -> Z) self database_name
    (check_id check_fp : bool) p b t :
  ready (status self) = true ->
  (check_id = true -> Forall (fun e => part_id e <> p) (all_entries self)) ->
  (check_fp = true ->
   Forall (fun e => fingerprint e <> fingerprint_of p b t) (all_entries self)) ->
  exists self',
    outcome rnd (add_part database_name check_id check_fp p b t) self
    = ([("PartIDsOfDuplicates", VStr "")], self') /\
    status self' = mkFpStatus SYSTEM_READY RESULT_READY NO_ERROR "" /\
    entry_of p b t ∈ database database_name self' /\
    (forall e, e ∈ database database_name self ->
               e ∈ database database_name self') /\
    (forall other, other <> database_name ->
       dict_get other (fp_databases self') = dict_get other (fp_databases self)).
Proof.
  intros Hr Hid Hfp. rewrite add_part_outcome by assumption. cbv zeta.
  rewrite (filter_none (fun e => check_id && String.eqb (part_id e) p)).
  2:{ intros e He. destruct check_id; [|reflexivity]. cbn [andb].
      apply String.eqb_neq. revert e He. apply Forall_forall. auto. }
  rewrite (filter_none (fun e => check_fp && _)).
  2:{ intros e He. destruct check_fp; [|reflexivity]. cbn [andb].
      apply String.eqb_neq. revert e He. apply Forall_forall. auto. }
  cbn [length Nat.ltb Nat.leb]. eexists. split; [reflexivity|].
  split; [reflexivity|]. rewrite !database_with.
  split; [apply set_add_here|]. split.
  - intros e He. now apply set_add_keeps.
  - intros other Hne. now apply dict_get_set_ne.
Qed.

Lemma add_part_stores_the_part_witness :
  exists self',
    outcome Examples.no_choice
      (add_part "DB2" true true "P3" "B3" "T3") CallExamples.stocked
    = ([("PartIDsOfDuplicates", VStr "")], self') /\
    database "DB2" self' = [entry_of "P2" "B2" "T2"; entry_of "P3" "B3" "T3"] /\
    database "DB1" self' = [entry_of "A" "BC" ""].
Proof.
  destruct (add_part_stores_the_part Examples.no_choice CallExamples.stocked
              "DB2" true true "P3" "B3" "T3") as (self' & Hrun & _).
  - reflexivity.
  - intros _. apply (bool_decide_unpack _). vm_compute. exact I.
  - intros _. apply (bool_decide_unpack _). vm_compute. exact I.
  - exists self'. split; [exact Hrun|].
    assert (Hs : self' = snd (outcome Examples.no_choice
                   (add_part "DB2" true true "P3" "B3" "T3") CallExamples.stocked))
      by now rewrite Hrun.
    rewrite Hs. vm_compute. split; reflexivity.
Defined.

(** X21. [add_part] with the ID check on, on a ready backend that holds an
    entry with the same part ID in any of its databases: the part is not
    stored, the databases stay as they are, the backend goes to
    [SYSTEM_ERROR] with [ID_DUPLICATE_FOUND] (so it is no longer ready), and
    the reply's [PartIDsOfDuplicates] is the text [None].  This holds
    whether or not the fingerprint check is on and finds something. *)
Theorem add_part_id_duplicate_anywhere (rnd : Z -> Z -> Z) self database_name
    (check_fp : bool) p b t e :
  ready (status self) = true ->
  e ∈ all_entries self -> part_id e = p ->
  exists self',
    outcome rnd (add_part database_name true check_fp p b t) self
    = ([("PartIDsOfDuplicates", VStr "None")], self') /\
    status self' = mkFpStatus SYSTEM_ERROR RESULT_READY ID_DUPLICATE_FOUND "" /\
    ready (status self') = false /\
    fp_databases self' = fp_databases self.
Proof.
  intros Hr He Hp. rewrite add_part_outcome by assumption. cbv zeta.
  rewrite (filter_some (fun e => true && String.eqb (part_id e) p) _ e He).
  2:{ cbn [andb]. now apply String.eqb_eq. }
  eexists. split; [reflexivity|]. repeat split.
Qed.

Lemma add_part_id_duplicate_anywhere_witness :
  exists self',
    outcome Examples.no_choice
      (add_part "DB1" true false "P2" "B9" "T9") CallExamples.stocked
    = ([("PartIDsOfDuplicates", VStr "None")], self') /\
    fp_databases self' = fp_databases CallExamples.stocked.
Proof.
  destruct (add_part_id_duplicate_anywhere Examples.no_choice
              CallExamples.stocked "DB1" false "P2" "B9" "T9"
              (entry_of "P2" "B2" "T2")) as (self' & Hrun & _ & _ & Hdbs).
  - reflexivity.
  - apply list_elem_of_further, list_elem_of_here.
  - reflexivity.
  - exists self'. split; assumption.
Defined.

(** X22. [add_part] with the fingerprint check on, on a ready backend where
    the ID check (if on) finds nothing but some entry of some database has
    the new part's pseudo fingerprint: the part is not stored, the
    databases stay as they are, the backend goes to [SYSTEM_ERROR] with
    [FP_DUPLICATE_FOUND], and the reply's [PartIDsOfDuplicates] is the text
    [None].  The fingerprint is the three identifiers put together, so a
    part with other identifiers that concatenate to the same text counts as
    a duplicate. *)
Theorem add_part_fingerprint_duplicate (rnd : Z -> Z -> Z) self database_name
    (check_id : bool) p b t e :
  ready (status self) = true ->
  (check_id = true -> Forall (fun e => part_id e <> p) (all_entries self)) ->
  e ∈ all_entries self -> fingerprint e = fingerprint_of p b t ->
  exists self',
    outcome rnd (add_part database_name check_id true p b t) self
    = ([("PartIDsOfDuplicates", VStr "None")], self') /\
    status self' = mkFpStatus SYSTEM_ERROR RESULT_READY FP_DUPLICATE_FOUND "" /\
    ready (status self') = false /\
    fp_databases self' = fp_databases self.
Proof.
  intros Hr Hid He Hfp. rewrite add_part_outcome by assumption. cbv zeta.
  rewrite (filter_none (fun e => check_id && String.eqb (part_id e) p)).
  2:{ intros e' He'. destruct check_id; [|reflexivity]. cbn [andb].
      apply String.eqb_neq. revert e' He'. apply Forall_forall. auto. }
  rewrite (filter_some (fun e => true && _) _ e He).
  2:{ cbn [andb]. now apply String.eqb_eq. }
  cbn [length Nat.ltb Nat.leb]. eexists. split; [reflexivity|]. repeat split.
Qed.

Lemma add_part_fingerprint_duplicate_witness :
  exists self',
    outcome Examples.no_choice
      (add_part "DB2" true true "AB" "C" "") CallExamples.stocked
    = ([("PartIDsOfDuplicates", VStr "None")], self') /\
    status self' = mkFpStatus SYSTEM_ERROR RESULT_READY FP_DUPLICATE_FOUND "".
Proof.
  destruct (add_part_fingerprint_duplicate Examples.no_choice
              CallExamples.stocked "DB2" true "AB" "C" ""
              (entry_of "A" "BC" "")) as (self' & Hrun & Hst & _).
  - reflexivity.
  - intros _. apply (bool_decide_unpack _). vm_compute. exact I.
  - apply list_elem_of_here.
  - reflexivity.
  - exists self'. split; assumption.
Defined.

Lemma fits_without_names bs bw ts tw e :
  (bw = true /\ bs = "") \/ (tw = true /\ ts = "") -> fits bs bw ts tw e = false.
Proof.
  intros [[-> ->]|[-> ->]]; unfold fits; cbn [split_names String.length Nat.eqb].
  - rewrite bool_decide_eq_false_2 by (intros H; inversion H). reflexivity.
  - rewrite (bool_decide_eq_false_2 (part_type e ∈ []))
      by (intros H; inversion H).
    cbn [negb andb]. now rewrite orb_true_r.
Qed.

(** X23. [trace_part] on a ready backend with batchwise tracing on and no
    batch named, or typewise tracing on and no part type named: no entry is
    a candidate, so whatever the databases hold the reply is the one for no
    part found (empty identifiers, confidence values 0), the databases are
    not touched and the backend ends ready. *)
Theorem trace_part_without_names_finds_nothing (rnd : Z -> Z -> Z) self
    database_name refs (trace_all : bool) bs (bw : bool) ts (tw : bool) :
  ready (status self) = true ->
  (bw = true /\ bs = "") \/ (tw = true /\ ts = "") ->
  outcome rnd (trace_part database_name refs trace_all bs bw ts tw) self
  = (no_part_found,
     mkMockup (mkFpStatus SYSTEM_READY RESULT_READY NO_ERROR "")
              (image_matching self) (fp_databases self)).
Proof.
  intros Hr Hnames. rewrite trace_part_outcome by assumption.
  rewrite first_candidates_nothing_fits; [reflexivity|].
  intros e. now apply fits_without_names.
Qed.

Lemma trace_part_without_names_finds_nothing_witness :
  outcome Examples.no_choice
    (trace_part "DB3" "DB1;DB2" true "" true "T2" true) CallExamples.stocked
  = (no_part_found, CallExamples.stocked).
Proof.
  rewrite (trace_part_without_names_finds_nothing Examples.no_choice
             CallExamples.stocked "DB3" "DB1;DB2" true "" true "T2" true).
  - reflexivity.
  - reflexivity.
  - left. split; reflexivity.
Defined.

Lemma database_moved_target e ref_db_name database_name dbs :
  e ∈ default [] (dict_get database_name (moved e ref_db_name database_name dbs)).
Proof.
  unfold moved. rewrite dict_get_set_eq. cbn [default]. apply set_add_here.
Qed.

(** X24. What [trace_part] hands back on a ready backend, when [randint]
    answers within its bounds: the backend ends ready, and either the reply
    is the one for no part found and the databases are untouched, or the
    reply names, with the fixed confidence values 99, 100, 97, 98, an entry
    that was stored in one of the databases, that passes the filters that
    are on (its batch among the named batches, its type among the named
    types), and that is in the target database when the call ends. *)
Theorem trace_part_returns_a_stored_part (rnd : Z -> Z -> Z) self
    database_name refs (trace_all : bool) bs (bw : bool) ts (tw : bool)
    res self' :
  ready (status self) = true -> within_bounds rnd ->
  outcome rnd (trace_part database_name refs trace_all bs bw ts tw) self
  = (res, self') ->
  ready (status self') = true /\
  ((res = no_part_found /\ fp_databases self' = fp_databases self) \/
   exists e, e ∈ all_entries self /\ res = part_found e /\
             (bw = true -> batch_id e ∈ split_names bs) /\
             (tw = true -> part_type e ∈ split_names ts) /\
             e ∈ database database_name self').
Proof.
  intros Hr Hrnd. rewrite trace_part_outcome by assumption.
  destruct (first_candidates _ _ _) as [[ref_db_name candidates]|] eqn:Hfc.
  2:{ intros [= <- <-]. split; [reflexivity|]. left. now split. }
  apply first_candidates_Some in Hfc as (ref_db & Hdb & Hcand & Hlen).
  pose proof (Hrnd 0%Z (Z.of_nat (length candidates) - 1)%Z ltac:(lia)) as Hx.
  destruct (lookup_lt_is_Some_2 candidates
              (Z.to_nat (rnd 0%Z (Z.of_nat (length candidates) - 1)%Z))
              ltac:(lia)) as [e He].
  rewrite He. intros [= <- <-]. split; [reflexivity|]. right. exists e.
  apply list_elem_of_lookup_2 in He. rewrite Hcand in He.
  apply list_elem_of_In, filter_In in He as [Hin Hfits].
  apply list_elem_of_In in Hin.
  split.
  { apply (database_in_all_entries ref_db_name). unfold database.
    now rewrite Hdb. }
  split; [reflexivity|]. unfold fits in Hfits.
  apply negb_true_iff, orb_false_iff in Hfits as [Hb Ht].
  split; [|split].
  - intros ->. cbn [andb] in Hb. apply negb_false_iff in Hb.
    now apply bool_decide_eq_true in Hb.
  - intros ->. cbn [andb] in Ht. apply negb_false_iff in Ht.
    now apply bool_decide_eq_true in Ht.
  - unfold database. cbn [fp_databases with_status with_fp_databases].
    apply database_moved_target.
Qed.

Lemma trace_part_returns_a_stored_part_witness :
  exists e self',
    outcome Examples.no_choice
      (trace_part "DB3" "DB1;DB2" false "B2" true "" false) CallExamples.stocked
    = (part_found e, self') /\
    batch_id e = "B2" /\ e ∈ database "DB3" self'.
Proof.
  destruct (outcome Examples.no_choice
              (trace_part "DB3" "DB1;DB2" false "B2" true "" false)
              CallExamples.stocked) as [res self'] eqn:Hrun.
  destruct (trace_part_returns_a_stored_part Examples.no_choice
              CallExamples.stocked "DB3" "DB1;DB2" false "B2" true "" false
              res self') as [_ [[Hres _]|(e & _ & Hres & Hb & _ & Htarget)]].
  - reflexivity.
  - intros lo hi Hle. unfold Examples.no_choice. lia.
  - exact Hrun.
  - exfalso. rewrite Hres in Hrun. vm_compute in Hrun. discriminate Hrun.
  - exists e, self'. rewrite Hres. split; [reflexivity|]. split; [|exact Htarget].
    specialize (Hb eq_refl). vm_compute in Hb.
    apply list_elem_of_In in Hb. destruct Hb as [Hb|[]]. now symmetry.
Defined.

Lemma set_remove_single e : set_remove e [e] = [].
Proof.
  unfold set_remove. cbn [List.filter].
  now rewrite bool_decide_eq_true_2.
Qed.

(** X25. Registering a part and tracing it back.  On a ready backend whose
    database [database_name] is empty or missing, [add_part] of a part with
    both duplicate checks off followed by [trace_part] on that database alone,
    without filters, returns exactly that part's identifiers, and the
    database holds that one part afterwards. *)
Theorem add_then_trace_returns_the_part (rnd : Z -> Z -> Z) self database_name
    p b t :
  ready (status self) = true -> within_bounds rnd ->
  database database_name self = [] ->
  exists self',
    outcome rnd
      (add_part database_name false false p b t;;
       trace_part database_name "" false "" false "" false) self
    = (part_found (entry_of p b t), self') /\
    database database_name self' = [entry_of p b t] /\
    ready (status self') = true.
Proof.
  intros Hr Hrnd Hempty. rewrite outcome_bind.
  rewrite add_part_outcome by assumption. cbv zeta.
  rewrite !filter_none by reflexivity. cbn [length Nat.ltb Nat.leb fst snd].
  rewrite Hempty. rewrite trace_part_outcome by reflexivity.
  assert (Hvisited : forall s, visited database_name "" false s = [database_name]).
  { intros s. unfold visited, split_names, append_if_absent.
    cbn [String.length Nat.eqb].
    now rewrite bool_decide_eq_false_2 by (intros H; inversion H). }
  rewrite Hvisited. cbn [first_candidates fp_databases with_status with_fp_databases].
  rewrite dict_get_set_eq.
  change (set_add (entry_of p b t) []) with [entry_of p b t].
  change (List.filter (fits "" false "" false) [entry_of p b t])
    with [entry_of p b t].
  cbn [length Nat.ltb Nat.leb].
  pose proof (Hrnd 0%Z 0%Z ltac:(lia)) as Hx.
  change (Z.of_nat 1 - 1)%Z with 0%Z.
  replace (rnd 0%Z 0%Z) with 0%Z by lia. cbn [Z.to_nat lookup list_lookup].
  eexists. split; [reflexivity|]. split; [|reflexivity].
  unfold database, moved. cbn [fp_databases with_status with_fp_databases].
  rewrite !dict_get_set_eq. cbn [default].
  now rewrite set_remove_single.
Qed.

Lemma add_then_trace_returns_the_part_witness :
  exists self',
    outcome Examples.no_choice
      (add_part "DB1" false false "P1" "B1" "T1";;
       trace_part "DB1" "" false "" false "" false) Examples.fresh_ready
    = (part_found (entry_of "P1" "B1" "T1"), self') /\
    database "DB1" self' = [entry_of "P1" "B1" "T1"].
Proof.
  destruct (add_then_trace_returns_the_part Examples.no_choice
              Examples.fresh_ready "DB1" "P1" "B1" "T1")
    as (self' & Hrun & Hdb & _).
  - reflexivity.
  - intros lo hi Hle. unfold Examples.no_choice. lia.
  - reflexivity.
  - exists self'. split; assumption.
Defined.

Section Entries.
Implicit Types (d : pydict (list FpDatabaseEntry)) (e : FpDatabaseEntry).

(** The entries of all databases of a [dict]. *)
Local Abbreviation entries d := (concat (map snd d)).

Lemma entries_dict_get k d db e :
  dict_get k d = Some db -> e ∈ db -> e ∈ entries d.
Proof.
  intros Hdb He. apply dict_get_In in Hdb.
  apply list_elem_of_In, in_concat. exists db. split.
  - apply in_map_iff. now exists (k, db).
  - now apply list_elem_of_In.
Qed.

Lemma entries_set_value k v d e : e ∈ v -> e ∈ entries (dict_set k v d).
Proof.
  intros He. apply (entries_dict_get k _ v); [apply dict_get_set_eq | assumption].
Qed.

(** An entry of the old databases is in the new ones, unless it was in the
    database that was replaced. *)
Lemma entries_set_cases k v d e :
  e ∈ entries d ->
  e ∈ entries (dict_set k v d) \/ e ∈ default [] (dict_get k d).
Proof.
  induction d as [|[k' v'] d IH]; cbn [map concat snd dict_set dict_get].
  - intros H. inversion H.
  - intros H. apply elem_of_app in H.
    destruct (String.eqb k k') eqn:E; cbn [map concat snd default].
    + destruct H as [H|H]; [now right|]. left. apply elem_of_app. now right.
    + destruct H as [H|H].
      * left. apply elem_of_app. now left.
      * destruct (IH H) as [H'|H']; [|now right].
        left. apply elem_of_app. now right.
Qed.

(** An entry of the new databases is in the new value or was there before. *)
Lemma entries_set_inv k v d e :
  e ∈ entries (dict_set k v d) -> e ∈ v \/ e ∈ entries d.
Proof.
  induction d as [|[k' v'] d IH]; cbn [map concat snd dict_set].
  - rewrite app_nil_r. now left.
  - destruct (String.eqb k k') eqn:E; cbn [map concat snd];
      intros H; apply elem_of_app in H as [H|H].
    + now left.
    + right. apply elem_of_app. now right.
    + right. apply elem_of_app. now left.
    + destruct (IH H) as [H'|H']; [now left|].
      right. apply elem_of_app. now right.
Qed.

Lemma default_entries k d e :
  e ∈ default [] (dict_get k d) -> e ∈ entries d.
Proof.
  destruct (dict_get k d) as [db|] eqn:Hdb; cbn [default].
  - now apply (entries_dict_get k).
  - intros H. inversion H.
Qed.

Lemma set_add_inv e e' db : e' ∈ set_add e db -> e' = e \/ e' ∈ db.
Proof.
  unfold set_add. case_bool_decide as Hin; [now right|].
  intros H. apply elem_of_app in H as [H|H]; [now right|].
  left. apply list_elem_of_In in H. destruct H as [H|[]]. now symmetry.
Qed.

Lemma set_remove_inv e e' db : e' ∈ set_remove e db -> e' ∈ db.
Proof.
  unfold set_remove. intros H.
  apply list_elem_of_In, filter_In in H as [H _]. now apply list_elem_of_In.
Qed.

Lemma set_remove_other e e' db : e' ∈ db -> e' <> e -> e' ∈ set_remove e db.
Proof.
  intros H Hne. unfold set_remove. apply list_elem_of_In, filter_In.
  split; [now apply list_elem_of_In|].
  now rewrite bool_decide_eq_false_2.
Qed.

Lemma entries_added k e' d e :
  e ∈ entries d ->
  e ∈ entries (dict_set k (set_add e' (default [] (dict_get k d))) d).
Proof.
  intros H. destruct (entries_set_cases k (set_add e' (default [] (dict_get k d))) d e H)
    as [H'|H']; [assumption|].
  apply entries_set_value. now apply set_add_keeps.
Qed.

Lemma entries_added_inv k e' d e :
  e ∈ entries (dict_set k (set_add e' (default [] (dict_get k d))) d) ->
  e = e' \/ e ∈ entries d.
Proof.
  intros H. apply entries_set_inv in H as [H|H]; [|now right].
  apply set_add_inv in H as [H|H]; [now left|].
  right. now apply (default_entries k).
Qed.

Lemma entries_moved e' r k d e :
  e ∈ entries d -> e ∈ entries (moved e' r k d).
Proof.
  intros H. unfold moved. destruct (decide (e = e')) as [->|Hne].
  { apply entries_set_value, set_add_here. }
  apply entries_added.
  destruct (entries_set_cases r (set_remove e' (default [] (dict_get r d))) d e H)
    as [H'|H']; [assumption|].
  apply entries_set_value. now apply set_remove_other.
Qed.

Lemma entries_moved_inv e' r k d e :
  e' ∈ entries d -> e ∈ entries (moved e' r k d) -> e ∈ entries d.
Proof.
  intros He' H. unfold moved in H.
  apply entries_added_inv in H as [->|H]; [assumption|].
  apply entries_set_inv in H as [H|H]; [|assumption].
  apply set_remove_inv in H. now apply (default_entries r).
Qed.

End Entries.

Lemma outcome_fmap {S A R} rnd (g : A -> R) (c : coro S A) (s : S) :
  outcome rnd (g <$> c) s
  = (g (fst (outcome rnd c s)), snd (outcome rnd c s)).
Proof.
  change (g <$> c) with (c ≫= fun a => mret (g a)).
  now rewrite outcome_bind, outcome_ret.
Qed.

Lemma add_part_entries rnd self database_name check_id check_fp p b t :
  let self' :=
    snd (outcome rnd (add_part database_name check_id check_fp p b t) self) in
  (forall e, e ∈ all_entries self -> e ∈ all_entries self') /\
  (forall e, e ∈ all_entries self' ->
             e ∈ all_entries self \/ e = entry_of p b t).
Proof.
  cbv zeta. destruct (ready (status self)) eqn:Hr.
  2:{ unfold outcome. rewrite MockupFacts.add_part_not_ready by assumption.
      cbn [fst snd]. auto. }
  rewrite add_part_outcome by assumption. cbv zeta.
  destruct (0 <? _)%nat; [cbn [snd]; unfold all_entries; cbn; auto|].
  destruct (0 <? _)%nat; [cbn [snd]; unfold all_entries; cbn; auto|].
  cbn [snd]. unfold all_entries, database.
  cbn [fp_databases with_status with_fp_databases]. split.
  - intros e. apply entries_added.
  - intros e H. apply entries_added_inv in H. tauto.
Qed.

Lemma trace_part_entries rnd self database_name refs trace_all bs bw ts tw :
  let self' :=
    snd (outcome rnd
           (trace_part database_name refs trace_all bs bw ts tw) self) in
  forall e, e ∈ all_entries self' <-> e ∈ all_entries self.
Proof.
  cbv zeta. destruct (ready (status self)) eqn:Hr.
  2:{ unfold outcome. rewrite MockupFacts.trace_part_not_ready by assumption.
      cbn [fst snd]. tauto. }
  rewrite trace_part_outcome by assumption.
  destruct (first_candidates _ _ _) as [[ref_db_name candidates]|] eqn:Hfc;
    [|cbn [snd]; unfold all_entries; cbn; tauto].
  destruct (candidates !! _) as [e'|] eqn:He';
    [|cbn [snd]; unfold all_entries; cbn; tauto].
  apply first_candidates_Some in Hfc as (ref_db & Hdb & Hcand & _).
  apply list_elem_of_lookup_2 in He'. rewrite Hcand in He'.
  apply list_elem_of_In, filter_In in He' as [Hin _].
  apply list_elem_of_In in Hin.
  cbn [snd]. unfold all_entries.
  cbn [fp_databases with_status with_fp_databases]. intros e. split.
  - apply entries_moved_inv. now apply (entries_dict_get ref_db_name _ ref_db).
  - apply entries_moved.
Qed.

(** X26. No call loses a stored part.  Whatever state the backend is in and
    whatever [randint] answers, after any of the five calls every entry that
    was in some database is still in some database; and an entry that is
    there afterwards was there before, or is the part an [add_part] call
    was given.  ([trace_part] moves entries between databases, it neither
    drops nor copies one.) *)
Theorem calls_never_lose_parts (FpStatus_reset : FpStatus -> FpStatus)
    (rnd : Z -> Z -> Z) (c : call) self :
  let self' := snd (outcome rnd (program FpStatus_reset c) self) in
  (forall e, e ∈ all_entries self -> e ∈ all_entries self') /\
  (forall e, e ∈ all_entries self' ->
             e ∈ all_entries self \/
             exists database_name check_id check_fp p b t,
               c = AddPart database_name check_id check_fp p b t /\
               e = entry_of p b t).
Proof.
  cbv zeta. destruct c as [| |name|db ci cf p b t|db refs all bs bw ts tw];
    unfold program; rewrite ?outcome_fmap; cbn [snd].
  - split; intros e H; [|left]; exact H.
  - split; intros e H; [|left]; exact H.
  - split; intros e H; [|left]; exact H.
  - destruct (add_part_entries rnd self db ci cf p b t) as [Hkeep Hnew].
    split; [exact Hkeep|]. intros e H. destruct (Hnew e H) as [H'| ->];
      [now left|]. right. now exists db, ci, cf, p, b, t.
  - pose proof (trace_part_entries rnd self db refs all bs bw ts tw) as Hsame.
    cbv zeta in Hsame. split; intros e H; [|left]; now apply Hsame.
Qed.

Lemma reset_system_outcome R rnd self :
  outcome rnd (reset_system R) self
  = ([], mkMockup (mkFpStatus SYSTEM_READY RESULT_UNDEFINED NO_ERROR "")
                  (image_matching self) (fp_databases self)).
Proof.
  unfold reset_system, status_update. outcome_steps. reflexivity.
Qed.

Lemma set_image_matching_type_outcome name rnd self :
  outcome rnd (set_image_matching_type name) self
  = ([], mkMockup (mkFpStatus SYSTEM_READY RESULT_READY NO_ERROR "")
                  name (fp_databases self)).
Proof.
  unfold set_image_matching_type, status_update. outcome_steps. reflexivity.
Qed.

(** X27. [reset_system] and [set_image_matching_type] run without a status
    check, end with the backend ready and leave the databases alone.  So
    after either of them, from any state (the error state a duplicate left
    included), an [add_part] without duplicate checks is accepted and
    stores its part, and every part stored before is still there:
    [set_image_matching_type] clears an error state just as [reset_system]
    does. *)
Theorem recovery_then_add_part (FpStatus_reset : FpStatus -> FpStatus)
    (image_matching_name : string) (rnd : Z -> Z -> Z) self
    (c : coro FpMockupSystem dict) database_name p b t :
  c = reset_system FpStatus_reset \/
  c = set_image_matching_type image_matching_name ->
  exists self',
    outcome rnd (c;; add_part database_name false false p b t) self
    = ([("PartIDsOfDuplicates", VStr "")], self') /\
    status self' = mkFpStatus SYSTEM_READY RESULT_READY NO_ERROR "" /\
    entry_of p b t ∈ database database_name self' /\
    (forall e, e ∈ all_entries self -> e ∈ all_entries self').
Proof.
  intros Hc. rewrite outcome_bind.
  assert (Hfirst : exists st im,
            outcome rnd c self = ([], mkMockup st im (fp_databases self)) /\
            ready st = true).
  { destruct Hc as [-> | ->].
    - rewrite reset_system_outcome. eauto.
    - rewrite set_image_matching_type_outcome. eauto. }
  destruct Hfirst as (st & im & -> & Hr). cbn [fst snd].
  rewrite add_part_outcome by exact Hr. cbv zeta.
  rewrite !filter_none by reflexivity. cbn [length Nat.ltb Nat.leb].
  eexists. split; [reflexivity|]. split; [reflexivity|].
  rewrite database_with. split; [apply set_add_here|].
  intros e He. unfold all_entries, database.
  cbn [fp_databases with_status with_fp_databases]. now apply entries_added.
Qed.

Lemma recovery_then_add_part_witness :
  exists self',
    outcome Examples.no_choice
      (set_image_matching_type "T1";;
       add_part "DB1" false false "P2" "B2" "T2") Examples.after_duplicate
    = ([("PartIDsOfDuplicates", VStr "")], self') /\
    database "DB1" self' = [entry_of "P1" "B1" "T1"; entry_of "P2" "B2" "T2"].
Proof.
  destruct (recovery_then_add_part id "T1" Examples.no_choice
              Examples.after_duplicate (set_image_matching_type "T1")
              "DB1" "P2" "B2" "T2") as (self' & Hrun & _).
  - now right.
  - exists self'. split; [exact Hrun|].
    pose proof (f_equal snd Hrun) as Hs. cbn [snd] in Hs.
    rewrite <- Hs. vm_compute. reflexivity.
Defined.

End MockupCallProperties.

(** ** Progress of the calls *)

Section Progress.
Context {S R : Type}.
Implicit Types (c : coro S R) (p : pool S R).

Lemma bounded_step c c' σ σ' : bounded c -> task_step c σ c' σ' -> bounded c'.
Proof. intros Hb Hstep. inversion Hstep; subst; inversion Hb; subst; auto. Qed.

(** A call in its critical section can go on, whatever the lock shows. *)
Lemma in_cs_can_step c (s : S) (l : bool) :
  in_cs c -> bounded c -> exists c' s' l', task_step c (s, l) c' (s', l').
Proof.
  intros Hcs Hb. inversion Hcs; subst.
  - do 3 eexists. apply step_release.
  - do 3 eexists. apply step_get.
  - do 3 eexists. apply step_put.
  - do 3 eexists. apply step_sleep.
  - inversion Hb; subst. do 3 eexists. apply (step_randint lo hi k lo). lia.
Qed.

(** With the lock free, every call that has not returned can go on. *)
Lemma unlocked_can_step c (s : S) :
  (forall r, c <> Ret r) -> bounded c ->
  exists c' s' l', task_step c (s, false) c' (s', l').
Proof.
  intros Hnot Hb. destruct c.
  - now destruct (Hnot r).
  - do 3 eexists. apply step_get.
  - do 3 eexists. apply step_put.
  - do 3 eexists. apply step_sleep.
  - do 3 eexists. apply step_acquire.
  - do 3 eexists. apply step_release.
  - inversion Hb; subst. do 3 eexists. apply (step_randint lo hi k lo). lia.
Qed.

(** The lock is held by a call in its critical section, and no call has a
    [randint] out of bounds ahead. *)
Record live_inv p : Prop := mkLiveInv {
  live_lock : lock_inv p;
  live_holder : locked p = true ->
                exists i c, tasks p !! i = Some c /\ in_cs c;
  live_bounded : forall i c, tasks p !! i = Some c -> bounded c
}.

Lemma live_inv_init (s : S) (cs : list (coro S R)) :
  Forall outside_cs cs -> Forall bounded cs -> live_inv (mkPool s false cs).
Proof.
  intros Hout Hb. split.
  - now apply lock_inv_init.
  - simpl. discriminate.
  - simpl. intros i c Hi. rewrite Forall_lookup in Hb. eauto.
Qed.

Lemma live_inv_step i p p' : live_inv p -> pool_step i p p' -> live_inv p'.
Proof.
  intros [Hlock Hholder Hb] Hstep. split.
  - eapply lock_inv_step; eauto.
  - inversion Hstep as [i' c c' p0 s' l' Hi Hts]; subst. simpl. intros ->.
    assert (Hlen : i < length (tasks p)) by (eapply lookup_lt_Some; eauto).
    destruct (inv_shape p Hlock i c Hi) as [Hcs|Hout].
    + destruct (in_cs_step _ _ _ _ _ _ Hcs Hts) as [[Hcs' _]|[_ Hl]];
        [|discriminate].
      exists i, c'. split; [|assumption].
      now rewrite list_lookup_insert_eq.
    + destruct (outside_step _ _ _ _ _ _ Hout Hts)
        as [_ [[Hout' Hl]|(Hcs' & _ & _)]].
      * destruct (Hholder (eq_sym Hl)) as (j & cj & Hj & Hcj).
        exists j, cj. split; [|assumption].
        rewrite list_lookup_insert_ne; [assumption|].
        intros <-. rewrite Hi in Hj. injection Hj as <-.
        exact (outside_not_in_cs (backend p) c Hout Hcj).
      * exists i, c'. split; [|assumption].
        now rewrite list_lookup_insert_eq.
  - inversion Hstep as [i' c c' p0 s' l' Hi Hts]; subst. simpl.
    assert (Hlen : i < length (tasks p)) by (eapply lookup_lt_Some; eauto).
    intros j cj Hj. destruct (decide (j = i)) as [->|Hne].
    + rewrite list_lookup_insert_eq in Hj by assumption. injection Hj as <-.
      eapply bounded_step; eauto.
    + rewrite list_lookup_insert_ne in Hj by congruence. eauto.
Qed.

Lemma live_inv_steps p q : live_inv p -> pool_steps p q -> live_inv q.
Proof.
  intros Hp Hsteps. induction Hsteps as [p|i p q r _ IH Hstep]; [assumption|].
  apply (live_inv_step i q r); [now apply IH | assumption].
Qed.

Lemma returned_or_not (cs : list (coro S R)) :
  (forall i c, cs !! i = Some c -> exists r, c = Ret r) \/
  (exists i c, cs !! i = Some c /\ forall r, c <> Ret r).
Proof.
  induction cs as [|c cs IH].
  - left. intros i c Hi. destruct i; discriminate Hi.
  - destruct c as [r| | | | | |];
      try (right; exists 0; eexists; split; [reflexivity|]; discriminate).
    destruct IH as [Hall|(i & c & Hi & Hc)].
    + left. intros [|i] c Hi; simpl in Hi; [injection Hi as <-; eauto|eauto].
    + right. exists (Datatypes.S i), c. now split.
Qed.

(** Unless every call has returned, some call can take a step. *)
Lemma live_inv_progress p :
  live_inv p -> all_returned p \/ exists i, can_step i p.
Proof.
  intros [Hlock Hholder Hb].
  destruct (returned_or_not (tasks p)) as [Hall|(i & c & Hi & Hc)]; [now left|].
  right. destruct (locked p) eqn:Hl.
  - destruct (Hholder eq_refl) as (j & cj & Hj & Hcj).
    destruct (in_cs_can_step cj (backend p) true Hcj (Hb j cj Hj))
      as (c' & s' & l' & Hstep).
    exists j. eexists. eapply pool_step_task; [exact Hj|]. rewrite Hl. exact Hstep.
  - destruct (unlocked_can_step c (backend p) Hc (Hb i c Hi))
      as (c' & s' & l' & Hstep).
    exists i. eexists. eapply pool_step_task; [exact Hi|]. rewrite Hl. exact Hstep.
Qed.

Lemma bounded_bind {A} (c : coro S A) (f : A -> coro S R) :
  bounded c -> (forall a, bounded (f a)) -> bounded (c ≫= f).
Proof.
  intros Hc Hf. unfold mbind, coro_mbind.
  induction Hc; simpl; try (constructor; auto); auto.
Qed.

Lemma bounded_mret (r : R) : bounded (mret r : coro S R).
Proof. constructor. Qed.

End Progress.

Section BoundedShape.
Context {S : Type}.

Lemma bounded_get_ : bounded (get : coro S S).
Proof. constructor. intros. constructor. Qed.

Lemma bounded_modify (f : S -> S) : bounded (modify f).
Proof. constructor. intros. constructor. constructor. Qed.

Lemma bounded_sleep_ (q : Q) : bounded (sleep q : coro S unit).
Proof. constructor. constructor. Qed.

Lemma bounded_randint_ (lo hi : Z) :
  (lo <= hi)%Z -> bounded (randint lo hi : coro S Z).
Proof. intros H. constructor; [assumption|]. intros. constructor. Qed.

Lemma bounded_async_with_lock {A} (body : coro S A) :
  bounded body -> bounded (async_with_lock body).
Proof.
  intros Hb. unfold async_with_lock. constructor.
  apply bounded_bind; [assumption|]. intros a. constructor. constructor.
Qed.

Lemma bounded_fmap {A C} (g : A -> C) (c : coro S A) :
  bounded c -> bounded (g <$> c).
Proof.
  intros Hc. change (g <$> c) with (c ≫= fun a => mret (g a)).
  apply bounded_bind; [assumption|]. intros a. constructor.
Qed.

End BoundedShape.

Ltac bounded_step :=
  first
    [ apply bounded_bind
    | apply bounded_mret
    | apply bounded_get_
    | apply bounded_modify
    | apply bounded_sleep_
    | apply bounded_async_with_lock
    | apply bounded_fmap
    | match goal with
      | |- bounded (if ?b then _ else _) => destruct b
      | |- bounded (match ?x with _ => _ end) => destruct x eqn:?
      end
    | intro ].

Ltac solve_bounded := cbv zeta; repeat bounded_step.

Lemma mockup_program_bounded reset (c : call) : bounded (program reset c).
Proof.
  destruct c;
    unfold program, Mockup.reset_system, Mockup.set_image_matching_type,
      Mockup.add_part, Mockup.trace_part, Mockup.get_status,
      Mockup.status_update;
    solve_bounded.
  apply bounded_randint_.
  match goal with
  | H : Mockup.first_candidates _ _ _ = Some _ |- _ =>
      apply MockupCallFacts.first_candidates_Some in H as (? & _ & _ & Hlen)
  end.
  lia.
Qed.

(** X28. Calls on the simulated backend never deadlock.  However the event
    loop has interleaved a set of calls on one backend so far, either every
    call has returned or some call can take its next step: the lock is only
    ever held by a call that can go on to release it, and [trace_part]
    draws its random index only from a non-empty list of candidates. *)
Theorem mockup_calls_never_deadlock (FpStatus_reset : FpStatus -> FpStatus)
    (calls : list call) (self : Mockup.FpMockupSystem)
    (p : pool Mockup.FpMockupSystem pyret) :
  pool_steps (mkPool self false (map (program FpStatus_reset) calls)) p ->
  all_returned p \/ exists i, can_step i p.
Proof.
  intros Hsteps. apply live_inv_progress.
  eapply live_inv_steps; [|exact Hsteps]. apply live_inv_init.
  - apply Forall_forall. intros c Hc. apply list_elem_of_In in Hc.
    apply in_map_iff in Hc as (x & <- & _). apply ProgramShape.program_outside.
  - apply Forall_forall. intros c Hc. apply list_elem_of_In in Hc.
    apply in_map_iff in Hc as (x & <- & _). apply mockup_program_bounded.
Qed.

Lemma mockup_calls_never_deadlock_witness :
  exists p1, pool_step 0 LockExample.pool0 p1 /\
             (all_returned p1 \/ exists i, can_step i p1).
Proof.
  assert (Hstep : { p1 | pool_step 0 LockExample.pool0 p1 }).
  { eexists. eapply pool_step_task; [reflexivity|]. apply step_acquire. }
  destruct Hstep as [p1 Hstep]. exists p1. split; [exact Hstep|].
  apply (mockup_calls_never_deadlock id LockExample.two_calls
           Examples.fresh_ready p1).
  eapply pool_steps_step; [apply pool_steps_refl | exact Hstep].
Defined.

(** ** The echo backend *)

Module EchoShape.
Import Echo.

Lemma echo_lock_free_status_update r q e cmd : lock_free (status_update r q e cmd).
Proof. apply ProgramShape.lock_free_modify. Qed.

Ltac echo_lock_free :=
  cbv zeta;
  repeat first
    [ apply ProgramShape.lock_free_bind
    | apply ProgramShape.lock_free_mret
    | apply ProgramShape.lock_free_modify
    | apply ProgramShape.lock_free_sleep
    | apply echo_lock_free_status_update
    | intro ].

(** Every call of the echo backend, [get_status] too, waits for the lock
    with its whole body still to run. *)
Lemma program_waiting reset (c : call) :
  exists body, program reset c = Acquire body /\ in_cs body.
Proof.
  destruct c; unfold program, reset_system, get_status,
    set_image_matching_type, add_part, trace_part.
  - eexists. split; [reflexivity|].
    apply (ProgramShape.in_cs_locked_body _ RetDict). echo_lock_free.
  - eexists. split; [reflexivity|].
    repeat constructor.
  - eexists. split; [reflexivity|].
    apply (ProgramShape.in_cs_locked_body _ RetDict). echo_lock_free.
  - eexists. split; [reflexivity|].
    apply (ProgramShape.in_cs_locked_body _ RetDict). echo_lock_free.
  - eexists. split; [reflexivity|].
    apply (ProgramShape.in_cs_locked_body _ RetDict). echo_lock_free.
Qed.

End EchoShape.

Section Stages.
Context {S R : Type}.
Implicit Types (c : coro S R) (p : pool S R).

(** A call that takes the lock for all it does: it waits for the lock, is
    in its critical section, or has returned. *)
Inductive stage : coro S R -> Prop :=
| stage_waiting k : in_cs k -> stage (Acquire k)
| stage_inside c : in_cs c -> stage c
| stage_returned r : stage (Ret r).

Lemma stage_step c c' σ σ' : stage c -> task_step c σ c' σ' -> stage c'.
Proof.
  intros Hst Hstep. destruct Hst as [k Hk|c Hc|r].
  - inversion Hstep; subst. now apply stage_inside.
  - inversion Hstep; subst; inversion Hc; subst;
      first [apply stage_returned | apply stage_inside; auto].
  - inversion Hstep.
Qed.

Lemma stage_outside c : stage c -> in_cs c \/ outside_cs c.
Proof.
  intros [k Hk|c' Hc|r]; [right; now apply outside_waiting | now left |].
  right. apply outside_read_only. constructor.
Qed.

Lemma stages_steps p q :
  (forall i c, tasks p !! i = Some c -> stage c) -> pool_steps p q ->
  forall i c, tasks q !! i = Some c -> stage c.
Proof.
  intros Hp Hsteps. induction Hsteps as [p|j p q r _ IH Hstep]; [assumption|].
  specialize (IH Hp).
  inversion Hstep as [j' c0 c0' p0 s' l' Hj Hts]; subst. simpl.
  assert (Hlen : j < length (tasks q)) by (eapply lookup_lt_Some; eauto).
  intros i c Hi. destruct (decide (i = j)) as [->|Hne].
  - rewrite list_lookup_insert_eq in Hi by assumption. injection Hi as <-.
    eapply stage_step; eauto.
  - rewrite list_lookup_insert_ne in Hi by congruence. eauto.
Qed.

(** While a call is in its critical section, a call in another stage
    cannot take a step. *)
Lemma stage_blocked p i ci j :
  lock_inv p -> (forall k c, tasks p !! k = Some c -> stage c) ->
  tasks p !! i = Some ci -> in_cs ci -> j <> i -> ~ can_step j p.
Proof.
  intros Hinv Hst Hi Hci Hne [p' Hstep].
  inversion Hstep as [j' c c' p0 s' l' Hj Hts]; subst.
  pose proof (inv_locked p Hinv i ci Hi Hci) as Hl. rewrite Hl in Hts.
  destruct (Hst j c Hj) as [k Hk|c0 Hc|r].
  - inversion Hts.
  - apply Hne. eapply (inv_mutex p Hinv); eauto.
  - inversion Hts.
Qed.

End Stages.

(** X29. On the echo backend every call, [get_status] included, starts by
    acquiring [task_lock] and holds it to its end.  However the event loop
    interleaves a set of calls on one echo backend, at most one call is in
    its critical section, and while one is, no other call can take a step
    at all: a status query waits like the rest. *)
Theorem echo_calls_wait_for_each_other (FpStatus_reset : FpStatus -> FpStatus)
    (calls : list Echo.call) (self : Echo.FpEchoSystem)
    (p : pool Echo.FpEchoSystem pyret) :
  pool_steps (mkPool self false (map (Echo.program FpStatus_reset) calls)) p ->
  (forall c, exists body,
     Echo.program FpStatus_reset c = Acquire body /\ in_cs body) /\
  mutual_exclusion p /\
  (forall i ci j, tasks p !! i = Some ci -> in_cs ci -> j <> i ->
                  ~ can_step j p).
Proof.
  intros Hsteps. split; [apply EchoShape.program_waiting|].
  assert (Hst0 : forall i c,
            tasks (mkPool self false (map (Echo.program FpStatus_reset) calls))
              !! i = Some c -> stage c).
  { simpl. intros i c Hi. apply list_elem_of_lookup_2, list_elem_of_In in Hi.
    apply in_map_iff in Hi as (x & <- & _).
    destruct (EchoShape.program_waiting FpStatus_reset x) as (body & -> & Hb).
    now apply stage_waiting. }
  assert (Hinv : lock_inv p).
  { eapply lock_inv_steps; [|exact Hsteps]. apply lock_inv_init.
    apply Forall_forall. intros c Hc. apply list_elem_of_In in Hc.
    apply in_map_iff in Hc as (x & <- & _).
    destruct (EchoShape.program_waiting FpStatus_reset x) as (body & -> & Hb).
    now apply outside_waiting. }
  split; [apply Hinv|].
  intros i ci j Hi Hci Hne. eapply stage_blocked; eauto.
  eapply stages_steps; eauto.
Qed.

Lemma echo_calls_wait_for_each_other_witness :
  exists p1, pool_step 0 EchoExample.pool0 p1 /\ ~ can_step 1 p1.
Proof.
  assert (Hstep : { p1 | pool_step 0 EchoExample.pool0 p1 /\
                         exists c, tasks p1 !! 0 = Some c /\ in_cs c }).
  { eexists. split.
    - eapply pool_step_task; [reflexivity|]. apply step_acquire.
    - eexists. split; [reflexivity|].
      destruct (EchoShape.program_waiting id (Echo.AddPart [VStr "DB1"]))
        as (body & Heq & Hb).
      injection Heq as <-. exact Hb. }
  destruct Hstep as [p1 [Hstep (c & Hc & Hcs)]]. exists p1.
  split; [exact Hstep|].
  destruct (echo_calls_wait_for_each_other id EchoExample.two_calls
              EchoExample.echo0 p1) as (_ & _ & Hblocked).
  - eapply pool_steps_step; [apply pool_steps_refl | exact Hstep].
  - apply (Hblocked 0 c 1 Hc Hcs). discriminate.
Defined.
